(** * Nautalis web crawler: the crawling engine of [crawler.py]

    A shallow embedding of [RobotsChecker] and [WebCrawler] and of the
    parts of [urllib.parse] that they call, followed by the properties
    of the frontier, the politeness gate, the fetcher and the worker
    loop.

    Python [str] values are modelled as [string]: sequences of
    characters with code points below 256.  Python [int] is [Z]. *)

From Stdlib Require Import ZArith Ascii String List Bool Lia.
From stdpp Require Import base gmap sets strings.

Local Open Scope string_scope.

(** ** Exceptions *)

(** The exception classes that the code distinguishes.  [TimeoutError]
    is [asyncio.TimeoutError]; [OtherError] stands for any other
    subclass of [Exception], with its message. *)
Inductive exn : Type :=
| ValueError (msg : string)
| AttributeError (msg : string)
| TimeoutError
| OtherError (msg : string).

(** A call either raises or returns. *)
Definition Exc (A : Type) : Type := (exn + A)%type.

Definition ret {A} (a : A) : Exc A := inr a.
Definition raise {A} (e : exn) : Exc A := inl e.
Definition bind {A B} (m : Exc A) (k : A -> Exc B) : Exc B :=
  match m with
  | inl e => inl e
  | inr a => k a
  end.

(** [str(e)] *)
Definition exn_message (e : exn) : string :=
  match e with
  | ValueError m => m
  | AttributeError m => m
  | TimeoutError => ""
  | OtherError m => m
  end.

(** ** Python string methods *)

Module PyStr.

(** [c in s] for a one-character [c] *)
Fixpoint mem (c : ascii) (s : string) : bool :=
  match s with
  | EmptyString => false
  | String a s' => if Ascii.eqb a c then true else mem c s'
  end.

(** [s.find(c)] for a one-character [c]; [None] stands for [-1] *)
Fixpoint find (c : ascii) (s : string) : option nat :=
  match s with
  | EmptyString => None
  | String a s' => if Ascii.eqb a c then Some O else option_map S (find c s')
  end.

(** [s[:n]] *)
Fixpoint take (n : nat) (s : string) : string :=
  match n, s with
  | S n', String a s' => String a (take n' s')
  | _, _ => EmptyString
  end.

(** [s[n:]] *)
Fixpoint drop (n : nat) (s : string) : string :=
  match n, s with
  | S n', String _ s' => drop n' s'
  | _, _ => s
  end.

(** [s.find(c, start)] *)
Definition find_from (c : ascii) (start : nat) (s : string) : option nat :=
  if (start <=? String.length s)%nat
  then option_map (Nat.add start) (find c (drop start s))
  else None.

(** [s.rfind(c)]; [None] stands for [-1] *)
Fixpoint rfind (c : ascii) (s : string) : option nat :=
  match s with
  | EmptyString => None
  | String a s' =>
      match rfind c s' with
      | Some i => Some (S i)
      | None => if Ascii.eqb a c then Some O else None
      end
  end.

(** [all(p(c) for c in s)] *)
Fixpoint all (p : ascii -> bool) (s : string) : bool :=
  match s with
  | EmptyString => true
  | String a s' => p a && all p s'
  end.

(** [s.lstrip(chars)], the set [chars] given by its membership test *)
Fixpoint lstrip (p : ascii -> bool) (s : string) : string :=
  match s with
  | EmptyString => EmptyString
  | String a s' => if p a then lstrip p s' else s
  end.

(** [s.replace(b, "")] for every one-character [b] that satisfies [p] *)
Fixpoint remove (p : ascii -> bool) (s : string) : string :=
  match s with
  | EmptyString => EmptyString
  | String a s' => if p a then remove p s' else String a (remove p s')
  end.

(** [c.lower()] on code points below 256: the letters A-Z, and the
    Latin-1 capitals U+00C0-U+00DE other than the sign U+00D7.  On
    strings of such characters [str.lower()] works character by
    character, as [lower] below does.  Beyond them it does not (a
    capital sigma becomes one of two small letters, by its place in
    the word); such strings are outside this development, and a
    property stated here for two spellings of a URL is stated for
    spellings that differ in the ASCII letters only. *)
Definition lower_char (c : ascii) : ascii :=
  let n := nat_of_ascii c in
  if ((65 <=? n) && (n <=? 90))%nat then ascii_of_nat (n + 32)
  else if ((192 <=? n) && (n <=? 222) && negb (n =? 215))%nat
       then ascii_of_nat (n + 32)
       else c.

(** [s.lower()] *)
Fixpoint lower (s : string) : string :=
  match s with
  | EmptyString => EmptyString
  | String a s' => String (lower_char a) (lower s')
  end.

(** [s.startswith(p)] *)
Definition startswith (p s : string) : bool := String.prefix p s.

(** [s.endswith(e)] *)
Definition endswith (e s : string) : bool :=
  (String.length e <=? String.length s)%nat
  && String.eqb (drop (String.length s - String.length e) s) e.

(** [sub in s] *)
Fixpoint contains (sub s : string) : bool :=
  String.prefix sub s
  || match s with
     | EmptyString => false
     | String _ s' => contains sub s'
     end.

(** [x in l] for a list of strings *)
Definition in_list (x : string) (l : list string) : bool :=
  existsb (String.eqb x) l.

(** truth value of a string: non-empty *)
Definition truthy (s : string) : bool :=
  match s with
  | EmptyString => false
  | String _ _ => true
  end.

End PyStr.

(** ** Library code taken as a parameter *)

(** Functions and classes of the Python libraries that the crawler
    calls and whose bodies are not part of this development.  A method
    of a [RobotFileParser] object takes the object and returns it,
    updated, with what the call returned or raised. *)
Class Library : Type := {
  (** [urllib.parse._check_bracketed_netloc]: validates a bracketed IP
      literal with [ipaddress] and [re] *)
  check_bracketed_netloc : string -> Exc unit;
  (** [urllib.parse.urljoin] *)
  urljoin : string -> string -> Exc string;
  (** [urllib.robotparser.RobotFileParser]: the objects, the object
      built by [RobotFileParser()], and the methods [set_url] and
      [can_fetch] *)
  RobotFileParser : Type;
  RobotFileParser_new : RobotFileParser;
  RobotFileParser_set_url :
    string -> RobotFileParser -> RobotFileParser * Exc unit;
  RobotFileParser_can_fetch :
    string -> string -> RobotFileParser -> Exc bool
}.

(** ** [urllib.parse]: the functions [crawler.py] imports *)

(** [urlparse] and [urlunparse] follow CPython's [Lib/urllib/parse.py]
    (3.11).  [_checknetloc] looks for characters whose NFKC form
    contains one of [/?#@:]; no code point below 256 has such a form,
    so on the strings modelled here it returns without raising. *)

Module UrlParse.
Import PyStr.

Record ParseResult : Type := mkParseResult {
  scheme : string;
  netloc : string;
  path : string;
  params : string;
  query : string;
  fragment : string
}.

Definition uses_netloc : list string :=
  [""; "ftp"; "http"; "gopher"; "nntp"; "telnet";
   "imap"; "wais"; "file"; "mms"; "https"; "shttp";
   "snews"; "prospero"; "rtsp"; "rtspu"; "rsync";
   "svn"; "svn+ssh"; "sftp"; "nfs"; "git"; "git+ssh";
   "ws"; "wss"].

Definition uses_params : list string :=
  [""; "ftp"; "hdl"; "prospero"; "http"; "imap";
   "https"; "shttp"; "rtsp"; "rtspu"; "sip"; "sips";
   "mms"; "sftp"; "tel"].

(** [c.isascii() and c.isalpha()] *)
Definition is_ascii_alpha (c : ascii) : bool :=
  let n := nat_of_ascii c in
  ((65 <=? n) && (n <=? 90) || (97 <=? n) && (n <=? 122))%nat.

Definition is_digit (c : ascii) : bool :=
  let n := nat_of_ascii c in ((48 <=? n) && (n <=? 57))%nat.

(** [c in scheme_chars] *)
Definition scheme_char (c : ascii) : bool :=
  is_ascii_alpha c || is_digit c
  || Ascii.eqb c "+" || Ascii.eqb c "-" || Ascii.eqb c ".".

(** [c in _WHATWG_C0_CONTROL_OR_SPACE] *)
Definition c0_control_or_space (c : ascii) : bool :=
  (nat_of_ascii c <=? 32)%nat.

(** [c in _UNSAFE_URL_BYTES_TO_REMOVE]: tab, carriage return, newline *)
Definition unsafe_url_byte (c : ascii) : bool :=
  let n := nat_of_ascii c in ((n =? 9) || (n =? 13) || (n =? 10))%nat.

(** The first lines of [urlsplit]: strip, then delete the unsafe bytes. *)
Definition sanitize (url : string) : string :=
  remove unsafe_url_byte (lstrip c0_control_or_space url).

(** The scheme detection of [urlsplit]: returns [(scheme, url)]. *)
Definition split_scheme (url : string) : string * string :=
  match find ":" url, url with
  | Some i, String c0 _ =>
      if (0 <? i)%nat && is_ascii_alpha c0 && all scheme_char (take i url)
      then (lower (take i url), drop (S i) url)
      else ("", url)
  | _, _ => ("", url)
  end.

(** [_splitnetloc(url, start)] *)
Definition splitnetloc (url : string) (start : nat) : string * string :=
  let delim :=
    fold_left
      (fun delim c =>
         match find_from c start url with
         | Some wdelim => Nat.min delim wdelim
         | None => delim
         end)
      ["/"; "?"; "#"]%char (String.length url) in
  (take (delim - start) (drop start url), drop delim url).

(** [url.split(c, 1)] under the guard [c in url] of its two uses:
    returns [(url, "")] when [c] does not occur. *)
Definition split_once (c : ascii) (url : string) : string * string :=
  match find c url with
  | Some i => (take i url, drop (S i) url)
  | None => (url, "")
  end.

(** [_checknetloc] *)
Definition checknetloc (netloc : string) : Exc unit := ret tt.

Section WithLibrary.
Context `{lib : Library}.

(** The two tests that [urlsplit] makes on the brackets of a netloc *)
Definition check_brackets (netloc : string) : Exc unit :=
  if mem "[" netloc && negb (mem "]" netloc)
     || mem "]" netloc && negb (mem "[" netloc)
  then raise (ValueError "Invalid IPv6 URL")
  else if mem "[" netloc && mem "]" netloc
       then check_bracketed_netloc netloc
       else ret tt.

(** The authority part of [urlsplit]: returns [(netloc, url)]. *)
Definition split_authority (url : string) : Exc (string * string) :=
  if String.eqb (take 2 url) "//" then
    let '(netloc, url) := splitnetloc url 2 in
    bind (check_brackets netloc) (fun _ => ret (netloc, url))
  else ret ("", url).

(** [urlsplit(url)], as the 5-tuple
    [(scheme, netloc, path, query, fragment)] *)
Definition urlsplit (url : string)
  : Exc (string * string * string * string * string) :=
  let url := sanitize url in
  let '(scheme, url) := split_scheme url in
  bind (split_authority url) (fun '(netloc, url) =>
  let '(url, fragment) := split_once "#" url in
  let '(url, query) := split_once "?" url in
  bind (checknetloc netloc) (fun _ =>
  ret (scheme, netloc, url, query, fragment))).

(** [_splitparams(url)] *)
Definition splitparams (url : string) : string * string :=
  let cut (i : option nat) :=
    match i with
    | Some i => (take i url, drop (S i) url)
    | None => (take (String.length url - 1) url, url)
    end in
  if mem "/" url then
    match find_from ";" (default 0%nat (rfind "/" url)) url with
    | None => (url, "")
    | Some i => cut (Some i)
    end
  else cut (find ";" url).

(** [urlparse(url)] *)
Definition urlparse (url : string) : Exc ParseResult :=
  bind (urlsplit url) (fun '(scheme, netloc, url, query, fragment) =>
  let '(url, params) :=
    if in_list scheme uses_params && mem ";" url
    then splitparams url else (url, "") in
  ret (mkParseResult scheme netloc url params query fragment)).

End WithLibrary.

(** [urlunsplit((scheme, netloc, url, query, fragment))] *)
Definition urlunsplit (scheme netloc url query fragment : string) : string :=
  let url :=
    if truthy netloc
       || truthy scheme && in_list scheme uses_netloc
          && negb (String.eqb (take 2 url) "//")
    then
      let url :=
        if truthy url && negb (String.eqb (take 1 url) "/")
        then "/" +:+ url else url in
      "//" +:+ netloc +:+ url
    else url in
  let url := if truthy scheme then scheme +:+ ":" +:+ url else url in
  let url := if truthy query then url +:+ "?" +:+ query else url in
  let url := if truthy fragment then url +:+ "#" +:+ fragment else url in
  url.

(** [urlunparse((scheme, netloc, url, params, query, fragment))] *)
Definition urlunparse (p : ParseResult) : string :=
  let url :=
    if truthy (params p) then path p +:+ ";" +:+ params p else path p in
  urlunsplit (scheme p) (netloc p) url (query p) (fragment p).

End UrlParse.


(** ** [class RobotsChecker] *)

Module RobotsChecker.
Import PyStr UrlParse.

(** What the request of lines 50-52 meets: [session.get] raises (a
    network error, a timeout), or a response arrives with its status
    and with what [await response.text()] returns or raises. *)
Inductive RobotsFetch : Type :=
| RobotsRaised (e : exn)
| RobotsResponse (status : Z) (text : Exc string).

Section WithLibrary.
Context `{lib : Library}.

Record t : Type := mk {
  robots_cache : gmap string RobotFileParser;
  user_agent : string
}.

(** [__init__] *)
Definition new : t := mk ∅ "NautalisBot/1.0".

Definition set_robots_cache (c : gmap string RobotFileParser) (self : t) : t :=
  mk c (user_agent self).

(** A statement that works on the local object [rp]. *)
Definition Stmt : Type := RobotFileParser -> RobotFileParser * Exc unit.

Definition seq (s1 s2 : Stmt) : Stmt :=
  fun rp =>
    match s1 rp with
    | (rp', inr _) => s2 rp'
    | (rp', inl e) => (rp', inl e)
    end.

(** [try: s except Exception: handler] *)
Definition try_except (s handler : Stmt) : Stmt :=
  fun rp =>
    match s rp with
    | (rp', inr u) => (rp', inr u)
    | (rp', inl _) => handler rp'
    end.

(** [rp.set_url(robots_url)] *)
Definition set_url (robots_url : string) : Stmt :=
  RobotFileParser_set_url robots_url.

(** [rp.feed(content)].  [RobotFileParser] has the methods [mtime],
    [modified], [set_url], [read], [parse], [can_fetch], [crawl_delay],
    [request_rate] and [site_maps]; it has no attribute [feed], and
    the lookup raises [AttributeError]. *)
Definition feed (content : string) : Stmt :=
  fun rp =>
    (rp, raise (AttributeError
                  "'RobotFileParser' object has no attribute 'feed'")).

(** Lines 49-62: the inner [try] statement. *)
Definition load_robots (robots_url : string) (resp : RobotsFetch) : Stmt :=
  try_except
    (match resp with
     | RobotsRaised e => fun rp => (rp, raise e)
     | RobotsResponse status text =>
         if (status =? 200)%Z then
           match text with
           | inl e => fun rp => (rp, raise e)
           | inr robots_content =>
               seq (set_url robots_url) (feed robots_content)
           end
         else
           (* If robots.txt doesn't exist, allow all *)
           seq (set_url robots_url) (feed "")
     end)
    (* If we can't fetch robots.txt, be conservative and allow *)
    (seq (set_url robots_url) (feed "")).

(** Lines 42-66: the body of the outer [try].  [net] answers the
    request for a URL.  Returns the checker, the URLs requested with
    [session.get], and what the body returns or raises. *)
Definition can_fetch_body (self : t) (url : string)
    (net : string -> RobotsFetch) : t * list string * Exc bool :=
  match urlparse url with
  | inl e => (self, [], raise e)
  | inr parsed =>
      let domain := scheme parsed +:+ "://" +:+ netloc parsed in
      let '(self, requests, loaded) :=
        match robots_cache self !! domain with
        | Some _ => (self, [], ret tt)
        | None =>
            match urljoin domain "/robots.txt" with
            | inl e => (self, [], raise e)
            | inr robots_url =>
                match load_robots robots_url (net robots_url)
                        RobotFileParser_new with
                | (rp, inr _) =>
                    (set_robots_cache (<[domain := rp]> (robots_cache self))
                       self,
                     [robots_url], ret tt)
                | (_, inl e) => (self, [robots_url], raise e)
                end
            end
        end in
      match loaded with
      | inl e => (self, requests, raise e)
      | inr _ =>
          match robots_cache self !! domain with
          | Some rp =>
              (self, requests, RobotFileParser_can_fetch (user_agent self) url rp)
          | None => (self, requests, raise (OtherError domain))
          end
      end
  end.

(** [can_fetch(session, url)]: the body, and line 67-69: any exception
    is logged and the answer is [True]. *)
Definition can_fetch (self : t) (url : string)
    (net : string -> RobotsFetch) : t * list string * bool :=
  let '(self, requests, r) := can_fetch_body self url net in
  (self, requests,
   match r with
   | inr answer => answer
   | inl _ => true  (* Default to allowing if check fails *)
   end).

End WithLibrary.
End RobotsChecker.

(** ** [class CrawlerConfig] ([config.py]) *)

(** The fields that change what the crawler does with its state;
    [delay] and [timeout] only shape the timing of the requests. *)
Record CrawlerConfig : Type := mkConfig {
  max_depth : Z;
  max_pages : Z;
  max_workers : Z;
  stay_in_domain : bool
}.

(** ** [asyncio.Queue()], unbounded *)

Module Queue.

(** The items waiting, oldest first, together with the history of the
    queue: every item ever put, oldest first. *)
Record t (A : Type) : Type := mk {
  items : list A;
  history : list A
}.
Arguments mk {A}.
Arguments items {A}.
Arguments history {A}.

Definition empty {A} : t A := mk [] [].

(** [await q.put(x)]: never blocks, the queue has no bound. *)
Definition put {A} (x : A) (q : t A) : t A :=
  mk (items q ++ [x]) (history q ++ [x]).

(** [q.get()] when an item waits *)
Definition get {A} (q : t A) : option (A * t A) :=
  match items q with
  | [] => None
  | x :: rest => Some (x, mk rest (history q))
  end.

End Queue.

(** ** [DatabaseManager.store_page] ([database.py]) *)

Module DatabaseManager.

(** Lines 113-138: the statements that talk to the database driver are
    inside [try: ... except Exception as e: self.logger.error(...)];
    whatever the driver does, [store_page] returns. *)
Definition store_page (driver : Exc unit) : Exc unit :=
  match driver with
  | inr _ => ret tt
  | inl _ => ret tt
  end.

End DatabaseManager.

(** ** [class WebCrawler] *)

Module WebCrawler.
Import PyStr UrlParse.

(** A reading of the clock, [time.time()]. *)
Abbreviation Time := Z.

(** [@dataclass class CrawlResult] *)
Record CrawlResult : Type := mkResult {
  url : string;
  status_code : Z;
  title : string;
  content_length : Z;
  links : list string;
  timestamp : Time;
  error : option string
}.

(** [self.stats] *)
Record Stats : Type := mkStats {
  total_crawled : Z;
  successful : Z;
  failed : Z;
  robots_blocked : Z;
  start_time : Time
}.

(** What the request of line 204 meets: [session.get] raises, or a
    response arrives. *)
Record Html : Type := mkHtml {
  html_len : Z;                (* [len(html)] *)
  html_title : string;         (* [self.extract_title(html)] *)
  html_links : list string     (* [self.extract_links(html, url)] *)
}.

Record Response : Type := mkResponse {
  status : Z;                      (* [response.status] *)
  content_type : option string;    (* [response.headers.get('content-type')] *)
  text : Exc Html                  (* [await response.text()] *)
}.

Inductive PageFetch : Type :=
| GetRaised (e : exn)
| GetResponse (r : Response).

Section WithLibrary.
Context `{lib : Library}.

(** The attributes of the crawler that change during a crawl. *)
Record t : Type := mk {
  visited_urls : gset string;
  queued_urls : gset string;
  url_queue : Queue.t (string * Z);
  stats : Stats;
  robots_checker : RobotsChecker.t
}.

(** [__init__] *)
Definition new (now : Time) : t :=
  mk ∅ ∅ Queue.empty (mkStats 0 0 0 0 now) RobotsChecker.new.

Definition set_visited_urls (v : gset string) (self : t) : t :=
  mk v (queued_urls self) (url_queue self) (stats self) (robots_checker self).
Definition set_queued_urls (q : gset string) (self : t) : t :=
  mk (visited_urls self) q (url_queue self) (stats self) (robots_checker self).
Definition set_url_queue (q : Queue.t (string * Z)) (self : t) : t :=
  mk (visited_urls self) (queued_urls self) q (stats self) (robots_checker self).
Definition set_stats (s : Stats) (self : t) : t :=
  mk (visited_urls self) (queued_urls self) (url_queue self) s (robots_checker self).
Definition set_robots_checker (r : RobotsChecker.t) (self : t) : t :=
  mk (visited_urls self) (queued_urls self) (url_queue self) (stats self) r.

(** [normalize_url] *)
Definition normalize_url (url : string) : Exc string :=
  bind (urlparse url) (fun parsed =>
  (* Remove fragment and normalize *)
  ret (urlunparse
         (mkParseResult (lower (scheme parsed)) (lower (netloc parsed))
            (path parsed) (params parsed) (query parsed) ""))).

Definition skip_extensions : list string :=
  [".jpg"; ".jpeg"; ".png"; ".gif"; ".bmp"; ".ico";
   ".pdf"; ".doc"; ".docx"; ".xls"; ".xlsx"; ".zip";
   ".tar"; ".gz"; ".mp3"; ".mp4"; ".avi"; ".mov"].

(** [is_valid_url]; [base_domain] is [None] or a string. *)
Definition is_valid_url (cfg : CrawlerConfig) (url : string)
    (base_domain : option string) : bool :=
  match urlparse url with
  | inl _ => false   (* except Exception: return False *)
  | inr parsed =>
      (* Must have scheme and netloc *)
      if negb (truthy (scheme parsed)) || negb (truthy (netloc parsed))
      then false
      (* Only HTTP/HTTPS *)
      else if negb (in_list (scheme parsed) ["http"; "https"])
      then false
      (* Domain restriction check *)
      else if match base_domain with
              | Some base_domain =>
                  truthy base_domain && stay_in_domain cfg
                  && negb (String.eqb (lower (netloc parsed))
                             (lower base_domain))
              | None => false
              end
      then false
      (* Skip common non-content files *)
      else if existsb (fun ext => endswith ext (lower (path parsed)))
                skip_extensions
      then false
      else true
  end.

(** Lines 226-231: one turn of the loop over [links]. *)
Definition admit_link (cfg : CrawlerConfig) (base_domain : option string)
    (depth : Z) (self : t) (link : string) : t :=
  if negb (bool_decide (link ∈ visited_urls self))
     && negb (bool_decide (link ∈ queued_urls self))
     && is_valid_url cfg link base_domain
  then
    set_url_queue (Queue.put (link, (depth + 1)%Z) (url_queue self))
      (set_queued_urls ({[link]} ∪ queued_urls self) self)
  else self.

(** Lines 225-231: [for link in links: ...] *)
Definition admit_links (cfg : CrawlerConfig) (base_domain : option string)
    (depth : Z) (links : list string) (self : t) : t :=
  fold_left (admit_link cfg base_domain depth) links self.

(** Lines 242-253: the two [except] clauses of [fetch_url]. *)
Definition fetch_url_except (url : string) (now : Time) (e : exn)
  : CrawlResult :=
  match e with
  | TimeoutError => mkResult url 0 "" 0 [] now (Some "Timeout")
  | _ => mkResult url 0 "" 0 [] now (Some (exn_message e))
  end.

(** Line 223: [urlparse(url).netloc if self.config.stay_in_domain else
    None] *)
Definition base_domain_of (cfg : CrawlerConfig) (url : string)
  : Exc (option string) :=
  if stay_in_domain cfg
  then bind (urlparse url) (fun parsed => ret (Some (netloc parsed)))
  else ret None.

(** Lines 195-240: [fetch_url] after the robots check has allowed the
    URL, as what the [try] body returns or raises. *)
Definition fetch_page (cfg : CrawlerConfig) (self : t) (url : string)
    (depth : Z) (page : PageFetch) (now : Time) : t * Exc CrawlResult :=
  match page with
  | GetRaised e => (self, raise e)
  | GetResponse response =>
      (* Only process HTML content *)
      let content_type := lower (default "" (content_type response)) in
      if negb (contains "text/html" content_type) then
        (self, ret (mkResult url (status response) "" 0 [] now None))
      else
        match text response with
        | inl e => (self, raise e)
        | inr html =>
            let title := html_title html in
            let links := html_links html in
            (* Add new links to queue if within depth limit *)
            let admitted :=
              if (depth <? max_depth cfg)%Z then
                match base_domain_of cfg url with
                | inl e => (self, raise e)
                | inr base_domain =>
                    (admit_links cfg base_domain depth links self, ret tt)
                end
              else (self, ret tt) in
            match admitted with
            | (self, inl e) => (self, raise e)
            | (self, inr _) =>
                (self,
                 ret (mkResult url (status response) title (html_len html)
                        links now None))
            end
        end
  end.

(** Lines 190-253: [fetch_url] from the answer [allowed] of
    [await self.robots_checker.can_fetch(session, url)] on. *)
Definition fetch_url_gated (cfg : CrawlerConfig) (self : t) (url : string)
    (depth : Z) (allowed : bool) (page : PageFetch) (now : Time)
  : t * option CrawlResult :=
  if negb allowed then
    let s := stats self in
    (set_stats (mkStats (total_crawled s) (successful s) (failed s)
                  (robots_blocked s + 1)%Z (start_time s)) self,
     None)
  else
    match fetch_page cfg self url depth page now with
    | (self, inr result) => (self, Some result)
    | (self, inl e) => (self, Some (fetch_url_except url now e))
    end.

(** [fetch_url(session, url, depth)].  [robots] is what a request for
    [robots.txt] meets, [page] what the request for [url] meets, [now]
    the clock when the result is built. *)
Definition fetch_url (cfg : CrawlerConfig) (self : t) (url : string)
    (depth : Z) (robots : RobotsChecker.RobotsFetch) (page : PageFetch)
    (now : Time) : t * option CrawlResult :=
  let '(checker, _, allowed) :=
    RobotsChecker.can_fetch (robots_checker self) url (fun _ => robots) in
  fetch_url_gated cfg (set_robots_checker checker self) url depth allowed
    page now.

(** *** The worker loop *)

(** How one turn of [while True] ends. *)
Inductive LoopCtl : Type := Continue | Break.

(** Where a worker stands between two awaits. *)
Inductive Worker : Type :=
| AtGet                                  (* line 260: awaiting [url_queue.get()] *)
| Dequeued (url : string) (depth : Z)    (* line 260: the item is taken, the worker not yet resumed *)
| InFetch (url : string) (depth : Z)     (* line 271: awaiting [fetch_url] *)
| InStore (result : CrawlResult)         (* line 275: awaiting [db.store_page] *)
| Exited.                                (* the loop is left *)

(** Lines 264-269 *)
Definition worker_resume (self : t) (url : string) (depth : Z) : t * Worker :=
  if bool_decide (url ∈ visited_urls self) then
    (self, AtGet)   (* task_done(); continue *)
  else
    (set_visited_urls ({[url]} ∪ visited_urls self) self, InFetch url depth).

(** Lines 284-296, once [store_page] has returned *)
Definition worker_count (cfg : CrawlerConfig) (self : t)
    (result : CrawlResult) : t * LoopCtl :=
  let s := stats self in
  let s :=
    if (status_code result =? 200)%Z
    then mkStats (total_crawled s) (successful s + 1)%Z (failed s)
           (robots_blocked s) (start_time s)
    else mkStats (total_crawled s) (successful s) (failed s + 1)%Z
           (robots_blocked s) (start_time s) in
  let s := mkStats (total_crawled s + 1)%Z (successful s) (failed s)
             (robots_blocked s) (start_time s) in
  let self := set_stats s self in
  (* Check if we've hit the max pages limit *)
  if (0 <? max_pages cfg)%Z && (max_pages cfg <=? total_crawled s)%Z
  then (self, Break)
  else (self, Continue).

(** Lines 273-296: what follows [fetch_url] in the [try] body;
    [stored] is what [await self.db.store_page(...)] returns or
    raises. *)
Definition worker_finish (cfg : CrawlerConfig) (self : t)
    (result : option CrawlResult) (stored : Exc unit) : t * Exc LoopCtl :=
  match result with
  | Some result =>
      match stored with
      | inl e => (self, raise e)
      | inr _ =>
          let '(self, ctl) := worker_count cfg self result in (self, ret ctl)
      end
  | None => (self, ret Continue)
  end.

(** Lines 298-303: the [except] clauses of the loop body. *)
Definition worker_except (r : Exc LoopCtl) : LoopCtl :=
  match r with
  | inr ctl => ctl
  | inl TimeoutError => Break      (* No more URLs in queue, worker can exit *)
  | inl _ => Continue              (* logged; task_done() *)
  end.

Definition after_turn (ctl : LoopCtl) : Worker :=
  match ctl with
  | Continue => AtGet
  | Break => Exited
  end.

(** *** The crawl: one event loop, [max_workers] worker tasks *)

(** The crawler and its worker tasks, by [worker_id]. *)
Record System : Type := mkSystem {
  crawler : t;
  workers : list Worker
}.

(** asyncio runs one task at a time and changes task only at an
    [await].  An event is what one task does between two awaits.
    [fetch_url] has no effect on the crawler before its last await, so
    it is one event. *)
Inductive Event : Type :=
| EvGet (w : nat)
    (* [url_queue.get()] hands its oldest item over for worker [w] *)
| EvGetTimeout (w : nat)
    (* the queue stayed empty: [wait_for] raises [TimeoutError] in [w] *)
| EvResume (w : nat)
    (* worker [w] runs lines 264-271, up to the call of [fetch_url] *)
| EvFetch (w : nat) (robots : RobotsChecker.RobotsFetch) (page : PageFetch)
    (now : Time)
    (* [fetch_url] returns in worker [w] *)
| EvStore (w : nat) (driver : Exc unit).
    (* [store_page] returns in worker [w], which runs lines 284-296 *)

Definition set_worker (w : nat) (pc : Worker) (s : System) : System :=
  mkSystem (crawler s) (<[w := pc]> (workers s)).

Definition step (cfg : CrawlerConfig) (s : System) (ev : Event) : System :=
  match ev with
  | EvGet w =>
      match workers s !! w, Queue.get (url_queue (crawler s)) with
      | Some AtGet, Some ((url, depth), q) =>
          mkSystem (set_url_queue q (crawler s))
            (<[w := Dequeued url depth]> (workers s))
      | _, _ => s
      end
  | EvGetTimeout w =>
      match workers s !! w, Queue.items (url_queue (crawler s)) with
      | Some AtGet, [] =>
          set_worker w (after_turn (worker_except (raise TimeoutError))) s
      | _, _ => s
      end
  | EvResume w =>
      match workers s !! w with
      | Some (Dequeued url depth) =>
          let '(self, pc) := worker_resume (crawler s) url depth in
          mkSystem self (<[w := pc]> (workers s))
      | _ => s
      end
  | EvFetch w robots page now =>
      match workers s !! w with
      | Some (InFetch url depth) =>
          match fetch_url cfg (crawler s) url depth robots page now with
          | (self, Some result) =>
              mkSystem self (<[w := InStore result]> (workers s))
          | (self, None) =>
              let '(self, r) := worker_finish cfg self None (ret tt) in
              mkSystem self (<[w := after_turn (worker_except r)]> (workers s))
          end
      | _ => s
      end
  | EvStore w driver =>
      match workers s !! w with
      | Some (InStore result) =>
          let '(self, r) :=
            worker_finish cfg (crawler s) (Some result)
              (DatabaseManager.store_page driver) in
          mkSystem self (<[w := after_turn (worker_except r)]> (workers s))
      | _ => s
      end
  end.

(** Lines 316-320: one seed URL *)
Definition admit_seed (cfg : CrawlerConfig) (self : t) (url : string)
  : Exc t :=
  bind (normalize_url url) (fun normalized_url =>
  if is_valid_url cfg normalized_url None then
    ret (set_url_queue (Queue.put (normalized_url, 0%Z) (url_queue self))
           (set_queued_urls ({[normalized_url]} ∪ queued_urls self) self))
  else ret self).

(** Lines 316-320: [for url in seed_urls: ...] *)
Fixpoint admit_seeds (cfg : CrawlerConfig) (self : t) (seed_urls : list string)
  : Exc t :=
  match seed_urls with
  | [] => ret self
  | url :: rest =>
      bind (admit_seed cfg self url) (fun self => admit_seeds cfg self rest)
  end.

(** [crawl(seed_urls)] from line 315 to line 335, once
    [await self.db.initialize()] of line 313 has returned: the seeds
    are queued and the worker tasks created.  When the initialization
    raises, [crawl] raises with it before it looks at a seed; a run is
    a run of a crawler whose database is open. *)
Definition crawl (cfg : CrawlerConfig) (now : Time) (seed_urls : list string)
  : Exc System :=
  bind (admit_seeds cfg (new now) seed_urls) (fun self =>
  ret (mkSystem self (replicate (Z.to_nat (max_workers cfg)) AtGet))).

(** A run: [crawl], then the events in the order the loop runs them. *)
Definition run (cfg : CrawlerConfig) (now : Time) (seed_urls : list string)
    (events : list Event) : Exc System :=
  bind (crawl cfg now seed_urls) (fun s => ret (fold_left (step cfg) events s)).

End WithLibrary.
End WebCrawler.

(** ** A library instance to evaluate the definitions on *)

(** No bracketed literal is rejected; [urljoin] is right on the one
    shape [can_fetch] passes it (a site root and an absolute path); a
    parser object is the URL given to it and, like a
    [RobotFileParser] that has read nothing, allows no URL. *)
Definition plain_library : Library := {|
  check_bracketed_netloc := fun _ => ret tt;
  urljoin := fun base url => ret (base +:+ url);
  RobotFileParser := string;
  RobotFileParser_new := "";
  RobotFileParser_set_url := fun url _ => (url, ret tt);
  RobotFileParser_can_fetch := fun _ _ _ => ret false
|}.

(** Whether a call returned, and the state it returned. *)
Definition returned {A} (r : Exc A) : bool :=
  match r with
  | inr _ => true
  | inl _ => false
  end.

Definition state_of `{lib : Library} (r : Exc WebCrawler.System)
  : WebCrawler.System :=
  match r with
  | inr s => s
  | inl _ => WebCrawler.mkSystem (WebCrawler.new 0%Z) []
  end.

(** Runs for the examples: one worker, depth 1, on one seed. *)
Definition sample_config : CrawlerConfig := mkConfig 1 1000 1 true.

(** The seed is taken from the queue and its fetch is about to end. *)
Definition sample_fetching : list WebCrawler.Event :=
  [WebCrawler.EvGet 0; WebCrawler.EvResume 0].

(** The request for the seed times out. *)
Definition sample_timeout : list WebCrawler.Event :=
  sample_fetching
  ++ [WebCrawler.EvFetch 0 (RobotsChecker.RobotsRaised TimeoutError)
        (WebCrawler.GetRaised TimeoutError) 7%Z].

(** The seed is a page with a link to its own host and one to another. *)
Definition sample_page : WebCrawler.PageFetch :=
  WebCrawler.GetResponse
    (WebCrawler.mkResponse 200 (Some "text/html")
       (inr (WebCrawler.mkHtml 9 "A" ["https://a.test/x"; "https://b.test/y"]))).

Definition sample_crawled : list WebCrawler.Event :=
  sample_fetching
  ++ [WebCrawler.EvFetch 0 (RobotsChecker.RobotsResponse 404 (inr ""))
        sample_page 7%Z].

(** * Properties *)

Import PyStr UrlParse.
Local Open Scope list_scope.

Lemma returned_state `{lib : Library} (r : Exc WebCrawler.System) :
  returned r = true -> r = inr (state_of r).
Proof. destruct r; [discriminate | reflexivity]. Qed.

(** ** The politeness gate *)

Section RobotsCheckerFacts.
Context `{lib : Library}.
Import RobotsChecker.

Lemma feed_raises (content : string) (rp : RobotFileParser) :
  exists e, feed content rp = (rp, inl e).
Proof. unfold feed, raise. eauto. Qed.

Lemma seq_feed_raises (s : Stmt) (content : string) (rp : RobotFileParser) :
  exists rp' e, seq s (feed content) rp = (rp', inl e).
Proof.
  unfold seq. destruct (s rp) as [rp' [e | u]]; eauto.
Qed.

(** Whatever the request meets, the inner [try] statement raises: its
    handler ends in a call of [feed]. *)
Lemma load_robots_raises (robots_url : string) (resp : RobotsFetch)
    (rp : RobotFileParser) :
  exists rp' e, load_robots robots_url resp rp = (rp', inl e).
Proof.
  unfold load_robots, try_except.
  set (body := match resp with RobotsRaised _ => _ | _ => _ end).
  assert (Hbody : exists rp' e, body rp = (rp', inl e)).
  { subst body. destruct resp as [e | status [e | content]].
    - unfold raise. eauto.
    - destruct (status =? 200)%Z.
      + unfold raise. eauto.
      + apply seq_feed_raises.
    - destruct (status =? 200)%Z; apply seq_feed_raises. }
  destruct Hbody as (rp' & e & ->).
  apply seq_feed_raises.
Qed.

(** The body of [can_fetch] never reaches line 64: the checker is
    returned as it was given. *)
Lemma can_fetch_body_checker (self : t) (url : string)
    (net : string -> RobotsFetch) :
  (can_fetch_body self url net).1.1 = self.
Proof.
  unfold can_fetch_body.
  destruct (urlparse url) as [e | parsed]; [reflexivity |].
  destruct (robots_cache self !! _) as [rp |] eqn:Hc.
  - simpl. rewrite Hc. reflexivity.
  - destruct (urljoin _ _) as [e | robots_url]; [reflexivity |].
    destruct (load_robots_raises robots_url (net robots_url)
                RobotFileParser_new) as (rp' & e & ->).
    reflexivity.
Qed.

Lemma can_fetch_checker (self : t) (url : string)
    (net : string -> RobotsFetch) :
  (can_fetch self url net).1.1 = self.
Proof.
  unfold can_fetch.
  pose proof (can_fetch_body_checker self url net) as Hb.
  destruct (can_fetch_body self url net) as [[self' requests] r].
  exact Hb.
Qed.

(** With nothing cached for the domain, the answer is [True]. *)
Lemma can_fetch_uncached (self : t) (url : string)
    (net : string -> RobotsFetch) :
  robots_cache self = ∅ -> (can_fetch self url net).2 = true.
Proof.
  intros Hempty. unfold can_fetch, can_fetch_body.
  destruct (urlparse url) as [e | parsed]; [reflexivity |].
  rewrite Hempty, lookup_empty.
  destruct (urljoin _ _) as [e | robots_url]; [reflexivity |].
  destruct (load_robots_raises robots_url (net robots_url)
              RobotFileParser_new) as (rp' & e & ->).
  reflexivity.
Qed.

End RobotsCheckerFacts.

(** C3 (the code departs from the claim).  For every library, URL and
    outcome of the request for robots.txt: [can_fetch] on a new checker
    answers [True] and returns the checker with its cache still empty,
    so the next call behaves like the first.  On the domain
    [http://a.test], whose robots.txt answers 404, the second call
    requests [http://a.test/robots.txt] again. *)
Theorem can_fetch_never_caches :
  (forall (lib : Library) (url : string)
          (net : string -> RobotsChecker.RobotsFetch),
      let '(self, _, answer) :=
        RobotsChecker.can_fetch RobotsChecker.new url net in
      answer = true /\ RobotsChecker.robots_cache self = ∅)
  /\ (let net := fun _ => RobotsChecker.RobotsResponse 404 (inr "") in
      let first :=
        RobotsChecker.can_fetch (lib := plain_library) RobotsChecker.new
          "http://a.test/page" net in
      let second :=
        RobotsChecker.can_fetch (lib := plain_library) first.1.1
          "http://a.test/other" net in
      first.1.2 = ["http://a.test/robots.txt"]
      /\ second.1.2 = ["http://a.test/robots.txt"]).
Proof.
  split.
  - intros lib url net.
    pose proof (can_fetch_checker RobotsChecker.new url net) as Hc.
    pose proof (can_fetch_uncached RobotsChecker.new url net eq_refl) as Ha.
    destruct (RobotsChecker.can_fetch RobotsChecker.new url net)
      as [[self requests] answer].
    simpl in Hc, Ha. subst. split; reflexivity.
  - vm_compute. split; reflexivity.
Qed.

(** ** The frontier, the fetcher and the worker loop *)

Section WebCrawlerFacts.
Context `{lib : Library}.
Import WebCrawler.

Implicit Types (cfg : CrawlerConfig) (self : t) (s : System).
Implicit Types (task : string * Z) (tasks : list (string * Z)).

(** [self'] is [self] with [tasks] put on the queue, in this order. *)
Record queued_more (tasks : list (string * Z)) (self self' : t) : Prop := {
  qm_visited : visited_urls self' = visited_urls self;
  qm_stats : stats self' = stats self;
  qm_checker : robots_checker self' = robots_checker self;
  qm_queued : queued_urls self' = list_to_set tasks.*1 ∪ queued_urls self;
  qm_items :
    Queue.items (url_queue self') = Queue.items (url_queue self) ++ tasks;
  qm_history :
    Queue.history (url_queue self') = Queue.history (url_queue self) ++ tasks
}.

Lemma queued_more_nil self : queued_more [] self self.
Proof.
  split; try reflexivity; simpl; try (symmetry; apply app_nil_r).
  set_solver.
Qed.

Lemma queued_more_app tasks1 tasks2 self1 self2 self3 :
  queued_more tasks1 self1 self2 -> queued_more tasks2 self2 self3 ->
  queued_more (tasks1 ++ tasks2) self1 self3.
Proof.
  intros [Hv1 Hs1 Hc1 Hq1 Hi1 Hh1] [Hv2 Hs2 Hc2 Hq2 Hi2 Hh2].
  split; try congruence.
  - rewrite Hq2, Hq1, fmap_app, list_to_set_app_L.
    generalize (list_to_set tasks1.*1 : gset string)
               (list_to_set tasks2.*1 : gset string) (queued_urls self1).
    clear. intros X1 X2 X3. set_solver.
  - rewrite app_assoc. congruence.
  - rewrite app_assoc. congruence.
Qed.

(** What [admit_link] requires of a link before it queues it. *)
Definition admissible cfg (base_domain : option string) (depth : Z) self
    task : Prop :=
(task.1 ∉ visited_urls self) /\ (task.1 ∉ queued_urls self)
  /\ is_valid_url cfg task.1 base_domain = true
  /\ task.2 = (depth + 1)%Z.

Lemma admit_link_spec cfg base_domain depth self link :
  exists tasks,
    queued_more tasks self (admit_link cfg base_domain depth self link)
    /\ (tasks = []
        \/ tasks = [(link, (depth + 1)%Z)]
           /\ admissible cfg base_domain depth self (link, (depth + 1)%Z)).
Proof.
  unfold admit_link.
  destruct (bool_decide (link ∈ visited_urls self)) eqn:Hv; simpl;
    [exists []; split; [apply queued_more_nil | left; reflexivity] |].
  destruct (bool_decide (link ∈ queued_urls self)) eqn:Hq; simpl;
    [exists []; split; [apply queued_more_nil | left; reflexivity] |].
  destruct (is_valid_url cfg link base_domain) eqn:Hvalid;
    [| exists []; split; [apply queued_more_nil | left; reflexivity]].
  exists [(link, (depth + 1)%Z)]. split.
  - split; try reflexivity. simpl. set_solver.
  - right. split; [reflexivity |].
    apply bool_decide_eq_false in Hv, Hq. repeat split; assumption.
Qed.

(** The loop over [links] queues tasks that were admissible when the
    loop started, no URL twice. *)
Lemma admit_links_spec cfg base_domain depth links self :
  exists tasks,
    queued_more tasks self (admit_links cfg base_domain depth links self)
    /\ Forall (admissible cfg base_domain depth self) tasks
    /\ NoDup tasks.*1.
Proof.
  unfold admit_links. revert self.
  induction links as [| link links IH]; intros self; simpl.
  - exists []. split; [apply queued_more_nil |].
    split; [constructor | constructor].
  - destruct (admit_link_spec cfg base_domain depth self link)
      as (tasks1 & Hq1 & Hcase).
    destruct (IH (admit_link cfg base_domain depth self link))
      as (tasks2 & Hq2 & Hadm2 & Hnd2).
    exists (tasks1 ++ tasks2).
    split; [eapply queued_more_app; eassumption |].
    assert (Hweak : Forall (admissible cfg base_domain depth self) tasks2
                    /\ forall task, task ∈ tasks2 -> task.1 ∉ tasks1.*1).
    { destruct Hq1 as [Hv1 _ _ Hqd1 _ _].
      split.
      - eapply Forall_impl; [exact Hadm2 |].
        intros task (Hv & Hq & Hvalid & Hd). unfold admissible.
        rewrite Hv1 in Hv. rewrite Hqd1 in Hq. set_solver.
      - intros task Hin.
        rewrite Forall_forall in Hadm2.
        destruct (Hadm2 task Hin) as (_ & Hq & _).
        rewrite Hqd1 in Hq. set_solver. }
    destruct Hweak as [Hadm2' Hfresh].
    destruct Hcase as [-> | [-> Hadm1]]; simpl.
    + split; assumption.
    + split; [constructor; assumption |].
      constructor; [| assumption].
      intros Hin. apply list_elem_of_fmap in Hin as (task & Heq & Hin).
      apply (Hfresh task Hin). simpl. rewrite <- Heq. set_solver.
Qed.

(** What [fetch_url] puts on the queue: nothing, or, below the depth
    limit, links that are admissible against the host of the page. *)
Definition page_links cfg (url : string) (depth : Z) self tasks : Prop :=
  tasks = []
  \/ (depth < max_depth cfg)%Z
     /\ exists base_domain,
         base_domain_of cfg url = inr base_domain
         /\ Forall (admissible cfg base_domain depth self) tasks
         /\ NoDup tasks.*1.

Lemma fetch_page_spec cfg self url depth page now :
  exists tasks,
    queued_more tasks self (fetch_page cfg self url depth page now).1
    /\ page_links cfg url depth self tasks.
Proof.
  unfold fetch_page, page_links.
  destruct page as [e | response]; simpl;
    [exists []; split; [apply queued_more_nil | left; reflexivity] |].
  destruct (contains _ _); simpl;
    [| exists []; split; [apply queued_more_nil | left; reflexivity]].
  destruct (text response) as [e | html]; simpl;
    [exists []; split; [apply queued_more_nil | left; reflexivity] |].
  destruct (depth <? max_depth cfg)%Z eqn:Hdepth; simpl;
    [| exists []; split; [apply queued_more_nil | left; reflexivity]].
  destruct (base_domain_of cfg url) as [e | base_domain] eqn:Hbase; simpl;
    [exists []; split; [apply queued_more_nil | left; reflexivity] |].
  destruct (admit_links_spec cfg base_domain depth (html_links html) self)
    as (tasks & Hq & Hadm & Hnd).
  exists tasks. split; [exact Hq |].
  right. split; [lia |]. exists base_domain. auto.
Qed.

Lemma set_robots_checker_id self :
  set_robots_checker (robots_checker self) self = self.
Proof. destruct self. reflexivity. Qed.

(** [fetch_url] leaves the checker as it is and goes on with the
    answer of [can_fetch]. *)
Lemma fetch_url_gate cfg self url depth robots page now :
  fetch_url cfg self url depth robots page now
  = fetch_url_gated cfg self url depth
      (RobotsChecker.can_fetch (robots_checker self) url (fun _ => robots)).2
      page now.
Proof.
  unfold fetch_url.
  pose proof (can_fetch_checker (robots_checker self) url (fun _ => robots))
    as Hc.
  destruct (RobotsChecker.can_fetch _ _ _) as [[checker requests] allowed].
  simpl in *. subst checker. rewrite set_robots_checker_id. reflexivity.
Qed.

(** In a crawler whose robots cache is empty every URL is allowed. *)
Lemma fetch_url_allowed cfg self url depth robots page now :
  RobotsChecker.robots_cache (robots_checker self) = ∅ ->
  fetch_url cfg self url depth robots page now
  = fetch_url_gated cfg self url depth true page now.
Proof.
  intros Hempty. rewrite fetch_url_gate.
  rewrite (can_fetch_uncached _ _ _ Hempty). reflexivity.
Qed.

Lemma fetch_url_gated_allowed_spec cfg self url depth page now :
  exists tasks self' result,
    fetch_url_gated cfg self url depth true page now = (self', Some result)
    /\ queued_more tasks self self'
    /\ page_links cfg url depth self tasks.
Proof.
  unfold fetch_url_gated. simpl.
  destruct (fetch_page_spec cfg self url depth page now)
    as (tasks & Hq & Hlinks).
  destruct (fetch_page cfg self url depth page now) as [self' [e | result]];
    simpl in Hq; eauto 8.
Qed.

Lemma worker_count_spec cfg self result :
  let self' := (worker_count cfg self result).1 in
  visited_urls self' = visited_urls self
  /\ queued_urls self' = queued_urls self
  /\ url_queue self' = url_queue self
  /\ robots_checker self' = robots_checker self
  /\ total_crawled (stats self') = (total_crawled (stats self) + 1)%Z
  /\ robots_blocked (stats self') = robots_blocked (stats self)
  /\ (if (status_code result =? 200)%Z
      then successful (stats self') = (successful (stats self) + 1)%Z
           /\ failed (stats self') = failed (stats self)
      else successful (stats self') = successful (stats self)
           /\ failed (stats self') = (failed (stats self) + 1)%Z).
Proof.
  unfold worker_count.
  destruct (status_code result =? 200)%Z; simpl;
    destruct (_ && _); simpl; repeat split; reflexivity.
Qed.

(** The loop is left after a count exactly when the page budget is
    positive and reached. *)
Lemma worker_count_ctl cfg self result :
  (worker_count cfg self result).2 = Break
  <-> (0 < max_pages cfg)%Z
      /\ (max_pages cfg
          <= total_crawled (stats (worker_count cfg self result).1))%Z.
Proof.
  unfold worker_count.
  destruct (status_code result =? 200)%Z; simpl;
    match goal with
    | |- context [(?a <? ?b)%Z && (?c <=? ?d)%Z] =>
        destruct (Z.ltb_spec a b); destruct (Z.leb_spec c d); simpl
    end;
    (split; [intros Hb; try discriminate; split; lia
            | intros [? ?]; try reflexivity; lia]).
Qed.

(** [store_page] returns, whatever the driver does. *)
Lemma store_page_returns (driver : Exc unit) :
  DatabaseManager.store_page driver = ret tt.
Proof. destruct driver; reflexivity. Qed.

Lemma lookup_insert_worker (l : list Worker) (w w' : nat) (pc pc' : Worker) :
  <[w := pc']> l !! w' = Some pc -> pc = pc' \/ l !! w' = Some pc.
Proof.
  intros Hl. apply list_lookup_insert_Some in Hl.
  destruct Hl as [(_ & <- & _) | (_ & Hl)]; auto.
Qed.

(** *** An invariant of the run *)

(** The task that a worker holds. *)
Definition holds_task (pc : Worker) task : Prop :=
  pc = Dequeued task.1 task.2 \/ pc = InFetch task.1 task.2.

Section Invariant.
Variable cfg : CrawlerConfig.

(** A property of tasks that passes from a page to the links admitted
    from it. *)
Variable P : string * Z -> Prop.
Hypothesis P_admit :
  forall (u : string) (d : Z) (base_domain : option string) (link : string),
    P (u, d) -> (d < max_depth cfg)%Z ->
    base_domain_of cfg u = inr base_domain ->
    is_valid_url cfg link base_domain = true ->
    P (link, (d + 1)%Z).

Record Inv s : Prop := {
  inv_cache :
    RobotsChecker.robots_cache (robots_checker (crawler s)) = ∅;
  inv_stats :
    total_crawled (stats (crawler s))
    = (successful (stats (crawler s)) + failed (stats (crawler s)))%Z;
  inv_items :
    forall task, task ∈ Queue.items (url_queue (crawler s)) ->
                 task ∈ Queue.history (url_queue (crawler s));
  inv_workers :
    forall w pc task, workers s !! w = Some pc -> holds_task pc task ->
                      task ∈ Queue.history (url_queue (crawler s));
  inv_queued :
    forall task, task ∈ Queue.history (url_queue (crawler s)) ->
                 task.1 ∈ queued_urls (crawler s);
  inv_P : Forall P (Queue.history (url_queue (crawler s)))
}.

Lemma page_links_P self url depth tasks :
  P (url, depth) -> page_links cfg url depth self tasks -> Forall P tasks.
Proof.
  intros HP [-> | (Hdepth & base_domain & Hbase & Hadm & _)];
    [constructor |].
  eapply Forall_impl; [exact Hadm |].
  intros [link d] (_ & _ & Hvalid & Hd). simpl in *. subst d.
  eapply P_admit; eassumption.
Qed.

Lemma step_inv s ev : Inv s -> Inv (step cfg s ev).
Proof.
  intros HI. pose proof HI as [Hcache Hstats Hitems Hworkers Hqueued HP].
  destruct ev as [w | w | w | w robots page now | w driver]; simpl.
  - (* EvGet *)
    destruct (workers s !! w) as [[| | | |] |] eqn:Hw;
      try exact HI.
    unfold Queue.get.
    destruct (Queue.items (url_queue (crawler s))) as [| [url depth] rest]
      eqn:Hit; [exact HI |].
    split; simpl; try solve [apply HI].
    + intros task Hin. apply Hitems. set_solver.
    + intros w' pc task Hl Hh.
      apply lookup_insert_worker in Hl as [-> | Hl]; [| eauto].
      destruct task as [u d].
      destruct Hh as [Hh | Hh]; simpl in Hh; [| discriminate].
      injection Hh as <- <-. apply Hitems. set_solver.
  - (* EvGetTimeout *)
    destruct (workers s !! w) as [[| | | |] |] eqn:Hw;
      try exact HI.
    destruct (Queue.items (url_queue (crawler s))); [| exact HI].
    split; simpl; try solve [apply HI].
    intros w' pc task Hl Hh.
    apply lookup_insert_worker in Hl as [-> | Hl]; [| eauto].
    destruct Hh as [Hh | Hh]; discriminate.
  - (* EvResume *)
    destruct (workers s !! w) as [[| url depth | | |] |] eqn:Hw;
      try exact HI.
    unfold worker_resume.
    destruct (bool_decide (url ∈ visited_urls (crawler s)));
      split; simpl; try solve [apply HI].
    + intros w' pc task Hl Hh.
      apply lookup_insert_worker in Hl as [-> | Hl]; [| eauto].
      destruct Hh as [Hh | Hh]; discriminate.
    + intros w' pc task Hl Hh.
      apply lookup_insert_worker in Hl as [-> | Hl]; [| eauto].
      destruct task as [u d].
      destruct Hh as [Hh | Hh]; simpl in Hh; [discriminate |].
      injection Hh as <- <-.
      apply (Hworkers w (Dequeued url depth)); [assumption |].
      left. reflexivity.
  - (* EvFetch *)
    destruct (workers s !! w) as [[| | url depth | |] |] eqn:Hw;
      try exact HI.
    rewrite (fetch_url_allowed _ _ _ _ _ _ _ Hcache).
    destruct (fetch_url_gated_allowed_spec cfg (crawler s) url depth page now)
      as (tasks & self' & result & -> & Hq & Hlinks).
    assert (HPu : P (url, depth)).
    { rewrite Forall_forall in HP. apply HP.
      apply (Hworkers w (InFetch url depth)); [assumption |].
      right. reflexivity. }
    pose proof (page_links_P _ _ _ _ HPu Hlinks) as HPtasks.
    destruct Hq as [Hv Hst Hch Hqd Hit Hhist].
    split; simpl.
    + rewrite Hch. assumption.
    + rewrite Hst. assumption.
    + intros task. rewrite Hit, Hhist. set_solver.
    + intros w' pc task Hl Hh.
      apply lookup_insert_worker in Hl as [-> | Hl];
        [destruct Hh as [Hh | Hh]; discriminate |].
      rewrite Hhist. apply elem_of_app. left. eauto.
    + intros task. rewrite Hhist, Hqd.
      intros [Hin | Hin]%elem_of_app; [set_solver |].
      apply elem_of_union_l, elem_of_list_to_set.
      apply list_elem_of_fmap. eauto.
    + rewrite Hhist. apply Forall_app. split; assumption.
  - (* EvStore *)
    destruct (workers s !! w) as [[| | | result |] |] eqn:Hw;
      try exact HI.
    unfold worker_finish. rewrite store_page_returns. simpl.
    pose proof (worker_count_spec cfg (crawler s) result) as Hc.
    destruct (worker_count cfg (crawler s) result) as [self' ctl].
    simpl in Hc.
    destruct Hc as (Hv & Hqd & Hq & Hch & Htot & Hbl & Hsf).
    split; simpl.
    + rewrite Hch. assumption.
    + destruct (status_code result =? 200)%Z; lia.
    + rewrite Hq. assumption.
    + rewrite Hq. intros w' pc task Hl Hh.
      apply lookup_insert_worker in Hl as [-> | Hl]; [| eauto].
      destruct ctl; destruct Hh as [Hh | Hh]; discriminate.
    + rewrite Hq, Hqd. assumption.
    + rewrite Hq. assumption.
Qed.

Lemma steps_inv s events : Inv s -> Inv (fold_left (step cfg) events s).
Proof.
  revert s. induction events as [| ev events IH]; intros s HI; simpl;
    [assumption |].
  apply IH, step_inv, HI.
Qed.

End Invariant.

(** *** The seeds *)

(** A task that [crawl] queues for one of the seeds. *)
Definition seed_task cfg (seed_urls : list string) task : Prop :=
  task.2 = 0%Z
  /\ is_valid_url cfg task.1 None = true
  /\ exists seed, seed ∈ seed_urls /\ normalize_url seed = inr task.1.

Lemma admit_seeds_spec cfg seed_urls self self' :
  admit_seeds cfg self seed_urls = inr self' ->
  exists tasks,
    queued_more tasks self self' /\ Forall (seed_task cfg seed_urls) tasks.
Proof.
  revert self. induction seed_urls as [| seed seeds IH]; intros self; simpl.
  - intros [= <-]. exists []. split; [apply queued_more_nil | constructor].
  - unfold admit_seed at 1.
    destruct (normalize_url seed) as [e | n] eqn:Hn; simpl; [discriminate |].
    destruct (is_valid_url cfg n None) eqn:Hvalid; simpl; intros Hrest.
    + apply IH in Hrest as (tasks & Hq & Hseeds).
      exists ((n, 0%Z) :: tasks). split.
      * change ((n, 0%Z) :: tasks) with ([(n, 0%Z)] ++ tasks).
        eapply queued_more_app; [| exact Hq].
        split; try reflexivity. simpl. set_solver.
      * constructor.
        -- repeat split; try assumption. exists seed. split; [set_solver | done].
        -- eapply Forall_impl; [exact Hseeds |].
           intros task (? & ? & seed' & ? & ?). repeat split; try assumption.
           exists seed'. split; [set_solver | done].
    + apply IH in Hrest as (tasks & Hq & Hseeds).
      exists tasks. split; [exact Hq |].
      eapply Forall_impl; [exact Hseeds |].
      intros task (? & ? & seed' & ? & ?). repeat split; try assumption.
      exists seed'. split; [set_solver | done].
Qed.

(** What [crawl] hands to the event loop. *)
Lemma crawl_spec cfg now seed_urls s :
  crawl cfg now seed_urls = inr s ->
  exists tasks,
    queued_more tasks (new now) (crawler s)
    /\ Forall (seed_task cfg seed_urls) tasks
    /\ workers s = replicate (Z.to_nat (max_workers cfg)) AtGet.
Proof.
  unfold crawl.
  destruct (admit_seeds cfg (new now) seed_urls) as [e | self] eqn:Hseeds;
    simpl; [discriminate |].
  intros [= <-]. apply admit_seeds_spec in Hseeds as (tasks & Hq & Hs).
  exists tasks. auto.
Qed.

(** Every state of a run satisfies the invariant, for a property that
    the seed tasks have. *)
Lemma run_inv cfg (P : string * Z -> Prop) now seed_urls events s :
  (forall u d base_domain link,
      P (u, d) -> (d < max_depth cfg)%Z ->
      base_domain_of cfg u = inr base_domain ->
      is_valid_url cfg link base_domain = true ->
      P (link, (d + 1)%Z)) ->
  (forall task, seed_task cfg seed_urls task -> P task) ->
  run cfg now seed_urls events = inr s ->
  Inv P s.
Proof.
  intros Hadmit Hseed. unfold run.
  destruct (crawl cfg now seed_urls) as [e | s0] eqn:Hcrawl; simpl;
    [discriminate |].
  intros [= <-]. apply (steps_inv cfg); [exact Hadmit |].
  apply crawl_spec in Hcrawl as (tasks & Hq & Hs & Hw).
  destruct Hq as [Hv Hst Hch Hqd Hit Hhist]. simpl in *.
  split.
  - rewrite Hch. reflexivity.
  - rewrite Hst. reflexivity.
  - intros task. rewrite Hit, Hhist. auto.
  - intros w pc task Hl Hh. rewrite Hw in Hl.
    apply lookup_replicate in Hl as [-> _].
    destruct Hh as [Hh | Hh]; discriminate.
  - intros task. rewrite Hhist, Hqd. simpl. intros Hin.
    apply elem_of_union_l, elem_of_list_to_set, list_elem_of_fmap. eauto.
  - rewrite Hhist. simpl. eapply Forall_impl; [exact Hs | exact Hseed].
Qed.

End WebCrawlerFacts.

(** ** The claims about the crawl *)

Import WebCrawler.

(** A property that every task has. *)
Definition any_task (task : string * Z) : Prop := True.

(** C10.  In every state of every run the counter [total_crawled] is
    the sum of [successful] and [failed].  A worker that has stored
    its record counts it: the event adds one to [total_crawled] and
    one to [successful] when the status code of the record is 200, to
    [failed] otherwise, and leaves [robots_blocked].  When the gate does
    not allow the URL, [fetch_url] adds one to [robots_blocked], leaves
    the three other counters and returns [None], and the worker goes
    back to the queue and counts nothing. *)
Theorem stats_counters_consistent :
  (forall (lib : Library) (cfg : CrawlerConfig) (now : Z)
          (seed_urls : list string) (events : list Event) (s : System),
      run cfg now seed_urls events = inr s ->
      total_crawled (stats (crawler s))
      = (successful (stats (crawler s)) + failed (stats (crawler s)))%Z)
  /\ (forall (lib : Library) (cfg : CrawlerConfig) (self : t)
             (result : CrawlResult),
         let st := stats self in
         let st' := stats (worker_count cfg self result).1 in
         total_crawled st' = (total_crawled st + 1)%Z
         /\ robots_blocked st' = robots_blocked st
         /\ successful st'
            = (successful st + if (status_code result =? 200)%Z then 1 else 0)%Z
         /\ failed st'
            = (failed st + if (status_code result =? 200)%Z then 0 else 1)%Z)
  /\ (forall (lib : Library) (cfg : CrawlerConfig) (self : t) (url : string)
             (depth : Z) (page : PageFetch) (now : Z) (stored : Exc unit),
         let '(self', result) :=
           fetch_url_gated cfg self url depth false page now in
         result = None
         /\ robots_blocked (stats self') = (robots_blocked (stats self) + 1)%Z
         /\ total_crawled (stats self') = total_crawled (stats self)
         /\ successful (stats self') = successful (stats self)
         /\ failed (stats self') = failed (stats self)
         /\ worker_finish cfg self' result stored = (self', ret Continue))
  /\ (forall (lib : Library) (cfg : CrawlerConfig) (s : System) (w : nat)
             (driver : Exc unit) (result : CrawlResult),
         workers s !! w = Some (InStore result) ->
         let st := stats (crawler s) in
         let st' := stats (crawler (step cfg s (EvStore w driver))) in
         total_crawled st' = (total_crawled st + 1)%Z
         /\ robots_blocked st' = robots_blocked st
         /\ successful st'
            = (successful st + if (status_code result =? 200)%Z then 1 else 0)%Z
         /\ failed st'
            = (failed st + if (status_code result =? 200)%Z then 0 else 1)%Z)
  /\ (forall (lib : Library) (cfg : CrawlerConfig) (s : System) (w : nat)
             (url : string) (depth : Z) (robots : RobotsChecker.RobotsFetch)
             (page : PageFetch) (now : Z),
         workers s !! w = Some (InFetch url depth) ->
         (RobotsChecker.can_fetch (robots_checker (crawler s)) url
            (fun _ => robots)).2 = false ->
         let st := stats (crawler s) in
         let s' := step cfg s (EvFetch w robots page now) in
         let st' := stats (crawler s') in
         robots_blocked st' = (robots_blocked st + 1)%Z
         /\ total_crawled st' = total_crawled st
         /\ successful st' = successful st
         /\ failed st' = failed st
         /\ workers s' !! w = Some AtGet).
Proof.
  split; [| split; [| split; [| split]]].
  - intros lib cfg now seed_urls events s Hrun.
    apply (run_inv cfg any_task) in Hrun; [apply Hrun | |];
      unfold any_task; auto.
  - intros lib cfg self result st st'. subst st st'.
    destruct (worker_count_spec cfg self result)
      as (_ & _ & _ & _ & Htot & Hbl & Hsf).
    destruct (status_code result =? 200)%Z; lia.
  - intros lib cfg self url depth page now stored.
    unfold fetch_url_gated. simpl. repeat split; reflexivity.
  - intros lib cfg s w driver result Hw st st'. subst st st'.
    cbn [step]. rewrite Hw. unfold worker_finish.
    rewrite store_page_returns. cbn [ret].
    pose proof (worker_count_spec cfg (crawler s) result) as Hc.
    destruct (worker_count cfg (crawler s) result) as [self' ctl].
    cbn [fst] in Hc. cbn zeta in Hc. cbn [crawler].
    destruct Hc as (_ & _ & _ & _ & Htot & Hbl & Hsf).
    destruct (status_code result =? 200)%Z; lia.
  - intros lib cfg s w url depth robots page now Hw Hgate st s' st'.
    subst st s' st'. cbn [step]. rewrite Hw, fetch_url_gate, Hgate.
    unfold fetch_url_gated. cbn [negb worker_finish ret worker_except
                                  after_turn crawler workers].
    repeat split; try reflexivity.
    apply list_lookup_insert_eq. eapply lookup_lt_Some. exact Hw.
Qed.

(** A crawler whose robots cache holds a parser for [https://a.test],
    and a worker that awaits [fetch_url] for a URL of that site. *)
Definition sample_gated : System :=
  mkSystem
    (set_robots_checker
       (RobotsChecker.mk (lib := plain_library) {[ "https://a.test" := "" ]}
          "NautalisBot/1.0")
       (new (lib := plain_library) 0%Z))
    [InFetch "https://a.test/" 0%Z].

(** C10 on a crawl whose one request times out and is counted as
    failed, on a record with status code 200, and on a URL that the
    gate refuses. *)
Lemma stats_counters_consistent_witness :
  (let s :=
     state_of (run (lib := plain_library) sample_config 0%Z
                 ["https://a.test/"] (sample_timeout ++ [EvStore 0 (inr tt)])) in
   stats (crawler s) = mkStats 1 0 1 0 0
   /\ total_crawled (stats (crawler s))
      = (successful (stats (crawler s)) + failed (stats (crawler s)))%Z)
  /\ (let s :=
        mkSystem (new (lib := plain_library) 0%Z)
          [InStore (mkResult "https://a.test/" 200 "A" 9 [] 7%Z None)] in
      let st' :=
        stats (crawler (step (lib := plain_library) sample_config s
                          (EvStore 0 (inr tt)))) in
      total_crawled st' = 1%Z /\ robots_blocked st' = 0%Z
      /\ successful st' = 1%Z /\ failed st' = 0%Z)
  /\ (let s' :=
        step (lib := plain_library) sample_config sample_gated
          (EvFetch 0 (RobotsChecker.RobotsRaised TimeoutError) sample_page
             7%Z) in
      robots_blocked (stats (crawler s')) = 1%Z
      /\ total_crawled (stats (crawler s')) = 0%Z
      /\ successful (stats (crawler s')) = 0%Z
      /\ failed (stats (crawler s')) = 0%Z
      /\ workers s' !! 0%nat = Some AtGet).
Proof.
  destruct stats_counters_consistent as (Hsum & _ & _ & Hstore & Hgate).
  split; [| split].
  - cbv zeta. split; [vm_compute; reflexivity |].
    apply (Hsum plain_library sample_config 0%Z ["https://a.test/"]
             (sample_timeout ++ [EvStore 0 (inr tt)])).
    apply returned_state. vm_compute. reflexivity.
  - exact (Hstore plain_library sample_config
             (mkSystem (new (lib := plain_library) 0%Z)
                [InStore (mkResult "https://a.test/" 200 "A" 9 [] 7%Z None)])
             0%nat (inr tt)
             (mkResult "https://a.test/" 200 "A" 9 [] 7%Z None) eq_refl).
  - apply (Hgate plain_library sample_config sample_gated 0%nat
             "https://a.test/" 0%Z (RobotsChecker.RobotsRaised TimeoutError)
             sample_page 7%Z).
    + reflexivity.
    + vm_compute. reflexivity.
Defined.

(** C2, amended.  When [max_depth] is not negative, every task ever
    put on the queue has a depth between 0 and [max_depth]. *)
Theorem queued_depth_bounded :
  forall (lib : Library) (cfg : CrawlerConfig) (now : Z)
         (seed_urls : list string) (events : list Event) (s : System)
         (task : string * Z),
    (0 <= max_depth cfg)%Z ->
    run cfg now seed_urls events = inr s ->
    task ∈ Queue.history (url_queue (crawler s)) ->
    (0 <= task.2 <= max_depth cfg)%Z.
Proof.
  intros lib cfg now seed_urls events s task Hmax Hrun Hin.
  apply (run_inv cfg (fun task => (0 <= task.2 <= max_depth cfg)%Z)) in Hrun.
  - destruct Hrun as [_ _ _ _ _ HP].
    rewrite Forall_forall in HP. exact (HP task Hin).
  - simpl. intros. lia.
  - intros task' (Hd & _). rewrite Hd. lia.
Qed.

(** The amended C2 on the link queued by the crawl of a page. *)
Lemma queued_depth_bounded_witness :
  (0 <= ("https://a.test/x", 1%Z).2 <= max_depth sample_config)%Z.
Proof.
  apply (queued_depth_bounded plain_library sample_config 0%Z
           ["https://a.test/"] sample_crawled
           (state_of (run (lib := plain_library) sample_config 0%Z
                        ["https://a.test/"] sample_crawled))).
  - vm_compute. discriminate.
  - apply returned_state. vm_compute. reflexivity.
  - vm_compute. right. left.
Defined.

(** C2 as stated fails when [max_depth] is negative: with
    [max_depth = -1] the seed is queued at depth 0. *)
Lemma queued_depth_exceeds_negative_max_depth :
  let cfg := mkConfig (-1) 1000 1 true in
  exists s task,
    run (lib := plain_library) cfg 0%Z ["http://a.test/"] [] = inr s
    /\ task ∈ Queue.history (url_queue (crawler s))
    /\ (max_depth cfg < task.2)%Z.
Proof.
  intros cfg.
  exists (state_of (run (lib := plain_library) cfg 0%Z ["http://a.test/"] [])).
  exists ("http://a.test/", 0%Z).
  split; [apply returned_state; vm_compute; reflexivity |].
  split; [vm_compute; left | vm_compute; reflexivity].
Qed.

(** What [is_valid_url] has checked when it returns [True]: the URL
    parses, its netloc is not empty, and under domain scoping the
    netloc is the base domain, letter case apart. *)
Lemma is_valid_url_netloc `{lib : Library} (cfg : CrawlerConfig)
    (url : string) (base_domain : option string) :
  is_valid_url cfg url base_domain = true ->
  exists parsed,
    urlparse url = inr parsed
    /\ truthy (netloc parsed) = true
    /\ forall base,
         base_domain = Some base -> truthy base = true ->
         stay_in_domain cfg = true ->
         lower (netloc parsed) = lower base.
Proof.
  unfold is_valid_url.
  destruct (urlparse url) as [e | parsed]; [discriminate |].
  destruct (truthy (scheme parsed)); cbn [negb orb]; [| discriminate].
  destruct (truthy (netloc parsed)) eqn:Hnetloc; cbn [negb orb];
    [| discriminate].
  destruct (in_list (scheme parsed) ["http"; "https"]); cbn [negb];
    [| discriminate].
  intros Hvalid. exists parsed. split; [reflexivity |].
  split; [exact Hnetloc |].
  intros base -> Hbase Hstay. rewrite Hbase, Hstay in Hvalid.
  cbn [andb] in Hvalid.
  destruct (String.eqb_spec (lower (netloc parsed)) (lower base));
    [assumption | cbn [negb] in Hvalid; discriminate].
Qed.

(** The host of [url] is the host of one of the seeds, as [crawl]
    queued it, letter case apart.  A host is the [netloc] of
    [urlparse]. *)
Definition host_of_a_seed `{lib : Library} (seed_urls : list string)
    (url : string) : Prop :=
  exists seed normalized parsed_seed parsed,
    seed ∈ seed_urls
    /\ normalize_url seed = inr normalized
    /\ urlparse normalized = inr parsed_seed
    /\ urlparse url = inr parsed
    /\ truthy (netloc parsed) = true
    /\ lower (netloc parsed) = lower (netloc parsed_seed).

(** C4.  Under domain scoping, every task ever put on the queue has
    the host of a seed, which for a single seed is the host of that
    seed; and the links that [fetch_url] queues from a page all have
    the host of that page. *)
Theorem queued_hosts_stay_in_domain :
  forall (lib : Library) (cfg : CrawlerConfig),
    stay_in_domain cfg = true ->
    (forall (now : Z) (seed_urls : list string) (events : list Event)
            (s : System) (task : string * Z),
        run cfg now seed_urls events = inr s ->
        task ∈ Queue.history (url_queue (crawler s)) ->
        host_of_a_seed seed_urls task.1)
    /\ (forall (self : t) (url : string) (depth : Z) (page : PageFetch)
               (now : Z) (parsed : ParseResult) (task : string * Z),
           urlparse url = inr parsed ->
           truthy (netloc parsed) = true ->
           task ∈ Queue.history
                    (url_queue (fetch_page cfg self url depth page now).1) ->
           task ∈ Queue.history (url_queue self)
           \/ exists parsed_link,
               urlparse task.1 = inr parsed_link
               /\ lower (netloc parsed_link) = lower (netloc parsed)).
Proof.
  intros lib cfg Hstay. split.
  - intros now seed_urls events s task Hrun Hin.
    apply (run_inv cfg (fun task => host_of_a_seed seed_urls task.1)) in Hrun.
    + destruct Hrun as [_ _ _ _ _ HP].
      rewrite Forall_forall in HP. exact (HP task Hin).
    + simpl. intros u d base_domain link Hu _ Hbase Hvalid.
      destruct Hu as (seed & n & pn & pu & Hseed & Hn & Hpn & Hpu & Ht & Hl).
      unfold base_domain_of in Hbase. rewrite Hstay, Hpu in Hbase.
      simpl in Hbase. injection Hbase as <-.
      apply is_valid_url_netloc in Hvalid as (pl & Hpl & Htl & Hsame).
      exists seed, n, pn, pl. repeat split; try assumption.
      rewrite (Hsame _ eq_refl Ht Hstay). exact Hl.
    + intros [u d] (Hd & Hvalid & seed & Hseed & Hn). simpl in *.
      apply is_valid_url_netloc in Hvalid as (pu & Hpu & Htu & _).
      exists seed, u, pu, pu. repeat split; assumption.
  - intros self url depth page now parsed task Hparsed Htruthy Hin.
    destruct (fetch_page_spec cfg self url depth page now)
      as (tasks & Hq & Hlinks).
    destruct Hq as [_ _ _ _ _ Hhist]. rewrite Hhist in Hin.
    apply elem_of_app in Hin as [Hin | Hin]; [left; exact Hin | right].
    destruct Hlinks as [-> | (_ & base_domain & Hbase & Hadm & _)];
      [inversion Hin |].
    unfold base_domain_of in Hbase. rewrite Hstay, Hparsed in Hbase.
    simpl in Hbase. injection Hbase as <-.
    rewrite Forall_forall in Hadm.
    destruct (Hadm task Hin) as (_ & _ & Hvalid & _).
    apply is_valid_url_netloc in Hvalid as (pl & Hpl & _ & Hsame).
    exists pl. split; [exact Hpl |]. exact (Hsame _ eq_refl Htruthy Hstay).
Qed.

(** C4 on the crawl of [https://a.test/] whose page links to
    [https://a.test/x] and [https://b.test/y]: the first link is the
    one queued, and it has the host of the seed. *)
Lemma queued_hosts_stay_in_domain_witness :
  Queue.history
    (url_queue
       (crawler (state_of (run (lib := plain_library) sample_config 0%Z
                             ["https://a.test/"] sample_crawled))))
  = [("https://a.test/", 0%Z); ("https://a.test/x", 1%Z)]
  /\ host_of_a_seed (lib := plain_library) ["https://a.test/"]
       ("https://a.test/x", 1%Z).1.
Proof.
  split; [vm_compute; reflexivity |].
  apply (proj1 (queued_hosts_stay_in_domain plain_library sample_config
                  eq_refl)
           0%Z ["https://a.test/"] sample_crawled
           (state_of (run (lib := plain_library) sample_config 0%Z
                        ["https://a.test/"] sample_crawled))).
  - apply returned_state. vm_compute. reflexivity.
  - vm_compute. right. left.
Defined.

(** The exception that the request for a page raises inside
    [fetch_url]: in [session.get], or in [response.text()], which is
    awaited for an HTML response only. *)
Definition request_raises (page : PageFetch) : option exn :=
  match page with
  | GetRaised e => Some e
  | GetResponse response =>
      if contains "text/html" (lower (default "" (content_type response)))
      then match text response with
           | inl e => Some e
           | inr _ => None
           end
      else None
  end.

Lemma fetch_page_raises `{lib : Library} (cfg : CrawlerConfig) (self : t)
    (url : string) (depth : Z) (page : PageFetch) (now : Z) (e : exn) :
  request_raises page = Some e ->
  fetch_page cfg self url depth page now = (self, inl e).
Proof.
  unfold request_raises, fetch_page.
  destruct page as [e' | response]; [intros [= ->]; reflexivity |].
  destruct (contains _ _); cbn [negb]; [| discriminate].
  destruct (text response) as [e' | html]; [| discriminate].
  intros [= ->]. reflexivity.
Qed.

(** C5.  In every run, when the request of a worker's [fetch_url]
    times out, [fetch_url] changes nothing in the crawler and returns
    a record with status code 0 and error ["Timeout"]; any other
    exception gives status code 0 and the message of the exception.
    When the worker then counts the record, [successful] keeps its
    value and [failed] grows by exactly 1. *)
Theorem fetch_timeout_counts_as_failed :
  forall (lib : Library) (cfg : CrawlerConfig) (now : Z)
         (seed_urls : list string) (events : list Event) (s : System)
         (w : nat) (url : string) (depth : Z)
         (robots : RobotsChecker.RobotsFetch) (page : PageFetch) (clock : Z)
         (e : exn),
    run cfg now seed_urls events = inr s ->
    workers s !! w = Some (InFetch url depth) ->
    request_raises page = Some e ->
    let result :=
      mkResult url 0 "" 0 [] clock
        (Some (match e with
               | TimeoutError => "Timeout"
               | _ => exn_message e
               end)) in
    step cfg s (EvFetch w robots page clock)
    = mkSystem (crawler s) (<[w := InStore result]> (workers s))
    /\ forall (s2 : System) (driver : Exc unit),
         workers s2 !! w = Some (InStore result) ->
         let st := stats (crawler s2) in
         let st' := stats (crawler (step cfg s2 (EvStore w driver))) in
         successful st' = successful st
         /\ failed st' = (failed st + 1)%Z
         /\ total_crawled st' = (total_crawled st + 1)%Z.
Proof.
  intros lib cfg now seed_urls events s w url depth robots page clock e
    Hrun Hw Hraises result.
  apply (run_inv cfg any_task) in Hrun; [| unfold any_task; auto ..].
  destruct Hrun as [Hcache _ _ _ _ _].
  split.
  - simpl. rewrite Hw. rewrite (fetch_url_allowed _ _ _ _ _ _ _ Hcache).
    unfold fetch_url_gated. cbn [negb].
    rewrite (fetch_page_raises _ _ _ _ _ _ _ Hraises).
    subst result. destruct e; reflexivity.
  - intros s2 driver Hw2 st st'. subst st st'. simpl. rewrite Hw2.
    unfold worker_finish. rewrite store_page_returns. cbn [ret].
    pose proof (worker_count_spec cfg (crawler s2) result) as Hc.
    destruct (worker_count cfg (crawler s2) result) as [self' ctl].
    simpl in Hc. destruct Hc as (_ & _ & _ & _ & Htot & _ & Hsf).
    simpl. lia.
Qed.

(** C5 on the crawl of a seed whose request times out. *)
Lemma fetch_timeout_counts_as_failed_witness :
  let s :=
    state_of (run (lib := plain_library) sample_config 0%Z ["https://a.test/"]
                sample_fetching) in
  step (lib := plain_library) sample_config s
    (EvFetch 0 (RobotsChecker.RobotsRaised TimeoutError)
       (GetRaised TimeoutError) 7%Z)
  = mkSystem (crawler s)
      (<[0%nat := InStore (mkResult "https://a.test/" 0 "" 0 [] 7%Z
                             (Some "Timeout"))]> (workers s)).
Proof.
  apply (fetch_timeout_counts_as_failed plain_library sample_config 0%Z
           ["https://a.test/"] sample_fetching
           (state_of (run (lib := plain_library) sample_config 0%Z
                        ["https://a.test/"] sample_fetching))
           0%nat "https://a.test/" 0%Z
           (RobotsChecker.RobotsRaised TimeoutError)
           (GetRaised TimeoutError) 7%Z TimeoutError).
  - apply returned_state. vm_compute. reflexivity.
  - vm_compute. reflexivity.
  - reflexivity.
Defined.

(** C8.  In every run, when the response to a worker's [fetch_url] has
    a content type that does not contain [text/html], [fetch_url]
    changes nothing in the crawler, so it queues no link, and returns
    a record with the status of the response, an empty title and no
    links. *)
Theorem non_html_response_record :
  forall (lib : Library) (cfg : CrawlerConfig) (now : Z)
         (seed_urls : list string) (events : list Event) (s : System)
         (w : nat) (url : string) (depth : Z)
         (robots : RobotsChecker.RobotsFetch) (response : Response)
         (clock : Z),
    run cfg now seed_urls events = inr s ->
    workers s !! w = Some (InFetch url depth) ->
    contains "text/html" (lower (default "" (content_type response))) = false ->
    fetch_url cfg (crawler s) url depth robots (GetResponse response) clock
    = (crawler s,
       Some (mkResult url (status response) "" 0 [] clock None))
    /\ step cfg s (EvFetch w robots (GetResponse response) clock)
       = mkSystem (crawler s)
           (<[w := InStore (mkResult url (status response) "" 0 [] clock None)]>
              (workers s)).
Proof.
  intros lib cfg now seed_urls events s w url depth robots response clock
    Hrun Hw Hct.
  apply (run_inv cfg any_task) in Hrun; [| unfold any_task; auto ..].
  destruct Hrun as [Hcache _ _ _ _ _].
  assert (Hfetch :
    fetch_url cfg (crawler s) url depth robots (GetResponse response) clock
    = (crawler s, Some (mkResult url (status response) "" 0 [] clock None))).
  { rewrite (fetch_url_allowed _ _ _ _ _ _ _ Hcache).
    unfold fetch_url_gated, fetch_page. cbn [negb].
    rewrite Hct. reflexivity. }
  split; [exact Hfetch |].
  simpl. rewrite Hw, Hfetch. reflexivity.
Qed.

(** C8 on the crawl of a seed that answers 404 with a PDF. *)
Lemma non_html_response_record_witness :
  let s :=
    state_of (run (lib := plain_library) sample_config 0%Z ["https://a.test/"]
                sample_fetching) in
  fetch_url (lib := plain_library) sample_config (crawler s)
    "https://a.test/" 0%Z (RobotsChecker.RobotsRaised TimeoutError)
    (GetResponse (mkResponse 404 (Some "application/pdf")
                    (inr (mkHtml 3 "T" ["https://a.test/x"])))) 7%Z
  = (crawler s, Some (mkResult "https://a.test/" 404 "" 0 [] 7%Z None)).
Proof.
  apply (non_html_response_record plain_library sample_config 0%Z
           ["https://a.test/"] sample_fetching
           (state_of (run (lib := plain_library) sample_config 0%Z
                        ["https://a.test/"] sample_fetching))
           0%nat "https://a.test/" 0%Z
           (RobotsChecker.RobotsRaised TimeoutError)
           (mkResponse 404 (Some "application/pdf")
              (inr (mkHtml 3 "T" ["https://a.test/x"]))) 7%Z).
  - apply returned_state. vm_compute. reflexivity.
  - vm_compute. reflexivity.
  - vm_compute. reflexivity.
Defined.

(** The worker that an event belongs to. *)
Definition event_worker (ev : Event) : nat :=
  match ev with
  | EvGet w | EvGetTimeout w | EvResume w | EvFetch w _ _ _ | EvStore w _ => w
  end.

(** An event leaves the other workers where they stand. *)
Lemma step_other_worker `{lib : Library} (cfg : CrawlerConfig) (s : System)
    (ev : Event) (w : nat) :
  event_worker ev <> w -> workers (step cfg s ev) !! w = workers s !! w.
Proof.
  intros Hne.
  destruct ev as [w' | w' | w' | w' robots page now | w' driver];
    cbn [event_worker] in Hne; cbn [step].
  - destruct (workers s !! w') as [[| | | |] |]; try reflexivity.
    destruct (Queue.get _) as [[[url depth] q] |]; [| reflexivity].
    cbn [workers]. apply list_lookup_insert_ne. exact Hne.
  - destruct (workers s !! w') as [[| | | |] |]; try reflexivity.
    destruct (Queue.items _); [| reflexivity].
    cbn [set_worker workers]. apply list_lookup_insert_ne. exact Hne.
  - destruct (workers s !! w') as [[| url depth | | |] |]; try reflexivity.
    destruct (worker_resume _ _ _) as [self pc].
    cbn [workers]. apply list_lookup_insert_ne. exact Hne.
  - destruct (workers s !! w') as [[| | url depth | |] |]; try reflexivity.
    destruct (fetch_url _ _ _ _ _ _ _) as [self [result |]].
    + cbn [workers]. apply list_lookup_insert_ne. exact Hne.
    + destruct (worker_finish _ _ _ _) as [self' r].
      cbn [workers]. apply list_lookup_insert_ne. exact Hne.
  - destruct (workers s !! w') as [[| | | result |] |]; try reflexivity.
    destruct (worker_finish _ _ _ _) as [self r].
    cbn [workers]. apply list_lookup_insert_ne. exact Hne.
Qed.

(** C9.  A worker that has not left its loop leaves it at an event
    exactly when the event is the timeout of its own [get] on the
    empty queue, or is the return of its own [store_page] with a
    positive page budget that [total_crawled], the record just counted
    included, has reached.  An exception other than a timeout in the
    loop body ends the turn, not the loop, and so does every exception
    of the database driver, which [store_page] keeps to itself. *)
Theorem worker_leaves_loop :
  (forall (lib : Library) (cfg : CrawlerConfig) (s : System) (ev : Event)
          (w : nat) (pc : Worker),
      workers s !! w = Some pc ->
      pc <> Exited ->
      workers (step cfg s ev) !! w = Some Exited
      <-> (ev = EvGetTimeout w /\ pc = AtGet
           /\ Queue.items (url_queue (crawler s)) = [])
          \/ (exists driver result,
                 ev = EvStore w driver /\ pc = InStore result
                 /\ (0 < max_pages cfg)%Z
                 /\ (max_pages cfg
                     <= total_crawled (stats (crawler (step cfg s ev))))%Z))
  /\ (forall e : exn,
         e <> TimeoutError ->
         after_turn (worker_except (raise e)) = AtGet)
  /\ (forall (lib : Library) (cfg : CrawlerConfig) (self : t)
             (result : CrawlResult) (driver : Exc unit),
         exists self' ctl,
           worker_finish cfg self (Some result)
             (DatabaseManager.store_page driver) = (self', ret ctl)).
Proof.
  split; [| split].
  - intros lib cfg s ev w pc Hw Hpc.
    destruct (decide (event_worker ev = w)) as [Heq | Hne].
    2: { rewrite (step_other_worker cfg s ev w Hne), Hw. split.
         - intros [= ->]. contradiction.
         - intros [(-> & _) | (driver & result & -> & _)];
             simpl in Hne; contradiction. }
    assert (Hlen : (w < length (workers s))%nat)
      by (eapply lookup_lt_Some; exact Hw).
    destruct ev as [w' | w' | w' | w' robots page now | w' driver];
      cbn [event_worker] in Heq; subst w'; cbn [step]; rewrite Hw;
      destruct pc as [| url depth | url depth | result |];
      try contradiction;
      try (split;
           [ rewrite Hw; discriminate
           | intros [(Hev & Hpc' & _) | (d & r & Hev & Hpc' & _)];
             (discriminate Hev || discriminate Hpc') ]).
    + (* EvGet at AtGet *)
      destruct (Queue.get _) as [[[url depth] q] |]; cbn [workers].
      * rewrite list_lookup_insert_eq by exact Hlen.
        split; [discriminate |].
        intros [(Hev & _) | (d & r & Hev & _)]; discriminate Hev.
      * rewrite Hw. split; [discriminate |].
        intros [(Hev & _) | (d & r & Hev & _)]; discriminate Hev.
    + (* EvGetTimeout at AtGet *)
      destruct (Queue.items (url_queue (crawler s))) eqn:Hitems.
      * cbn [set_worker workers raise worker_except after_turn].
        rewrite list_lookup_insert_eq by exact Hlen.
        split; [intros _; left; auto | reflexivity].
      * rewrite Hw. split; [discriminate |].
        intros [(_ & _ & Hit) | (d & r & Hev & _)]; discriminate.
    + (* EvResume at Dequeued *)
      unfold worker_resume. destruct (bool_decide _); cbn [workers];
        rewrite list_lookup_insert_eq by exact Hlen;
        (split; [discriminate |]);
        intros [(Hev & _) | (d & r & Hev & _)]; discriminate Hev.
    + (* EvFetch at InFetch *)
      destruct (fetch_url _ _ _ _ _ _ _) as [self [result |]];
        cbn [worker_finish ret worker_except after_turn workers];
        rewrite list_lookup_insert_eq by exact Hlen;
        (split; [discriminate |]);
        intros [(Hev & _) | (d & r & Hev & _)]; discriminate Hev.
    + (* EvStore at InStore *)
      unfold worker_finish. rewrite store_page_returns. cbn [ret].
      pose proof (worker_count_ctl cfg (crawler s) result) as Hctl.
      destruct (worker_count cfg (crawler s) result) as [self' ctl].
      cbn [fst snd] in Hctl. cbn [worker_except workers crawler].
      rewrite list_lookup_insert_eq by exact Hlen.
      split.
      * destruct ctl; [discriminate |]. intros _. right.
        exists driver, result. repeat split; apply Hctl; reflexivity.
      * intros [(Hev & _) | (d & r & _ & _ & Hpos & Hmax)];
          [discriminate |].
        destruct ctl; [| reflexivity].
        assert (Hb : Continue = Break) by (apply Hctl; auto).
        discriminate.
  - intros e He. destruct e; try reflexivity. contradiction.
  - intros lib cfg self result driver.
    unfold worker_finish. rewrite store_page_returns. cbn [ret].
    destruct (worker_count cfg self result) as [self' ctl]. eauto.
Qed.

(** C9 on a crawl with a budget of one page: the worker leaves its
    loop when [store_page] returns for the first record. *)
Lemma worker_leaves_loop_witness :
  let cfg := mkConfig 1 1 1 true in
  let s :=
    state_of (run (lib := plain_library) cfg 0%Z ["https://a.test/"]
                sample_timeout) in
  workers (step (lib := plain_library) cfg s (EvStore 0 (inr tt))) !! 0%nat
  = Some Exited.
Proof.
  intros cfg s.
  apply (proj1 worker_leaves_loop plain_library cfg s (EvStore 0 (inr tt))
           0%nat
           (InStore (mkResult "https://a.test/" 0 "" 0 [] 7%Z
                       (Some "Timeout")))).
  - vm_compute. reflexivity.
  - discriminate.
  - right. exists (inr tt).
    exists (mkResult "https://a.test/" 0 "" 0 [] 7%Z (Some "Timeout")).
    split; [reflexivity |]. split; [reflexivity |].
    vm_compute. split; [reflexivity | discriminate].
Defined.

(** *** At most once: the links, not the seeds *)

(** An event appends to the history of the queue, and only a fetch
    appends something: tasks that were admissible at that moment. *)
Lemma step_history `{lib : Library} (cfg : CrawlerConfig) (s : System)
    (ev : Event) :
  Inv any_task s ->
  exists tasks,
    Queue.history (url_queue (crawler (step cfg s ev)))
    = Queue.history (url_queue (crawler s)) ++ tasks
    /\ NoDup tasks.*1
    /\ Forall (fun task => task.1 ∉ queued_urls (crawler s)) tasks.
Proof.
  intros HI.
  assert (Hnone :
    Queue.history (url_queue (crawler s))
    = Queue.history (url_queue (crawler s)) ++ []
    /\ NoDup ([] : list (string * Z)).*1
    /\ Forall (fun task : string * Z => task.1 ∉ queued_urls (crawler s)) [])
    by (rewrite app_nil_r; split;
        [reflexivity | split; [apply NoDup_nil_2 | apply Forall_nil_2]]).
  destruct ev as [w | w | w | w robots page now | w driver]; simpl.
  - destruct (workers s !! w) as [[| | | |] |]; eauto.
    unfold Queue.get.
    destruct (Queue.items _) as [| [url depth] rest]; simpl; eauto.
  - destruct (workers s !! w) as [[| | | |] |]; eauto.
    destruct (Queue.items _); simpl; eauto.
  - destruct (workers s !! w) as [[| url depth | | |] |]; eauto.
    unfold worker_resume. destruct (bool_decide _); simpl; eauto.
  - destruct (workers s !! w) as [[| | url depth | |] |]; eauto.
    rewrite (fetch_url_allowed _ _ _ _ _ _ _ (inv_cache _ _ HI)).
    destruct (fetch_url_gated_allowed_spec cfg (crawler s) url depth page now)
      as (tasks & self' & result & -> & Hq & Hlinks).
    simpl. exists tasks. split; [apply Hq |].
    destruct Hlinks as [-> | (_ & base_domain & _ & Hadm & Hnd)];
      [split; constructor |].
    split; [exact Hnd |].
    eapply Forall_impl; [exact Hadm |].
    intros task (_ & Hq' & _). exact Hq'.
  - destruct (workers s !! w) as [[| | | result |] |]; eauto.
    unfold worker_finish. rewrite store_page_returns. cbn [ret].
    pose proof (worker_count_spec cfg (crawler s) result) as Hc.
    destruct (worker_count cfg (crawler s) result) as [self' ctl].
    simpl in Hc. destruct Hc as (_ & _ & Hq & _). simpl. rewrite Hq. eauto.
Qed.

(** From the moment the workers start, no URL is put on the queue
    that is on it or was on it before: if the seeds were queued
    without a repetition, no URL is ever queued twice. *)
Lemma links_queued_at_most_once `{lib : Library} (cfg : CrawlerConfig)
    (now : Z) (seed_urls : list string) (events : list Event)
    (s0 s : System) :
  crawl cfg now seed_urls = inr s0 ->
  NoDup (Queue.history (url_queue (crawler s0))).*1 ->
  run cfg now seed_urls events = inr s ->
  NoDup (Queue.history (url_queue (crawler s))).*1.
Proof.
  intros Hcrawl Hnd0 Hrun.
  assert (HI0 : Inv any_task s0).
  { apply (run_inv cfg any_task now seed_urls []);
      [unfold any_task; auto .. |].
    unfold run. rewrite Hcrawl. reflexivity. }
  unfold run in Hrun. rewrite Hcrawl in Hrun. simpl in Hrun.
  injection Hrun as <-.
  clear Hcrawl. revert s0 Hnd0 HI0.
  induction events as [| ev events IH]; intros s0 Hnd0 HI0; simpl;
    [exact Hnd0 |].
  apply IH.
  - destruct (step_history cfg s0 ev HI0) as (tasks & -> & Hnd & Hfresh).
    rewrite fmap_app. apply NoDup_app. split; [exact Hnd0 |].
    split; [| exact Hnd].
    intros u Hu Hin.
    apply list_elem_of_fmap in Hu as (task0 & -> & Hin0).
    apply list_elem_of_fmap in Hin as (task & Heq & Hin).
    rewrite Forall_forall in Hfresh.
    apply (Hfresh task Hin). rewrite <- Heq.
    apply (inv_queued _ _ HI0). exact Hin0.
  - apply (step_inv cfg any_task); [unfold any_task; auto | exact HI0].
Qed.

(** C1 (the code departs from the claim).  [crawl] puts a seed on the
    queue without looking it up in [queued_urls] or [visited_urls]: a
    seed given twice, or two seeds with the same normal form, are
    queued twice. *)
Theorem duplicate_seed_queued_twice :
  forall (lib : Library) (cfg : CrawlerConfig) (now : Z),
    (exists s,
        crawl cfg now ["http://a.test/"; "http://a.test/"] = inr s
        /\ Queue.items (url_queue (crawler s))
           = [("http://a.test/", 0%Z); ("http://a.test/", 0%Z)])
    /\ (exists s,
           crawl cfg now ["http://a.test/"; "HTTP://A.test/#top"] = inr s
           /\ Queue.items (url_queue (crawler s))
              = [("http://a.test/", 0%Z); ("http://a.test/", 0%Z)]).
Proof.
  intros lib cfg now.
  split; (eexists; split; [vm_compute; reflexivity | reflexivity]).
Qed.

(** ** Strings *)

#[local] Arguments String.append !_ _ / : simpl nomatch.

(** Facts on single characters, by enumeration. *)
Ltac by_cases_on_char c :=
  destruct c as [[] [] [] [] [] [] [] []]; vm_compute; try reflexivity;
  try discriminate; auto.

Section StringFacts.
Implicit Types (a b s : string) (c : ascii) (p : ascii -> bool) (n : nat).

Lemma str_app_assoc a b s : (a +:+ b) +:+ s = a +:+ (b +:+ s).
Proof. induction a as [| c a IH]; simpl; [reflexivity | now rewrite IH]. Qed.

Lemma str_app_nil_r a : a +:+ "" = a.
Proof. induction a as [| c a IH]; simpl; [reflexivity | now rewrite IH]. Qed.

Lemma str_length_app a b :
  String.length (a +:+ b) = (String.length a + String.length b)%nat.
Proof. induction a as [| c a IH]; simpl; [reflexivity | now rewrite IH]. Qed.

Lemma mem_app c a b : mem c (a +:+ b) = mem c a || mem c b.
Proof.
  induction a as [| x a IH]; simpl; [reflexivity |].
  destruct (Ascii.eqb x c); [reflexivity | exact IH].
Qed.

Lemma find_None c s : find c s = None <-> mem c s = false.
Proof.
  induction s as [| x s IH]; simpl; [tauto |].
  destruct (Ascii.eqb x c); [split; discriminate |].
  destruct (find c s); simpl; [split; [discriminate | ] | tauto].
  intros H. apply IH in H. discriminate.
Qed.

Lemma find_Some_lt c s i : find c s = Some i -> (i < String.length s)%nat.
Proof.
  revert i. induction s as [| x s IH]; simpl; intros i; [discriminate |].
  destruct (Ascii.eqb x c); [intros [= <-]; lia |].
  destruct (find c s) as [j |]; simpl; [| discriminate].
  intros [= <-]. specialize (IH j eq_refl). lia.
Qed.

(** A first occurrence in [a] is the first occurrence in [a +:+ b]. *)
Lemma find_app_l c a b i : find c a = Some i -> find c (a +:+ b) = Some i.
Proof.
  revert i. induction a as [| x a IH]; simpl; intros i; [discriminate |].
  destruct (Ascii.eqb x c); [trivial |].
  destruct (find c a) as [j |]; simpl; [| discriminate].
  intros [= <-]. now rewrite (IH j eq_refl).
Qed.

Lemma find_app_r c a b :
  mem c a = false ->
  find c (a +:+ b) = option_map (Nat.add (String.length a)) (find c b).
Proof.
  induction a as [| x a IH]; simpl; [destruct (find c b); reflexivity |].
  destruct (Ascii.eqb x c); [discriminate |].
  intros H. rewrite (IH H). destruct (find c b); reflexivity.
Qed.

Lemma str_take_app_le n a b :
  (n <= String.length a)%nat -> take n (a +:+ b) = take n a.
Proof.
  revert n. induction a as [| x a IH]; simpl; intros [| n] Hn;
    try reflexivity; try lia.
  simpl. rewrite IH by lia. reflexivity.
Qed.

Lemma str_take_app_ge n a b :
  take (String.length a + n) (a +:+ b) = a +:+ take n b.
Proof. induction a as [| x a IH]; simpl; [reflexivity | now rewrite IH]. Qed.

Lemma str_take_app_length a b : take (String.length a) (a +:+ b) = a.
Proof.
  rewrite str_take_app_le by lia.
  induction a as [| x a IH]; simpl; [reflexivity | now rewrite IH].
Qed.

Lemma str_drop_app_le n a b :
  (n <= String.length a)%nat -> drop n (a +:+ b) = drop n a +:+ b.
Proof.
  revert n. induction a as [| x a IH]; simpl; intros [| n] Hn;
    try reflexivity; try lia.
  simpl. apply IH. lia.
Qed.

Lemma str_drop_app_ge n a b : drop (String.length a + n) (a +:+ b) = drop n b.
Proof. induction a as [| x a IH]; simpl; [reflexivity | exact IH]. Qed.

Lemma str_drop_drop n m s : drop n (drop m s) = drop (m + n) s.
Proof.
  revert s. induction m as [| m IH]; intros s; simpl; [reflexivity |].
  destruct s as [| x s]; [destruct n; reflexivity | apply IH].
Qed.

Lemma str_length_drop n s :
  String.length (drop n s) = (String.length s - n)%nat.
Proof.
  revert s. induction n as [| n IH]; intros s; simpl; [lia |].
  destruct s as [| x s]; simpl; [reflexivity | apply IH].
Qed.

Lemma all_app p a b : all p (a +:+ b) = all p a && all p b.
Proof.
  induction a as [| x a IH]; simpl; [reflexivity |].
  rewrite IH. now rewrite andb_assoc.
Qed.

Lemma remove_app p a b : remove p (a +:+ b) = remove p a +:+ remove p b.
Proof.
  induction a as [| x a IH]; simpl; [reflexivity |].
  destruct (p x); simpl; now rewrite IH.
Qed.

Lemma lower_app a b : lower (a +:+ b) = lower a +:+ lower b.
Proof. induction a as [| x a IH]; simpl; [reflexivity | now rewrite IH]. Qed.

(** Removing characters that [q] never selects leaves [q] as it is. *)
Lemma all_remove p q s : all q s = true -> all q (remove p s) = true.
Proof.
  induction s as [| x s IH]; simpl; [trivial |].
  intros [Hx Hs]%andb_true_iff.
  destruct (p x); simpl; [auto |]. rewrite Hx. auto.
Qed.

Lemma remove_none p s :
  all (fun c => negb (p c)) s = true -> remove p s = s.
Proof.
  induction s as [| x s IH]; simpl; [trivial |].
  intros [Hx Hs]%andb_true_iff. destruct (p x); [discriminate |].
  now rewrite IH.
Qed.

Lemma mem_remove c p s : p c = false -> mem c (remove p s) = mem c s.
Proof.
  intros Hc. induction s as [| x s IH]; simpl; [reflexivity |].
  destruct (p x) eqn:Hx; simpl.
  - destruct (Ascii.eqb_spec x c); [congruence | exact IH].
  - destruct (Ascii.eqb x c); [reflexivity | exact IH].
Qed.

(** A character that [lstrip] keeps stops it. *)
Lemma lstrip_app p a c b :
  p c = false -> lstrip p (a +:+ String c b) = lstrip p a +:+ String c b.
Proof.
  intros Hc. induction a as [| x a IH]; simpl; [now rewrite Hc |].
  destruct (p x); [exact IH | reflexivity].
Qed.

Lemma mem_lstrip_false c p s : mem c s = false -> mem c (lstrip p s) = false.
Proof.
  induction s as [| x s IH]; simpl; [trivial |].
  destruct (Ascii.eqb x c) eqn:Hx; [discriminate |].
  intros H. destruct (p x); [auto |]. simpl. now rewrite Hx.
Qed.


Lemma lower_char_idem c : lower_char (lower_char c) = lower_char c.
Proof. by_cases_on_char c. Qed.

Lemma scheme_char_lower c : scheme_char (lower_char c) = scheme_char c.
Proof. by_cases_on_char c. Qed.

Lemma is_ascii_alpha_lower c :
  is_ascii_alpha (lower_char c) = is_ascii_alpha c.
Proof. by_cases_on_char c. Qed.

Lemma unsafe_url_byte_lower c :
  unsafe_url_byte (lower_char c) = unsafe_url_byte c.
Proof. by_cases_on_char c. Qed.

Lemma scheme_char_safe c : scheme_char c = true -> unsafe_url_byte c = false.
Proof. by_cases_on_char c. Qed.

Lemma scheme_char_not_colon c : scheme_char c = true -> Ascii.eqb c ":" = false.
Proof. by_cases_on_char c. Qed.

Lemma ascii_alpha_not_c0 c :
  is_ascii_alpha c = true -> c0_control_or_space c = false.
Proof. by_cases_on_char c. Qed.

End StringFacts.

(** ** [urlparse] on the shapes of the claims *)

(** Whether the first character is an ASCII letter. *)
Definition head_is_alpha (s : string) : bool :=
  match s with
  | EmptyString => false
  | String c _ => is_ascii_alpha c
  end.

(** [c in '/?#'], the characters that end a netloc *)
Definition netloc_delim (c : ascii) : bool :=
  Ascii.eqb c "/" || Ascii.eqb c "?" || Ascii.eqb c "#".

(** A string up to its first character of [/?#], and the rest. *)
Fixpoint span_netloc (s : string) : string * string :=
  match s with
  | EmptyString => ("", "")
  | String c s' =>
      if netloc_delim c then ("", s)
      else let '(n, r) := span_netloc s' in (String c n, r)
  end.

(** [d] or the index [o], the smaller; [None] is no index *)
Definition omin (d : nat) (o : option nat) : nat :=
  match o with
  | Some w => Nat.min d w
  | None => d
  end.

Section SplitNetloc.
Implicit Types (a b s t : string) (c : ascii).

Lemma span_netloc_index t :
  span_netloc t
  = (take (omin (omin (omin (String.length t) (find "/" t)) (find "?" t))
             (find "#" t)) t,
     drop (omin (omin (omin (String.length t) (find "/" t)) (find "?" t))
             (find "#" t)) t).
Proof.
  induction t as [| x t IH]; [reflexivity |].
  cbn [span_netloc find String.length]. unfold netloc_delim.
  rewrite IH. clear IH.
  destruct (Ascii.eqb x "/"), (Ascii.eqb x "?"), (Ascii.eqb x "#");
    cbn [orb];
    destruct (find "/" t), (find "?" t), (find "#" t);
    cbn [option_map omin];
    rewrite ?Nat.min_0_r, ?Nat.min_0_l; cbn [omin Nat.min take drop];
    rewrite ?Nat.min_0_r, ?Nat.min_0_l; reflexivity.
Qed.

Lemma splitnetloc_span s :
  (2 <= String.length s)%nat -> splitnetloc s 2 = span_netloc (drop 2 s).
Proof.
  destruct s as [| c1 [| c2 t]]; simpl; intros Hlen; try lia.
  unfold splitnetloc, find_from. cbn [fold_left String.length Nat.leb drop].
  rewrite span_netloc_index.
  destruct (find "/" t); destruct (find "?" t); destruct (find "#" t);
    simpl; rewrite ?Nat.sub_0_r; reflexivity.
Qed.

Lemma span_netloc_app_hash a f :
  mem "#" a = false ->
  span_netloc (a +:+ String "#" f)
  = ((span_netloc a).1, (span_netloc a).2 +:+ String "#" f).
Proof.
  induction a as [| x a IH]; [reflexivity |].
  cbn [String.append span_netloc mem].
  destruct (Ascii.eqb x "#") eqn:Hx; [discriminate |].
  intros Ha. destruct (netloc_delim x); [reflexivity |].
  rewrite (IH Ha). destruct (span_netloc a). reflexivity.
Qed.

Lemma span_netloc_mem_false c a :
  mem c a = false -> mem c (span_netloc a).2 = false.
Proof.
  induction a as [| x a IH]; [trivial |].
  cbn [span_netloc mem]. destruct (Ascii.eqb x c) eqn:Hx; [discriminate |].
  intros Ha. destruct (netloc_delim x); simpl.
  - now rewrite Hx.
  - specialize (IH Ha). destruct (span_netloc a). exact IH.
Qed.

(** A netloc without delimiter, followed by nothing or by a
    delimiter, is what [span_netloc] cuts off. *)
Lemma span_netloc_app a b :
  all (fun c => negb (netloc_delim c)) a = true ->
  match b with
  | EmptyString => true
  | String c _ => netloc_delim c
  end = true ->
  span_netloc (a +:+ b) = (a, b).
Proof.
  intros Ha Hb. induction a as [| x a IH]; simpl in *.
  - destruct b as [| c b]; [reflexivity |]. simpl. now rewrite Hb.
  - apply andb_true_iff in Ha as [Hx Ha].
    destruct (netloc_delim x); [discriminate |]. now rewrite (IH Ha).
Qed.

Lemma mem_drop_false c n s : mem c s = false -> mem c (drop n s) = false.
Proof.
  revert s. induction n as [| n IH]; intros s; simpl; [trivial |].
  destruct s as [| x s]; simpl; [trivial |].
  destruct (Ascii.eqb x c); [discriminate | apply IH].
Qed.

Lemma split_once_app c a f :
  mem c a = false -> split_once c (a +:+ String c f) = (a, f).
Proof.
  intros Ha. unfold split_once. rewrite (find_app_r _ _ _ Ha).
  cbn [find]. rewrite Ascii.eqb_refl. cbn [option_map].
  rewrite Nat.add_0_r, str_take_app_length.
  replace (S (String.length a)) with (String.length a + 1)%nat by lia.
  rewrite str_drop_app_ge. reflexivity.
Qed.

Lemma split_once_absent c a : mem c a = false -> split_once c a = (a, "").
Proof.
  intros Ha. unfold split_once. apply find_None in Ha. now rewrite Ha.
Qed.

End SplitNetloc.

Section Fragment.
Context `{lib : Library}.
Implicit Types (a b f s t : string) (c : ascii).

Lemma scheme_char_hash : scheme_char "#" = false.
Proof. reflexivity. Qed.

(** [split_scheme] with the test on the first character set apart. *)
Lemma split_scheme_eq s :
  split_scheme s
  = match find ":" s with
    | Some i =>
        if (0 <? i)%nat && head_is_alpha s && all scheme_char (take i s)
        then (lower (take i s), drop (S i) s)
        else ("", s)
    | None => ("", s)
    end.
Proof.
  unfold split_scheme, head_is_alpha.
  destruct (find ":" s) as [i |]; [| reflexivity].
  destruct s as [| c0 s']; [| reflexivity].
  rewrite andb_false_r. reflexivity.
Qed.

Lemma head_is_alpha_app a b :
  a <> "" -> head_is_alpha (a +:+ b) = head_is_alpha a.
Proof. destruct a; [contradiction | reflexivity]. Qed.

(** A fragment does not change what [urlsplit] takes for the scheme. *)
Lemma split_scheme_app_hash b f :
  mem "#" b = false ->
  split_scheme (b +:+ String "#" f)
  = ((split_scheme b).1, (split_scheme b).2 +:+ String "#" f)
  /\ mem "#" (split_scheme b).2 = false.
Proof.
  intros Hb. rewrite !split_scheme_eq.
  destruct (find ":" b) as [i |] eqn:Hfind.
  - pose proof (find_Some_lt _ _ _ Hfind) as Hi.
    rewrite (find_app_l _ _ _ _ Hfind).
    assert (Hne : b <> "") by (intros ->; discriminate).
    rewrite (head_is_alpha_app _ _ Hne).
    rewrite str_take_app_le by lia. rewrite str_drop_app_le by lia.
    destruct (_ && _ && _); cbn [fst snd]; (split; [reflexivity |]);
      [apply mem_drop_false |]; exact Hb.
  - cbn [fst snd]. split; [| exact Hb].
    apply find_None in Hfind.
    rewrite (find_app_r _ _ _ Hfind). cbn [find].
    change (Ascii.eqb "#" ":") with false. cbv iota.
    destruct (find ":" f) as [k |]; [| reflexivity].
    cbn [option_map].
    rewrite str_take_app_ge, all_app. cbn [take all].
    rewrite scheme_char_hash, !andb_false_r. reflexivity.
Qed.

Lemma take2_app_hash r f :
  mem "#" r = false ->
  String.eqb (take 2 (r +:+ String "#" f)) "//" = String.eqb (take 2 r) "//".
Proof.
  destruct r as [| c1 [| c2 r]]; simpl; reflexivity.
Qed.

(** A fragment does not change what [urlsplit] takes for the netloc. *)
Lemma split_authority_app_hash r f :
  mem "#" r = false ->
  split_authority (r +:+ String "#" f)
  = bind (split_authority r)
      (fun '(n, rest) => ret (n, rest +:+ String "#" f))
  /\ forall n rest, split_authority r = inr (n, rest) ->
                    mem "#" rest = false.
Proof.
  intros Hr. unfold split_authority.
  rewrite (take2_app_hash _ _ Hr).
  destruct (String.eqb_spec (take 2 r) "//") as [H2 | H2];
    [| split; [reflexivity | intros n0 rest0 [= <- <-]; exact Hr]].
  assert (Hlen : (2 <= String.length r)%nat).
  { destruct r as [| c1 [| c2 r]]; simpl in *; try discriminate; lia. }
  rewrite splitnetloc_span
    by (rewrite str_length_app; simpl; lia).
  rewrite (splitnetloc_span r Hlen).
  rewrite str_drop_app_le by exact Hlen.
  pose proof (mem_drop_false "#" 2 r Hr) as Hd.
  rewrite (span_netloc_app_hash _ _ Hd).
  pose proof (span_netloc_mem_false "#" _ Hd) as Hrest.
  destruct (span_netloc (drop 2 r)) as [n rest]. simpl in *.
  split.
  - destruct (check_brackets n); reflexivity.
  - intros n' rest'. destruct (check_brackets n); simpl; [discriminate |].
    intros [= <- <-]. exact Hrest.
Qed.

Lemma sanitize_app_hash base f :
  mem "#" base = false ->
  sanitize (base +:+ String "#" f)
  = sanitize base +:+ String "#" (remove unsafe_url_byte f)
  /\ mem "#" (sanitize base) = false.
Proof.
  intros Hb. unfold sanitize.
  rewrite lstrip_app by reflexivity. rewrite remove_app. simpl.
  split; [reflexivity |].
  rewrite mem_remove by reflexivity. now apply mem_lstrip_false.
Qed.

(** [urlsplit] of a URL with a fragment: [urlsplit] of the URL without
    it, with the fragment in the last component. *)
Lemma urlsplit_app_hash base f :
  mem "#" base = false ->
  urlsplit (base +:+ String "#" f)
  = bind (urlsplit base)
      (fun '(sc, n, p, q, _) => ret (sc, n, p, q, remove unsafe_url_byte f)).
Proof.
  intros Hb. unfold urlsplit.
  destruct (sanitize_app_hash base f Hb) as [-> Hs].
  destruct (split_scheme_app_hash (sanitize base)
              (remove unsafe_url_byte f) Hs) as [-> Hr].
  destruct (split_scheme (sanitize base)) as [sc r]. simpl in Hr. simpl.
  destruct (split_authority_app_hash r (remove unsafe_url_byte f) Hr)
    as [-> Hrest].
  destruct (split_authority r) as [e | [n rest]]; [reflexivity |].
  specialize (Hrest n rest eq_refl). simpl.
  rewrite (split_once_app _ _ _ Hrest), (split_once_absent _ _ Hrest).
  destruct (split_once "?" rest). reflexivity.
Qed.

Lemma urlparse_app_hash base f :
  mem "#" base = false ->
  urlparse (base +:+ String "#" f)
  = bind (urlparse base)
      (fun parsed =>
         ret (mkParseResult (scheme parsed) (netloc parsed) (path parsed)
                (params parsed) (query parsed) (remove unsafe_url_byte f))).
Proof.
  intros Hb. unfold urlparse. rewrite (urlsplit_app_hash _ _ Hb).
  destruct (urlsplit base) as [e | [[[[sc n] p] q] fr]]; [reflexivity |].
  simpl. destruct (_ && _); [destruct (splitparams p) |]; reflexivity.
Qed.


End Fragment.

(** *** Scheme and host in another letter case *)

(** A scheme as [urlsplit] accepts it: an ASCII letter, then
    characters of [scheme_chars]. *)
Definition is_scheme (s : string) : bool :=
  head_is_alpha s && all scheme_char s.

(** A netloc: no character of [/?#]. *)
Definition is_netloc (h : string) : bool :=
  all (fun c => negb (netloc_delim c)) h.

(** What may follow a netloc: nothing, or a character of [/?#]. *)
Definition starts_delim (rest : string) : bool :=
  match rest with
  | EmptyString => true
  | String c _ => netloc_delim c
  end.

(** What [urlparse] makes of the text [r] behind the netloc [n] of a
    URL with scheme [sc]. *)
Definition parse_after_netloc (sc n r : string) : ParseResult :=
  let '(u, fr) := split_once "#" r in
  let '(u, q) := split_once "?" u in
  let '(u, pa) :=
    if in_list sc uses_params && mem ";" u then splitparams u else (u, "") in
  mkParseResult sc n u pa q fr.

Section LetterCase.
Context `{lib : Library}.
Implicit Types (a b h s t rest : string) (c : ascii).

Lemma all_impl (p q : ascii -> bool) s :
  (forall c, p c = true -> q c = true) -> all p s = true -> all q s = true.
Proof.
  intros Hpq. induction s as [| x s IH]; simpl; [trivial |].
  intros [Hx Hs]%andb_true_iff. rewrite (Hpq x Hx). auto.
Qed.

Lemma all_mem_false (p : ascii -> bool) c s :
  p c = false -> all p s = true -> mem c s = false.
Proof.
  intros Hc. induction s as [| x s IH]; simpl; [trivial |].
  intros [Hx Hs]%andb_true_iff.
  destruct (Ascii.eqb_spec x c); [congruence | auto].
Qed.

Lemma all_lower (p : ascii -> bool) s :
  (forall c, p (lower_char c) = p c) -> all p (lower s) = all p s.
Proof.
  intros Hp. induction s as [| x s IH]; simpl; [reflexivity |].
  now rewrite Hp, IH.
Qed.

Lemma mem_lower c s :
  (forall x, Ascii.eqb (lower_char x) c = Ascii.eqb x c) ->
  mem c (lower s) = mem c s.
Proof.
  intros Hc. induction s as [| x s IH]; simpl; [reflexivity |].
  now rewrite Hc, IH.
Qed.

Lemma lower_remove_unsafe s :
  lower (remove unsafe_url_byte s) = remove unsafe_url_byte (lower s).
Proof.
  induction s as [| x s IH]; simpl; [reflexivity |].
  rewrite unsafe_url_byte_lower.
  destruct (unsafe_url_byte x); simpl; now rewrite IH.
Qed.

Lemma netloc_delim_lower c : netloc_delim (lower_char c) = netloc_delim c.
Proof. by_cases_on_char c. Qed.

Lemma netloc_delim_safe c : netloc_delim c = true -> unsafe_url_byte c = false.
Proof. by_cases_on_char c. Qed.

Lemma open_bracket_lower c : Ascii.eqb (lower_char c) "[" = Ascii.eqb c "[".
Proof. by_cases_on_char c. Qed.

Lemma close_bracket_lower c : Ascii.eqb (lower_char c) "]" = Ascii.eqb c "]".
Proof. by_cases_on_char c. Qed.

Lemma is_scheme_lower s : is_scheme (lower s) = is_scheme s.
Proof.
  unfold is_scheme. rewrite (all_lower _ _ scheme_char_lower).
  destruct s as [| x s]; [reflexivity |]. simpl.
  now rewrite is_ascii_alpha_lower.
Qed.

Lemma is_netloc_lower h : is_netloc (lower h) = is_netloc h.
Proof.
  unfold is_netloc. apply all_lower. intros c.
  now rewrite netloc_delim_lower.
Qed.

Lemma lstrip_alpha s :
  head_is_alpha s = true -> lstrip c0_control_or_space s = s.
Proof.
  destruct s as [| c0 s]; [discriminate |]. simpl. intros Hc.
  now rewrite (ascii_alpha_not_c0 _ Hc).
Qed.

(** The first lines of [urlsplit] on [scheme://netloc rest]. *)
Lemma sanitize_absolute s h rest :
  is_scheme s = true ->
  sanitize (s +:+ "://" +:+ h +:+ rest)
  = s +:+ "://" +:+ remove unsafe_url_byte h +:+ remove unsafe_url_byte rest.
Proof.
  unfold is_scheme. intros [Hhead Hall]%andb_true_iff.
  assert (Hne : s <> "") by (intros ->; discriminate).
  unfold sanitize. rewrite lstrip_alpha
    by (rewrite (head_is_alpha_app _ _ Hne); exact Hhead).
  rewrite !remove_app.
  rewrite (remove_none unsafe_url_byte s).
  - reflexivity.
  - eapply all_impl; [| exact Hall].
    intros c Hc. now rewrite (scheme_char_safe _ Hc).
Qed.

Lemma split_scheme_absolute s t :
  is_scheme s = true ->
  split_scheme (s +:+ String ":" t) = (lower s, t).
Proof.
  unfold is_scheme. intros [Hhead Hall]%andb_true_iff.
  assert (Hne : s <> "") by (intros ->; discriminate).
  assert (Hcolon : mem ":" s = false)
    by (apply (all_mem_false scheme_char); [reflexivity | exact Hall]).
  rewrite split_scheme_eq, (find_app_r _ _ _ Hcolon).
  cbn [find]. rewrite Ascii.eqb_refl. cbn [option_map].
  rewrite Nat.add_0_r, str_take_app_length, (head_is_alpha_app _ _ Hne).
  rewrite Hhead, Hall.
  replace (0 <? String.length s)%nat with true
    by (destruct s; [contradiction | reflexivity]).
  cbn [andb].
  replace (S (String.length s)) with (String.length s + 1)%nat by lia.
  rewrite str_drop_app_ge. reflexivity.
Qed.

Lemma split_authority_absolute h rest :
  is_netloc h = true -> starts_delim rest = true ->
  split_authority (String "/" (String "/" (h +:+ rest)))
  = bind (check_brackets h) (fun _ => ret (h, rest)).
Proof.
  intros Hh Hrest. unfold split_authority.
  cbn [take]. rewrite String.eqb_refl.
  rewrite splitnetloc_span by (simpl; lia).
  cbn [drop]. rewrite (span_netloc_app _ _ Hh Hrest). reflexivity.
Qed.

Lemma starts_delim_remove rest :
  starts_delim rest = true ->
  starts_delim (remove unsafe_url_byte rest) = true.
Proof.
  destruct rest as [| c rest]; [trivial |]. simpl. intros Hc.
  rewrite (netloc_delim_safe _ Hc). simpl. exact Hc.
Qed.

(** [urlparse] on [scheme://netloc rest]. *)
Lemma urlparse_absolute s h rest :
  is_scheme s = true -> is_netloc h = true -> starts_delim rest = true ->
  urlparse (s +:+ "://" +:+ h +:+ rest)
  = bind (check_brackets (remove unsafe_url_byte h))
      (fun _ =>
         ret (parse_after_netloc (lower s) (remove unsafe_url_byte h)
                (remove unsafe_url_byte rest))).
Proof.
  intros Hs Hh Hrest. unfold urlparse, urlsplit.
  rewrite (sanitize_absolute _ _ _ Hs).
  change ("://" +:+ remove unsafe_url_byte h +:+ remove unsafe_url_byte rest)
    with (String ":"
            (String "/"
               (String "/"
                  (remove unsafe_url_byte h +:+ remove unsafe_url_byte rest)))).
  rewrite (split_scheme_absolute _ _ Hs).
  rewrite split_authority_absolute;
    [| apply all_remove; exact Hh | apply starts_delim_remove; exact Hrest].
  destruct (check_brackets (remove unsafe_url_byte h)) as [e | []];
    [reflexivity |].
  unfold parse_after_netloc. cbn [bind ret].
  destruct (split_once "#" (remove unsafe_url_byte rest)) as [u fr].
  destruct (split_once "?" u) as [u' q]. cbn [bind ret checknetloc].
  destruct (_ && _); [destruct (splitparams u') |]; reflexivity.
Qed.

(** The normal form of [scheme://netloc rest], when [urlparse] does
    not raise. *)
Definition normal_form (s h rest : string) : string :=
  let p := parse_after_netloc (lower s) "" (remove unsafe_url_byte rest) in
  urlunparse
    (mkParseResult (lower (lower s)) (lower (remove unsafe_url_byte h))
       (path p) (params p) (query p) "").

Lemma normalize_url_absolute s h rest :
  is_scheme s = true -> is_netloc h = true -> starts_delim rest = true ->
  WebCrawler.normalize_url (s +:+ "://" +:+ h +:+ rest)
  = bind (check_brackets (remove unsafe_url_byte h))
      (fun _ => ret (normal_form s h rest)).
Proof.
  intros Hs Hh Hrest. unfold WebCrawler.normalize_url.
  rewrite (urlparse_absolute _ _ _ Hs Hh Hrest).
  destruct (check_brackets (remove unsafe_url_byte h)) as [e | []];
    [reflexivity |].
  unfold normal_form, parse_after_netloc. cbn [bind ret].
  destruct (split_once "#" (remove unsafe_url_byte rest)) as [u fr].
  destruct (split_once "?" u) as [u' q].
  destruct (_ && _); [destruct (splitparams u') |]; reflexivity.
Qed.


Lemma check_brackets_plain h :
  mem "[" h = false -> mem "]" h = false -> check_brackets h = ret tt.
Proof. intros H1 H2. unfold check_brackets. now rewrite H1, H2. Qed.

End LetterCase.

(** C7 (the code departs from the claim).  [normalize_url] raises on
    [http://[]: [urlparse] finds an opening bracket without its closing
    bracket in the netloc and raises [ValueError], which
    [normalize_url] does not catch.  [is_valid_url], which calls
    [urlparse] inside [try], returns [False] on the same string;
    [crawl], which normalizes a seed before it validates it, is
    aborted by this seed. *)
Theorem normalize_url_raises_on_open_bracket :
  forall (lib : Library) (cfg : CrawlerConfig) (now : Z),
    normalize_url "http://[" = raise (ValueError "Invalid IPv6 URL")
    /\ is_valid_url cfg "http://[" None = false
    /\ crawl cfg now ["http://a.test/"; "http://["]
       = raise (ValueError "Invalid IPv6 URL").
Proof.
  intros lib cfg now. repeat split; reflexivity.
Qed.

(** * More of the crawl *)

(** ** What one event does *)

(** [fetch_url] on any crawler: the gate refuses and one is added to
    [robots_blocked], or a record comes back and the links of the page
    are queued. *)
Inductive fetch_effect `{lib : Library} (cfg : CrawlerConfig) (self : t)
    (url : string) (depth : Z) : t -> option CrawlResult -> Prop :=
| fetch_blocked :
    fetch_effect cfg self url depth
      (set_stats
         (mkStats (total_crawled (stats self)) (successful (stats self))
            (failed (stats self)) (robots_blocked (stats self) + 1)%Z
            (start_time (stats self))) self)
      None
| fetch_done tasks self' result :
    queued_more tasks self self' ->
    page_links cfg url depth self tasks ->
    fetch_effect cfg self url depth self' (Some result).

(** The events that change the state, each with what it changes. *)
Inductive transition `{lib : Library} (cfg : CrawlerConfig) (s : System)
  : Event -> System -> Prop :=
| tr_get w url depth q :
    workers s !! w = Some AtGet ->
    Queue.get (url_queue (crawler s)) = Some ((url, depth), q) ->
    transition cfg s (EvGet w)
      (mkSystem (set_url_queue q (crawler s))
         (<[w := Dequeued url depth]> (workers s)))
| tr_timeout w :
    workers s !! w = Some AtGet ->
    Queue.items (url_queue (crawler s)) = [] ->
    transition cfg s (EvGetTimeout w)
      (mkSystem (crawler s) (<[w := Exited]> (workers s)))
| tr_skip w url depth :
    workers s !! w = Some (Dequeued url depth) ->
    url ∈ visited_urls (crawler s) ->
    transition cfg s (EvResume w)
      (mkSystem (crawler s) (<[w := AtGet]> (workers s)))
| tr_visit w url depth :
    workers s !! w = Some (Dequeued url depth) ->
    url ∉ visited_urls (crawler s) ->
    transition cfg s (EvResume w)
      (mkSystem
         (set_visited_urls ({[url]} ∪ visited_urls (crawler s)) (crawler s))
         (<[w := InFetch url depth]> (workers s)))
| tr_fetch w url depth robots page now self' result :
    workers s !! w = Some (InFetch url depth) ->
    fetch_effect cfg (crawler s) url depth self' result ->
    transition cfg s (EvFetch w robots page now)
      (mkSystem self'
         (<[w := match result with
                 | Some r => InStore r
                 | None => AtGet
                 end]> (workers s)))
| tr_store w driver result :
    workers s !! w = Some (InStore result) ->
    transition cfg s (EvStore w driver)
      (mkSystem (worker_count cfg (crawler s) result).1
         (<[w := after_turn (worker_count cfg (crawler s) result).2]>
            (workers s))).

Section Transitions.
Context `{lib : Library}.
Implicit Types (cfg : CrawlerConfig) (self : t) (s : System) (ev : Event).

Lemma fetch_url_effect cfg self url depth robots page now :
  fetch_effect cfg self url depth
    (fetch_url cfg self url depth robots page now).1
    (fetch_url cfg self url depth robots page now).2.
Proof.
  rewrite fetch_url_gate.
  destruct (RobotsChecker.can_fetch _ _ _).2.
  - destruct (fetch_url_gated_allowed_spec cfg self url depth page now)
      as (tasks & self' & result & -> & Hq & Hlinks).
    eapply fetch_done; eassumption.
  - unfold fetch_url_gated. cbn [negb fst snd]. apply fetch_blocked.
Qed.

(** Every event is a transition, or finds its worker elsewhere and
    changes nothing. *)
Lemma step_transition cfg s ev :
  step cfg s ev = s \/ transition cfg s ev (step cfg s ev).
Proof.
  destruct ev as [w | w | w | w robots page now | w driver]; cbn [step].
  - destruct (workers s !! w) as [[| | | |] |] eqn:Hw; auto.
    destruct (Queue.get _) as [[[url depth] q] |] eqn:Hget; auto.
    right. eapply tr_get; eassumption.
  - destruct (workers s !! w) as [[| | | |] |] eqn:Hw; auto.
    destruct (Queue.items _) eqn:Hitems; auto.
    right. apply tr_timeout; assumption.
  - destruct (workers s !! w) as [[| url depth | | |] |] eqn:Hw; auto.
    unfold worker_resume. right. case_bool_decide.
    + eapply tr_skip; eassumption.
    + eapply tr_visit; eassumption.
  - destruct (workers s !! w) as [[| | url depth | |] |] eqn:Hw; auto.
    right.
    pose proof (fetch_url_effect cfg (crawler s) url depth robots page now)
      as Heff.
    destruct (fetch_url cfg (crawler s) url depth robots page now)
      as [self' [result |]]; cbn [fst snd] in Heff.
    + exact (tr_fetch cfg s w url depth robots page now self' (Some result)
               Hw Heff).
    + exact (tr_fetch cfg s w url depth robots page now self' None Hw Heff).
  - destruct (workers s !! w) as [[| | | result |] |] eqn:Hw; auto.
    right. unfold worker_finish. rewrite store_page_returns. cbn [ret].
    pose proof (tr_store cfg s w driver result Hw) as Htr.
    destruct (worker_count cfg (crawler s) result) as [self' ctl].
    exact Htr.
Qed.

End Transitions.

(** ** What a run accumulates *)

(** The worker has left its loop. *)
Definition is_exited (pc : Worker) : bool :=
  match pc with
  | Exited => true
  | _ => false
  end.

(** The number of workers that have left their loop. *)
Definition exited (l : list Worker) : nat :=
  length (List.filter is_exited l).

(** The URL that an event can add to [visited_urls]: that of a worker
    which resumes with a URL that is not yet there. *)
Definition first_visit `{lib : Library} (s : System) (ev : Event)
  : option string :=
  match ev with
  | EvResume w =>
      match workers s !! w with
      | Some (Dequeued url _) =>
          if bool_decide (url ∈ visited_urls (crawler s)) then None
          else Some url
      | _ => None
      end
  | _ => None
  end.

(** The URL whose fetch an event starts, read off the two states: the
    worker of the event did not await [fetch_url] before the event,
    and awaits it for this URL after it. *)
Definition starts_fetch `{lib : Library} (cfg : CrawlerConfig) (s : System)
    (ev : Event) : option string :=
  match workers s !! event_worker ev,
        workers (step cfg s ev) !! event_worker ev with
  | Some (InFetch _ _), _ => None
  | _, Some (InFetch url _) => Some url
  | _, _ => None
  end.

(** The URLs handed to [fetch_url] while the events run, in order. *)
Fixpoint fetches `{lib : Library} (cfg : CrawlerConfig) (s : System)
    (events : list Event) : list string :=
  match events with
  | [] => []
  | ev :: events =>
      match starts_fetch cfg s ev with
      | Some url => url :: fetches cfg (step cfg s ev) events
      | None => fetches cfg (step cfg s ev) events
      end
  end.

Section Accumulation.
Context `{lib : Library}.
Implicit Types (cfg : CrawlerConfig) (self : t) (s : System) (ev : Event).

(** What a transition does to the crawler: the sets and the history
    grow, the counters do not decrease. *)
Record grows self self' : Prop := {
  gr_visited : visited_urls self ⊆ visited_urls self';
  gr_queued : queued_urls self ⊆ queued_urls self';
  gr_history :
    exists tasks,
      Queue.history (url_queue self')
      = Queue.history (url_queue self) ++ tasks;
  gr_total : (total_crawled (stats self) <= total_crawled (stats self'))%Z;
  gr_successful : (successful (stats self) <= successful (stats self'))%Z;
  gr_failed : (failed (stats self) <= failed (stats self'))%Z;
  gr_blocked : (robots_blocked (stats self) <= robots_blocked (stats self'))%Z
}.

Lemma grows_refl self : grows self self.
Proof.
  split; try reflexivity. exists []. now rewrite app_nil_r.
Qed.

Lemma grows_trans self1 self2 self3 :
  grows self1 self2 -> grows self2 self3 -> grows self1 self3.
Proof.
  intros [Hv1 Hq1 [t1 Hh1] ? ? ? ?] [Hv2 Hq2 [t2 Hh2] ? ? ? ?].
  split; try lia.
  - etrans; eassumption.
  - etrans; eassumption.
  - exists (t1 ++ t2). rewrite Hh2, Hh1. now rewrite app_assoc.
Qed.

Lemma queued_more_grows tasks self self' :
  queued_more tasks self self' -> grows self self'.
Proof.
  intros [Hv Hs Hc Hq Hi Hh]. split; rewrite ?Hs; try lia.
  - now rewrite Hv.
  - rewrite Hq. set_solver.
  - eauto.
Qed.

Lemma get_history {A} (q q' : Queue.t A) (x : A) :
  Queue.get q = Some (x, q') -> Queue.history q' = Queue.history q.
Proof.
  unfold Queue.get. destruct (Queue.items q); [discriminate |].
  intros [= _ <-]. reflexivity.
Qed.

Lemma transition_grows cfg s ev s' :
  transition cfg s ev s' -> grows (crawler s) (crawler s').
Proof.
  intros [w url depth q Hw Hget | w Hw Hitems | w url depth Hw Hin
         | w url depth Hw Hnotin
         | w url depth robots page now self' result Hw Heff
         | w driver result Hw]; cbn [crawler].
  - split; try reflexivity. exists []. cbn.
    rewrite (get_history _ _ _ Hget). now rewrite app_nil_r.
  - apply grows_refl.
  - apply grows_refl.
  - split; try reflexivity; cbn; [set_solver |].
    exists []. now rewrite app_nil_r.
  - destruct Heff as [| tasks self' result Hq Hlinks].
    + split; try reflexivity; cbn; try lia.
      exists []. now rewrite app_nil_r.
    + eapply queued_more_grows; eassumption.
  - pose proof (worker_count_spec cfg (crawler s) result) as Hc.
    cbn zeta in Hc. destruct Hc as (Hv & Hqd & Hq & Hch & Htot & Hbl & Hsf).
    split; rewrite ?Hv, ?Hqd, ?Hq; try reflexivity; try lia.
    + exists []. now rewrite app_nil_r.
    + destruct (status_code result =? 200)%Z; lia.
    + destruct (status_code result =? 200)%Z; lia.
Qed.

Lemma step_grows cfg s ev : grows (crawler s) (crawler (step cfg s ev)).
Proof.
  destruct (step_transition cfg s ev) as [-> | Htr];
    [apply grows_refl | eapply transition_grows; exact Htr].
Qed.

Lemma steps_grow cfg s events :
  grows (crawler s) (crawler (fold_left (step cfg) events s)).
Proof.
  revert s. induction events as [| ev events IH]; intros s; cbn [fold_left];
    [apply grows_refl |].
  eapply grows_trans; [apply step_grows | apply IH].
Qed.

(** The start of a fetch puts the URL in [visited_urls]; nothing else
    changes this set. *)
Lemma step_visited cfg s ev :
  visited_urls (crawler (step cfg s ev))
  = match first_visit s ev with
    | Some url => {[url]} ∪ visited_urls (crawler s)
    | None => visited_urls (crawler s)
    end.
Proof.
  assert (Hother : (forall w, ev <> EvResume w) ->
                   visited_urls (crawler (step cfg s ev))
                   = visited_urls (crawler s)).
  { intros Hne.
    destruct (step_transition cfg s ev) as [-> | Htr]; [reflexivity |].
    destruct Htr as [w url depth q Hw Hget | w Hw Hitems | w url depth Hw Hin
         | w url depth Hw Hnotin
         | w url depth robots page now self' result Hw Heff
         | w driver result Hw]; cbn [crawler]; try reflexivity;
      try (exfalso; eapply Hne; reflexivity).
    - destruct Heff as [| tasks self' result Hq Hlinks]; [reflexivity |].
      apply Hq.
    - apply (worker_count_spec cfg (crawler s) result). }
  destruct ev as [w | w | w | w robots page now | w driver];
    cbn [first_visit]; try (apply Hother; discriminate).
  cbn [step].
  destruct (workers s !! w) as [[| url depth | | |] |]; try reflexivity.
  unfold worker_resume. case_bool_decide; reflexivity.
Qed.

Lemma first_visit_fresh s ev url :
  first_visit s ev = Some url -> url ∉ visited_urls (crawler s).
Proof.
  destruct ev; try discriminate. cbn [first_visit].
  destruct (workers s !! w) as [[| u depth | | |] |]; try discriminate.
  case_bool_decide; [discriminate |]. intros [= <-]. assumption.
Qed.

(** A worker comes to await [fetch_url] only where it resumes with a
    URL that the test of line 264 lets through. *)
Lemma starts_fetch_first_visit cfg s ev :
  starts_fetch cfg s ev = first_visit s ev.
Proof.
  unfold starts_fetch.
  assert (Hat : forall w pc self,
             (w < length (workers s))%nat ->
             workers (mkSystem self (<[w := pc]> (workers s))) !! w
             = Some pc)
    by (intros w pc self Hlt; cbn [workers];
        now apply list_lookup_insert_eq).
  destruct ev as [w | w | w | w robots page now | w driver];
    cbn [event_worker step first_visit];
    destruct (workers s !! w) as [pc |] eqn:Hw;
    try (rewrite Hw; reflexivity);
    pose proof (lookup_lt_Some _ _ _ Hw) as Hlt;
    destruct pc as [| url depth | url depth | result |];
    rewrite ?Hw; try reflexivity.
  - destruct (Queue.get _) as [[[url depth] q] |];
      [rewrite Hat by exact Hlt | rewrite Hw]; reflexivity.
  - destruct (Queue.items _); [unfold set_worker; rewrite Hat by exact Hlt
                              | rewrite Hw]; reflexivity.
  - unfold worker_resume. case_bool_decide;
      rewrite Hat by exact Hlt; reflexivity.
  - unfold worker_finish. rewrite store_page_returns. cbn [ret].
    destruct (worker_count cfg (crawler s) result) as [self' [|]];
      rewrite Hat by exact Hlt; reflexivity.
Qed.

Lemma fetches_fresh cfg s events url :
  url ∈ fetches cfg s events -> url ∉ visited_urls (crawler s).
Proof.
  revert s. induction events as [| ev events IH]; intros s; cbn [fetches];
    [intros Hin; inversion Hin |].
  pose proof (step_visited cfg s ev) as Hv.
  rewrite starts_fetch_first_visit.
  destruct (first_visit s ev) as [u |] eqn:Hstart.
  - intros [-> | Hin]%elem_of_cons.
    + eapply first_visit_fresh; eassumption.
    + apply IH in Hin. rewrite Hv in Hin. set_solver.
  - intros Hin. apply IH in Hin. rewrite Hv in Hin. exact Hin.
Qed.

End Accumulation.

(** X1.  Whatever the state and the events, no two workers come to
    await [fetch_url] for the same URL, and none for a URL that is
    already in [visited_urls]: the test of line 264 holds back a URL
    that was queued twice. *)
Theorem each_url_fetched_at_most_once :
  forall (lib : Library) (cfg : CrawlerConfig) (s : System)
         (events : list Event),
    NoDup (fetches cfg s events)
    /\ forall url, url ∈ fetches cfg s events ->
                   url ∉ visited_urls (crawler s).
Proof.
  intros lib cfg s events. split; [| intros url; apply fetches_fresh].
  revert s. induction events as [| ev events IH]; intros s; cbn [fetches];
    [constructor |].
  destruct (starts_fetch cfg s ev) as [u |] eqn:Hstart; [| apply IH].
  constructor; [| apply IH].
  intros Hin. apply fetches_fresh in Hin.
  rewrite starts_fetch_first_visit in Hstart.
  rewrite step_visited, Hstart in Hin. set_solver.
Qed.

(** X2.  Every event leaves in place what the crawler has gathered:
    the URLs visited and queued stay, the history of the queue is
    extended at its end, and no counter decreases. *)
Theorem crawl_only_accumulates :
  forall (lib : Library) (cfg : CrawlerConfig) (s : System)
         (events : list Event),
    let s' := fold_left (step cfg) events s in
    visited_urls (crawler s) ⊆ visited_urls (crawler s')
    /\ queued_urls (crawler s) ⊆ queued_urls (crawler s')
    /\ (exists tasks,
           Queue.history (url_queue (crawler s'))
           = Queue.history (url_queue (crawler s)) ++ tasks)
    /\ (total_crawled (stats (crawler s))
        <= total_crawled (stats (crawler s')))%Z
    /\ (successful (stats (crawler s))
        <= successful (stats (crawler s')))%Z
    /\ (failed (stats (crawler s)) <= failed (stats (crawler s')))%Z
    /\ (robots_blocked (stats (crawler s))
        <= robots_blocked (stats (crawler s')))%Z.
Proof.
  intros lib cfg s events s'. subst s'.
  destruct (steps_grow cfg s events). repeat split; assumption.
Qed.

(** ** The page budget *)

Section Budget.
Context `{lib : Library}.
Implicit Types (cfg : CrawlerConfig) (self : t) (s : System) (ev : Event).

Lemma exited_insert (l : list Worker) (w : nat) (old new : Worker) :
  l !! w = Some old ->
  (exited (<[w := new]> l) + Nat.b2n (is_exited old)
   = exited l + Nat.b2n (is_exited new))%nat.
Proof.
  revert w. induction l as [| pc l IH]; intros [| w] Hw; try discriminate.
  - injection Hw as ->.
    change (<[0%nat := new]> (old :: l)) with (new :: l).
    unfold exited. cbn [List.filter].
    destruct (is_exited old), (is_exited new); cbn; lia.
  - specialize (IH w Hw).
    change (<[S w := new]> (pc :: l)) with (pc :: <[w := new]> l).
    unfold exited in *. cbn [List.filter].
    destruct (is_exited pc); cbn [length]; lia.
Qed.

Lemma exited_le_length (l : list Worker) : (exited l <= length l)%nat.
Proof.
  unfold exited. induction l as [| pc l IH]; cbn; [lia |].
  destruct (is_exited pc); cbn; lia.
Qed.

(** With a positive budget, the pages counted beyond [max_pages - 1]
    are at most as many as the workers that have left. *)
Definition within_budget cfg s : Prop :=
  (0 < max_pages cfg)%Z ->
  (total_crawled (stats (crawler s))
   <= max_pages cfg - 1 + Z.of_nat (exited (workers s)))%Z.

Lemma transition_within_budget cfg s ev s' :
  transition cfg s ev s' -> within_budget cfg s -> within_budget cfg s'.
Proof.
  unfold within_budget.
  intros [w url depth q Hw Hget | w Hw Hitems | w url depth Hw Hin
         | w url depth Hw Hnotin
         | w url depth robots page now self' result Hw Heff
         | w driver result Hw] HJ Hpos; specialize (HJ Hpos);
    cbn [crawler workers].
  - pose proof (exited_insert _ _ _ (Dequeued url depth) Hw) as He.
    cbn in He. cbn. lia.
  - pose proof (exited_insert _ _ _ Exited Hw) as He. cbn in He. lia.
  - pose proof (exited_insert _ _ _ AtGet Hw) as He. cbn in He. lia.
  - pose proof (exited_insert _ _ _ (InFetch url depth) Hw) as He.
    cbn in He. cbn. lia.
  - assert (Htot : total_crawled (stats self')
                   = total_crawled (stats (crawler s))).
    { destruct Heff as [| tasks self' result Hq Hlinks]; [reflexivity |].
      destruct Hq as [_ Hs _ _ _ _]. now rewrite Hs. }
    rewrite Htot.
    assert (He : (exited (<[w := match result with
                                 | Some r => InStore r
                                 | None => AtGet
                                 end]> (workers s))
                  = exited (workers s))%nat).
    { pose proof (exited_insert _ _ _
                    (match result with
                     | Some r => InStore r
                     | None => AtGet
                     end) Hw) as He.
      destruct result; cbn in He; lia. }
    rewrite He. exact HJ.
  - pose proof (worker_count_spec cfg (crawler s) result) as Hc.
    cbn zeta in Hc. destruct Hc as (_ & _ & _ & _ & Htot & _).
    pose proof (worker_count_ctl cfg (crawler s) result) as Hctl.
    pose proof (exited_insert _ _ _
                  (after_turn (worker_count cfg (crawler s) result).2) Hw)
      as He.
    destruct (worker_count cfg (crawler s) result) as [self' ctl].
    cbn [fst snd] in *. destruct ctl; cbn [after_turn]; cbn in He.
    + assert (Hno : ~ ((0 < max_pages cfg)%Z
                       /\ (max_pages cfg <= total_crawled (stats self'))%Z)).
      { intros Hb. apply Hctl in Hb. discriminate. }
      lia.
    + lia.
Qed.

Lemma step_length cfg s ev :
  length (workers (step cfg s ev)) = length (workers s).
Proof.
  destruct (step_transition cfg s ev) as [-> | Htr]; [reflexivity |].
  destruct Htr; cbn [workers]; apply length_insert.
Qed.

Lemma steps_within_budget cfg s events :
  within_budget cfg s ->
  within_budget cfg (fold_left (step cfg) events s)
  /\ length (workers (fold_left (step cfg) events s)) = length (workers s).
Proof.
  revert s. induction events as [| ev events IH]; intros s HJ;
    cbn [fold_left]; [auto |].
  destruct (IH (step cfg s ev)) as [HJ' Hlen].
  - destruct (step_transition cfg s ev) as [-> | Htr]; [exact HJ |].
    eapply transition_within_budget; eassumption.
  - split; [exact HJ' |]. rewrite Hlen. apply step_length.
Qed.

(** The counter of refused URLs does not move in a crawler whose
    robots cache is empty. *)
Lemma step_robots_blocked cfg s ev :
  RobotsChecker.robots_cache (robots_checker (crawler s)) = ∅ ->
  robots_blocked (stats (crawler (step cfg s ev)))
  = robots_blocked (stats (crawler s)).
Proof.
  intros Hcache.
  destruct ev as [w | w | w | w robots page now | w driver]; cbn [step].
  - destruct (workers s !! w) as [[| | | |] |]; try reflexivity.
    destruct (Queue.get _) as [[[url depth] q] |]; reflexivity.
  - destruct (workers s !! w) as [[| | | |] |]; try reflexivity.
    destruct (Queue.items _); reflexivity.
  - destruct (workers s !! w) as [[| url depth | | |] |]; try reflexivity.
    unfold worker_resume. case_bool_decide; reflexivity.
  - destruct (workers s !! w) as [[| | url depth | |] |]; try reflexivity.
    rewrite (fetch_url_allowed _ _ _ _ _ _ _ Hcache).
    destruct (fetch_url_gated_allowed_spec cfg (crawler s) url depth page now)
      as (tasks & self' & result & -> & Hq & _).
    cbn [crawler]. destruct Hq as [_ Hs _ _ _ _]. now rewrite Hs.
  - destruct (workers s !! w) as [[| | | result |] |]; try reflexivity.
    unfold worker_finish. rewrite store_page_returns. cbn [ret].
    pose proof (worker_count_spec cfg (crawler s) result) as Hc.
    destruct (worker_count cfg (crawler s) result) as [self' ctl].
    cbn in Hc. cbn [crawler]. apply Hc.
Qed.

(** What an event adds to the history of the queue: nothing, or the
    links of the page that one of the workers was fetching. *)
Lemma step_history_links cfg s ev :
  exists tasks,
    Queue.history (url_queue (crawler (step cfg s ev)))
    = Queue.history (url_queue (crawler s)) ++ tasks
    /\ (tasks = []
        \/ exists w url depth,
             workers s !! w = Some (InFetch url depth)
             /\ page_links cfg url depth (crawler s) tasks).
Proof.
  destruct (step_transition cfg s ev) as [-> | Htr];
    [exists []; rewrite app_nil_r; auto |].
  destruct Htr as [w url depth q Hw Hget | w Hw Hitems | w url depth Hw Hin
         | w url depth Hw Hnotin
         | w url depth robots page now self' result Hw Heff
         | w driver result Hw]; cbn [crawler];
    try (exists []; rewrite app_nil_r; split; [reflexivity | auto]).
  - exists []. rewrite app_nil_r. cbn.
    rewrite (get_history _ _ _ Hget). auto.
  - destruct Heff as [| tasks self' result Hq Hlinks].
    + exists []. rewrite app_nil_r. auto.
    + exists tasks. split; [apply Hq |]. right. eauto.
  - exists []. rewrite app_nil_r.
    destruct (worker_count_spec cfg (crawler s) result)
      as (_ & _ & Hq & _).
    rewrite Hq. auto.
Qed.

Lemma is_valid_url_without_base cfg url base_domain :
  is_valid_url cfg url base_domain = true ->
  is_valid_url cfg url None = true.
Proof.
  unfold is_valid_url.
  destruct (urlparse url) as [e | parsed]; [trivial |].
  destruct (negb (truthy (scheme parsed)) || negb (truthy (netloc parsed)));
    [trivial |].
  destruct (negb (in_list (scheme parsed) ["http"; "https"])); [trivial |].
  destruct base_domain as [base |]; [| trivial].
  destruct (truthy base && stay_in_domain cfg && _); [discriminate | trivial].
Qed.

Lemma existsb_false {A} (f : A -> bool) (l : list A) :
  existsb f l = false -> Forall (fun x => f x = false) l.
Proof.
  induction l as [| x l IH]; cbn; [constructor |].
  intros [Hx Hl]%orb_false_iff. constructor; auto.
Qed.

(** What a URL is like that [is_valid_url] accepts. *)
Lemma is_valid_url_inv cfg url base_domain :
  is_valid_url cfg url base_domain = true ->
  exists parsed,
    urlparse url = inr parsed
    /\ (scheme parsed = "http" \/ scheme parsed = "https")
    /\ netloc parsed <> ""
    /\ Forall (fun ext => endswith ext (lower (path parsed)) = false)
         skip_extensions.
Proof.
  intros Hvalid. apply is_valid_url_without_base in Hvalid.
  unfold is_valid_url in Hvalid.
  destruct (urlparse url) as [e | parsed]; [discriminate |].
  exists parsed. split; [reflexivity |].
  destruct (truthy (scheme parsed)); cbn [negb orb] in Hvalid;
    [| discriminate].
  destruct (truthy (netloc parsed)) eqn:Hnetloc; cbn [negb orb] in Hvalid;
    [| discriminate].
  destruct (in_list (scheme parsed) ["http"; "https"]) eqn:Hscheme;
    cbn [negb] in Hvalid; [| discriminate].
  destruct (existsb _ skip_extensions) eqn:Hext; [discriminate |].
  split; [| split].
  - unfold in_list in Hscheme. cbn [existsb] in Hscheme.
    apply orb_true_iff in Hscheme as [H1 | H2].
    + left. now apply String.eqb_eq.
    + right. rewrite orb_false_r in H2. now apply String.eqb_eq.
  - intros Hempty. rewrite Hempty in Hnetloc. discriminate.
  - apply existsb_false in Hext. exact Hext.
Qed.

End Budget.

(** X3.  With a positive page budget the crawl counts at most
    [max_workers - 1] pages beyond [max_pages]: the test of line 292
    stops the worker that makes it, and each of the others can still
    count the page it is fetching.  A single worker never exceeds the
    budget. *)
Theorem page_budget_overshoot_bounded :
  forall (lib : Library) (cfg : CrawlerConfig) (now : Z)
         (seed_urls : list string) (events : list Event) (s : System),
    (0 < max_pages cfg)%Z ->
    (0 <= max_workers cfg)%Z ->
    run cfg now seed_urls events = inr s ->
    (total_crawled (stats (crawler s))
     <= max_pages cfg + max_workers cfg - 1)%Z.
Proof.
  intros lib cfg now seed_urls events s Hpages Hworkers. unfold run.
  destruct (crawl cfg now seed_urls) as [e | s0] eqn:Hcrawl; cbn [bind];
    [discriminate |].
  intros [= <-].
  apply crawl_spec in Hcrawl as (tasks & Hq & _ & Hw).
  destruct (steps_within_budget cfg s0 events) as [HJ Hlen].
  - intros _. destruct Hq as [_ Hs _ _ _ _]. rewrite Hs. cbn. lia.
  - specialize (HJ Hpages).
    pose proof (exited_le_length
                  (workers (fold_left (step cfg) events s0))) as Hle.
    rewrite Hlen, Hw, length_replicate in Hle. lia.
Qed.

(** Two workers, each with a page in flight when the budget of one
    page is reached. *)
Definition two_workers_crawl : list Event :=
  [EvGet 0; EvResume 0; EvGet 1; EvResume 1;
   EvFetch 0 (RobotsChecker.RobotsRaised TimeoutError)
     (GetRaised TimeoutError) 7%Z;
   EvFetch 1 (RobotsChecker.RobotsRaised TimeoutError)
     (GetRaised TimeoutError) 8%Z;
   EvStore 0 (inr tt); EvStore 1 (inr tt)].

(** X3 with two workers and a budget of one page: two pages are
    counted, which is the bound. *)
Lemma page_budget_overshoot_bounded_witness :
  let cfg := mkConfig 1 1 2 true in
  let s :=
    state_of (run (lib := plain_library) cfg 0%Z
                ["https://a.test/"; "https://a.test/b"] two_workers_crawl) in
  total_crawled (stats (crawler s)) = 2%Z
  /\ (total_crawled (stats (crawler s))
      <= max_pages cfg + max_workers cfg - 1)%Z.
Proof.
  cbv zeta. split; [vm_compute; reflexivity |].
  apply (page_budget_overshoot_bounded plain_library (mkConfig 1 1 2 true)
           0%Z ["https://a.test/"; "https://a.test/b"] two_workers_crawl
           (state_of (run (lib := plain_library) (mkConfig 1 1 2 true) 0%Z
                        ["https://a.test/"; "https://a.test/b"]
                        two_workers_crawl))).
  - vm_compute. reflexivity.
  - vm_compute. discriminate.
  - apply returned_state. vm_compute. reflexivity.
Defined.


(** X4.  In every state of every run [robots_blocked] is 0, and
    [fetch_url] returns a record for every URL: as the robots cache
    stays empty, no URL is ever refused on behalf of robots.txt. *)
Theorem robots_never_block :
  forall (lib : Library) (cfg : CrawlerConfig) (now : Z)
         (seed_urls : list string) (events : list Event) (s : System),
    run cfg now seed_urls events = inr s ->
    robots_blocked (stats (crawler s)) = 0%Z
    /\ forall (url : string) (depth : Z)
              (robots : RobotsChecker.RobotsFetch) (page : PageFetch)
              (clock : Z),
         exists result,
           (fetch_url cfg (crawler s) url depth robots page clock).2
           = Some result.
Proof.
  intros lib cfg now seed_urls events s Hrun.
  pose proof (run_inv cfg any_task now seed_urls events s) as HI.
  specialize (HI ltac:(unfold any_task; auto) ltac:(unfold any_task; auto)
                Hrun).
  split.
  - unfold run in Hrun.
    destruct (crawl cfg now seed_urls) as [e | s0] eqn:Hcrawl; cbn [bind] in Hrun;
      [discriminate |].
    injection Hrun as <-.
    assert (HI0 : Inv any_task s0).
    { apply (run_inv cfg any_task now seed_urls []);
        [unfold any_task; auto .. |].
      unfold run. rewrite Hcrawl. reflexivity. }
    assert (H0 : robots_blocked (stats (crawler s0)) = 0%Z).
    { apply crawl_spec in Hcrawl as (tasks & Hq & _).
      destruct Hq as [_ Hs _ _ _ _]. rewrite Hs. reflexivity. }
    clear HI Hcrawl. revert s0 HI0 H0.
    induction events as [| ev events IH]; intros s0 HI0 H0; cbn [fold_left];
      [exact H0 |].
    apply IH.
    + apply (step_inv cfg any_task); [unfold any_task; auto | exact HI0].
    + rewrite step_robots_blocked; [exact H0 | apply HI0].
  - intros url depth robots page clock.
    rewrite (fetch_url_allowed _ _ _ _ _ _ _ (inv_cache _ _ HI)).
    destruct (fetch_url_gated_allowed_spec cfg (crawler s) url depth page clock)
      as (tasks & self' & result & -> & _).
    eauto.
Qed.

Lemma robots_never_block_witness :
  let s :=
    state_of (run (lib := plain_library) sample_config 0%Z ["https://a.test/"]
                sample_crawled) in
  robots_blocked (stats (crawler s)) = 0%Z.
Proof.
  cbv zeta.
  refine (proj1 (robots_never_block plain_library sample_config 0%Z
                   ["https://a.test/"] sample_crawled
                   (state_of (run (lib := plain_library) sample_config 0%Z
                                ["https://a.test/"] sample_crawled)) _)).
  apply returned_state. vm_compute. reflexivity.
Defined.


(** X5.  Every URL ever put on the queue parses, has the scheme
    [http] or [https] and a netloc, and a path that ends, letter case
    apart, in none of the extensions of [skip_extensions]. *)
Theorem only_valid_urls_queued :
  forall (lib : Library) (cfg : CrawlerConfig) (now : Z)
         (seed_urls : list string) (events : list Event) (s : System)
         (task : string * Z),
    run cfg now seed_urls events = inr s ->
    task ∈ Queue.history (url_queue (crawler s)) ->
    exists parsed,
      urlparse task.1 = inr parsed
      /\ (scheme parsed = "http" \/ scheme parsed = "https")
      /\ netloc parsed <> ""
      /\ Forall (fun ext => endswith ext (lower (path parsed)) = false)
           skip_extensions.
Proof.
  intros lib cfg now seed_urls events s task Hrun Hin.
  apply (run_inv cfg (fun task => is_valid_url cfg task.1 None = true))
    in Hrun.
  - destruct Hrun as [_ _ _ _ _ HP]. rewrite Forall_forall in HP.
    eapply is_valid_url_inv. exact (HP task Hin).
  - cbn. intros u d base_domain link _ _ _ Hvalid.
    eapply is_valid_url_without_base. exact Hvalid.
  - intros task' (_ & Hvalid & _). exact Hvalid.
Qed.

Lemma only_valid_urls_queued_witness :
  exists parsed,
    urlparse (lib := plain_library) ("https://a.test/x", 1%Z).1 = inr parsed
    /\ (scheme parsed = "http" \/ scheme parsed = "https")
    /\ netloc parsed <> ""
    /\ Forall (fun ext => endswith ext (lower (path parsed)) = false)
         skip_extensions.
Proof.
  apply (only_valid_urls_queued plain_library sample_config 0%Z
           ["https://a.test/"] sample_crawled
           (state_of (run (lib := plain_library) sample_config 0%Z
                        ["https://a.test/"] sample_crawled))).
  - apply returned_state. vm_compute. reflexivity.
  - vm_compute. right. left.
Defined.


(** X6.  When [max_depth] is 0 or less, the crawl follows no link:
    what the queue ever holds is what [crawl] put there for the
    seeds. *)
Theorem no_link_followed_without_depth :
  forall (lib : Library) (cfg : CrawlerConfig) (now : Z)
         (seed_urls : list string) (events : list Event) (s0 s : System),
    (max_depth cfg <= 0)%Z ->
    crawl cfg now seed_urls = inr s0 ->
    run cfg now seed_urls events = inr s ->
    Queue.history (url_queue (crawler s))
    = Queue.history (url_queue (crawler s0)).
Proof.
  intros lib cfg now seed_urls events s0 s Hmax Hcrawl Hrun.
  set (P := fun task : string * Z => (0 <= task.2)%Z).
  assert (Hadmit : forall (u : string) (d : Z) (base_domain : option string)
                          (link : string),
             P (u, d) -> (d < max_depth cfg)%Z ->
             base_domain_of cfg u = inr base_domain ->
             is_valid_url cfg link base_domain = true ->
             P (link, (d + 1)%Z))
    by (unfold P; cbn; intros; lia).
  assert (HI0 : Inv P s0).
  { apply (run_inv cfg P now seed_urls []); [exact Hadmit | |].
    - intros task (Hd & _). unfold P. rewrite Hd. lia.
    - unfold run. rewrite Hcrawl. reflexivity. }
  unfold run in Hrun. rewrite Hcrawl in Hrun. cbn [bind] in Hrun.
  injection Hrun as <-. clear Hcrawl.
  revert s0 HI0. induction events as [| ev events IH]; intros s0 HI0;
    cbn [fold_left]; [reflexivity |].
  rewrite IH by (apply (step_inv cfg P); assumption).
  destruct (step_history_links cfg s0 ev) as (tasks & -> & Hcase).
  destruct Hcase as [-> | (w & url & depth & Hw & Hlinks)];
    [apply app_nil_r |].
  destruct Hlinks as [-> | (Hdepth & _)]; [apply app_nil_r |].
  exfalso.
  assert (Hin : (url, depth) ∈ Queue.history (url_queue (crawler s0))).
  { apply (inv_workers _ _ HI0 w (InFetch url depth)); [exact Hw |].
    right. reflexivity. }
  destruct HI0 as [_ _ _ _ _ HP]. rewrite Forall_forall in HP.
  specialize (HP _ Hin). unfold P in HP. cbn in HP. lia.
Qed.

Lemma no_link_followed_without_depth_witness :
  let cfg := mkConfig 0 1000 1 true in
  Queue.history
    (url_queue
       (crawler (state_of (run (lib := plain_library) cfg 0%Z
                             ["https://a.test/"] sample_crawled))))
  = Queue.history
      (url_queue
         (crawler (state_of (crawl (lib := plain_library) cfg 0%Z
                               ["https://a.test/"])))).
Proof.
  cbv zeta.
  apply (no_link_followed_without_depth plain_library
           (mkConfig 0 1000 1 true) 0%Z ["https://a.test/"] sample_crawled).
  - vm_compute. discriminate.
  - apply returned_state. vm_compute. reflexivity.
  - apply returned_state. vm_compute. reflexivity.
Defined.


(** ** Visits and counts *)

(** The worker is between the start of a fetch and the count of its
    page: it awaits [fetch_url] or [store_page]. *)
Definition is_in_flight (pc : Worker) : bool :=
  match pc with
  | InFetch _ _ | InStore _ => true
  | _ => false
  end.

Definition in_flight (l : list Worker) : nat :=
  length (List.filter is_in_flight l).

(** The number of visited URLs is the number of pages counted and of
    pages in flight. *)
Definition balanced `{lib : Library} (s : System) : Prop :=
  Z.of_nat (size (visited_urls (crawler s)))
  = (total_crawled (stats (crawler s)) + Z.of_nat (in_flight (workers s)))%Z.

(** Every visited URL has been on the queue. *)
Definition visited_queued `{lib : Library} (s : System) : Prop :=
  forall url, url ∈ visited_urls (crawler s) ->
    exists depth, (url, depth) ∈ Queue.history (url_queue (crawler s)).

Section Visits.
Context `{lib : Library}.
Implicit Types (cfg : CrawlerConfig) (self : t) (s : System) (ev : Event).

Lemma filter_length_insert (p : Worker -> bool) (l : list Worker) (w : nat)
    (old new : Worker) :
  l !! w = Some old ->
  (length (List.filter p (<[w := new]> l)) + Nat.b2n (p old)
   = length (List.filter p l) + Nat.b2n (p new))%nat.
Proof.
  revert w. induction l as [| pc l IH]; intros [| w] Hw; try discriminate.
  - injection Hw as ->.
    change (<[0%nat := new]> (old :: l)) with (new :: l).
    cbn [List.filter]. destruct (p old), (p new); cbn; lia.
  - specialize (IH w Hw).
    change (<[S w := new]> (pc :: l)) with (pc :: <[w := new]> l).
    cbn [List.filter]. destruct (p pc); cbn [length]; lia.
Qed.

Lemma in_flight_replicate (n : nat) : in_flight (replicate n AtGet) = 0%nat.
Proof. induction n as [| n IH]; [reflexivity | exact IH]. Qed.

(** Induction on a run, with its invariant at hand. *)
Lemma run_ind cfg (Q : System -> Prop) now seed_urls events s :
  (forall s0, crawl cfg now seed_urls = inr s0 -> Q s0) ->
  (forall s ev, Inv any_task s -> Q s -> Q (step cfg s ev)) ->
  run cfg now seed_urls events = inr s ->
  Q s.
Proof.
  intros Hstart Hstep. unfold run.
  destruct (crawl cfg now seed_urls) as [e | s0] eqn:Hcrawl; cbn [bind];
    [discriminate |].
  intros [= <-].
  assert (HI0 : Inv any_task s0).
  { apply (run_inv cfg any_task now seed_urls []);
      [unfold any_task; auto .. |].
    unfold run. rewrite Hcrawl. reflexivity. }
  specialize (Hstart s0 eq_refl). clear Hcrawl. revert s0 HI0 Hstart.
  induction events as [| ev events IH]; intros s0 HI0 HQ; cbn [fold_left];
    [exact HQ |].
  apply IH; [| apply Hstep; assumption].
  apply (step_inv cfg any_task); [unfold any_task; auto | exact HI0].
Qed.

Lemma step_balanced cfg s ev :
  RobotsChecker.robots_cache (robots_checker (crawler s)) = ∅ ->
  balanced s -> balanced (step cfg s ev).
Proof.
  intros Hcache Hbal. unfold balanced, in_flight in *.
  pose proof (step_robots_blocked cfg s ev Hcache) as Hb.
  destruct (step_transition cfg s ev) as [Hsame | Htr];
    [rewrite Hsame; exact Hbal |].
  revert Hb.
  destruct Htr as [w url depth q Hw Hget | w Hw Hitems | w url depth Hw Hin
         | w url depth Hw Hnotin
         | w url depth robots page now self' result Hw Heff
         | w driver result Hw]; cbn [crawler workers]; intros Hb.
  - pose proof (filter_length_insert is_in_flight _ _ _
                  (Dequeued url depth) Hw) as He.
    cbn [is_in_flight Nat.b2n] in He.
    change (visited_urls (set_url_queue q (crawler s)))
      with (visited_urls (crawler s)).
    change (stats (set_url_queue q (crawler s))) with (stats (crawler s)).
    lia.
  - pose proof (filter_length_insert is_in_flight _ _ _ Exited Hw) as He.
    cbn [is_in_flight Nat.b2n] in He. lia.
  - pose proof (filter_length_insert is_in_flight _ _ _ AtGet Hw) as He.
    cbn [is_in_flight Nat.b2n] in He. lia.
  - pose proof (filter_length_insert is_in_flight _ _ _
                  (InFetch url depth) Hw) as He.
    cbn [is_in_flight Nat.b2n] in He.
    change (visited_urls (set_visited_urls _ (crawler s)))
      with ({[url]} ∪ visited_urls (crawler s)).
    change (stats (set_visited_urls ({[url]} ∪ visited_urls (crawler s))
                     (crawler s)))
      with (stats (crawler s)).
    rewrite size_union by set_solver. rewrite size_singleton. lia.
  - destruct Heff as [| tasks self' result Hq Hlinks].
    + cbn in Hb. lia.
    + pose proof (filter_length_insert is_in_flight _ _ _
                    (InStore result) Hw) as He.
      cbn [is_in_flight Nat.b2n] in He.
      destruct Hq as [Hv Hs _ _ _ _]. rewrite Hv, Hs. lia.
  - pose proof (worker_count_spec cfg (crawler s) result) as Hc.
    cbn zeta in Hc. destruct Hc as (Hv & _ & _ & _ & Htot & _).
    pose proof (filter_length_insert is_in_flight _ _ _
                  (after_turn (worker_count cfg (crawler s) result).2) Hw)
      as He.
    rewrite Hv, Htot.
    destruct ((worker_count cfg (crawler s) result).2);
      cbn [after_turn is_in_flight Nat.b2n] in He |- *; lia.
Qed.

Lemma first_visit_worker s ev url :
  first_visit s ev = Some url ->
  exists w depth, workers s !! w = Some (Dequeued url depth).
Proof.
  destruct ev; try discriminate. cbn [first_visit].
  destruct (workers s !! w) as [[| u depth | | |] |] eqn:Hw;
    try discriminate.
  case_bool_decide; [discriminate |]. intros [= <-]. eauto.
Qed.

Lemma step_visited_queued cfg s ev :
  Inv any_task s -> visited_queued s -> visited_queued (step cfg s ev).
Proof.
  intros HI HV url. rewrite step_visited.
  destruct (step_grows cfg s ev) as [_ _ [tasks Hh] _ _ _ _]. rewrite Hh.
  assert (Hold : url ∈ visited_urls (crawler s) ->
                 exists depth,
                   (url, depth) ∈ Queue.history (url_queue (crawler s)) ++ tasks).
  { intros Hin. destruct (HV url Hin) as [depth Hd].
    exists depth. apply elem_of_app. auto. }
  destruct (first_visit s ev) as [u |] eqn:Hstart; [| exact Hold].
  intros [->%elem_of_singleton | Hin]%elem_of_union; [| auto].
  destruct (first_visit_worker _ _ _ Hstart) as (w & depth & Hw).
  exists depth. apply elem_of_app. left.
  apply (inv_workers _ _ HI w (Dequeued u depth)); [exact Hw |].
  left. reflexivity.
Qed.

Lemma truthy_lower (x : string) : truthy (lower x) = truthy x.
Proof. destruct x; reflexivity. Qed.

End Visits.

(** X7.  Every URL in [visited_urls] has been put on the queue, and
    is in [queued_urls]: a worker visits what it took from the queue,
    and nothing else. *)
Theorem visited_urls_were_queued :
  forall (lib : Library) (cfg : CrawlerConfig) (now : Z)
         (seed_urls : list string) (events : list Event) (s : System)
         (url : string),
    run cfg now seed_urls events = inr s ->
    url ∈ visited_urls (crawler s) ->
    url ∈ queued_urls (crawler s)
    /\ exists depth, (url, depth) ∈ Queue.history (url_queue (crawler s)).
Proof.
  intros lib cfg now seed_urls events s url Hrun Hin.
  assert (HV : visited_queued s).
  { apply (run_ind cfg visited_queued now seed_urls events s);
      [| apply step_visited_queued | exact Hrun].
    intros s0 (tasks & Hq & _)%crawl_spec u.
    destruct Hq as [Hv _ _ _ _ _]. rewrite Hv. cbn. set_solver. }
  destruct (HV url Hin) as [depth Hd]. split; [| eauto].
  apply (run_inv cfg any_task) in Hrun; [| unfold any_task; auto ..].
  apply (inv_queued _ _ Hrun (url, depth) Hd).
Qed.

Lemma visited_urls_were_queued_witness :
  let s :=
    state_of (run (lib := plain_library) sample_config 0%Z ["https://a.test/"]
                sample_crawled) in
  "https://a.test/" ∈ queued_urls (crawler s)
  /\ exists depth,
       ("https://a.test/", depth) ∈ Queue.history (url_queue (crawler s)).
Proof.
  cbv zeta.
  apply (visited_urls_were_queued plain_library sample_config 0%Z
           ["https://a.test/"] sample_crawled
           (state_of (run (lib := plain_library) sample_config 0%Z
                        ["https://a.test/"] sample_crawled))).
  - apply returned_state. vm_compute. reflexivity.
  - apply (bool_decide_unpack _). vm_compute. exact I.
Defined.

(** X8.  In every state of every run the number of URLs in
    [visited_urls] is [total_crawled] plus the number of workers that
    await [fetch_url] or [store_page]: each visit is counted once, when
    its record has been stored.  When no worker is in flight, as at the
    end of the crawl, [total_crawled] is the number of visited URLs. *)
Theorem counted_pages_are_visits :
  forall (lib : Library) (cfg : CrawlerConfig) (now : Z)
         (seed_urls : list string) (events : list Event) (s : System),
    run cfg now seed_urls events = inr s ->
    Z.of_nat (size (visited_urls (crawler s)))
    = (total_crawled (stats (crawler s)) + Z.of_nat (in_flight (workers s)))%Z
    /\ (Forall (fun pc => is_in_flight pc = false) (workers s) ->
        total_crawled (stats (crawler s))
        = Z.of_nat (size (visited_urls (crawler s)))).
Proof.
  intros lib cfg now seed_urls events s Hrun.
  assert (Hbal : balanced s).
  { apply (run_ind cfg balanced now seed_urls events s);
      [| intros s1 ev HI; apply step_balanced, HI | exact Hrun].
    intros s0 (tasks & Hq & _ & Hw)%crawl_spec. unfold balanced.
    destruct Hq as [Hv Hs _ _ _ _].
    rewrite Hv, Hs, Hw, in_flight_replicate. cbn.
    rewrite size_empty. reflexivity. }
  unfold balanced in Hbal. split; [exact Hbal |].
  intros Hnone. rewrite Hbal.
  assert (H0 : in_flight (workers s) = 0%nat).
  { clear Hbal. unfold in_flight.
    induction Hnone as [| pc l Hpc _ IH]; [reflexivity |].
    cbn [List.filter]. rewrite Hpc. exact IH. }
  rewrite H0. lia.
Qed.

Lemma counted_pages_are_visits_witness :
  let s :=
    state_of (run (lib := plain_library) (mkConfig 1 1 2 true) 0%Z
                ["https://a.test/"; "https://a.test/b"] two_workers_crawl) in
  total_crawled (stats (crawler s))
  = Z.of_nat (size (visited_urls (crawler s))).
Proof.
  cbv zeta.
  assert (Hrun : run (lib := plain_library) (mkConfig 1 1 2 true) 0%Z
                   ["https://a.test/"; "https://a.test/b"] two_workers_crawl
                 = inr (state_of
                          (run (lib := plain_library) (mkConfig 1 1 2 true)
                             0%Z ["https://a.test/"; "https://a.test/b"]
                             two_workers_crawl)))
    by (apply returned_state; vm_compute; reflexivity).
  apply (proj2 (counted_pages_are_visits plain_library (mkConfig 1 1 2 true)
                  0%Z ["https://a.test/"; "https://a.test/b"]
                  two_workers_crawl _ Hrun)).
  vm_compute. repeat constructor.
Defined.

(** X9.  [is_valid_url] does not look at the fragment: a URL with a
    fragment is valid exactly when the URL without it is. *)
Theorem is_valid_url_ignores_fragment :
  forall (lib : Library) (cfg : CrawlerConfig) (base f : string)
         (base_domain : option string),
    mem "#" base = false ->
    is_valid_url cfg (base +:+ String "#" f) base_domain
    = is_valid_url cfg base base_domain.
Proof.
  intros lib cfg base f base_domain Hbase. unfold is_valid_url.
  rewrite (urlparse_app_hash _ _ Hbase).
  destruct (urlparse base) as [e | parsed]; reflexivity.
Qed.

Lemma is_valid_url_ignores_fragment_witness :
  is_valid_url (lib := plain_library) sample_config "https://a.test/p#top"
    (Some "a.test")
  = is_valid_url (lib := plain_library) sample_config "https://a.test/p"
      (Some "a.test").
Proof.
  apply (is_valid_url_ignores_fragment plain_library sample_config
           "https://a.test/p" "top" (Some "a.test") eq_refl).
Defined.

(** *** Spellings that differ in the ASCII letters only *)

(** The letters A-Z in lower case, every other character as it is. *)
Definition ascii_lower_char (c : ascii) : ascii :=
  let n := nat_of_ascii c in
  if ((65 <=? n) && (n <=? 90))%nat then ascii_of_nat (n + 32) else c.

(** Two strings with the same image differ only in the case of their
    ASCII letters. *)
Fixpoint ascii_lower (s : string) : string :=
  match s with
  | EmptyString => EmptyString
  | String a s' => String (ascii_lower_char a) (ascii_lower s')
  end.

Lemma lower_char_ascii_lower (c : ascii) :
  lower_char (ascii_lower_char c) = lower_char c.
Proof. by_cases_on_char c. Qed.

Lemma lower_ascii_lower (s : string) : lower (ascii_lower s) = lower s.
Proof.
  induction s as [| a s IH]; simpl; [reflexivity |].
  now rewrite lower_char_ascii_lower, IH.
Qed.

(** What [str.lower()] makes of two such spellings is the same. *)
Lemma ascii_case_lower (s1 s2 : string) :
  ascii_lower s1 = ascii_lower s2 -> lower s1 = lower s2.
Proof.
  intros H. rewrite <- (lower_ascii_lower s1), H. apply lower_ascii_lower.
Qed.

(** X10.  [is_valid_url] gives the same answer for two URLs
    [scheme://netloc rest] that differ only in the case of the ASCII
    letters of the scheme and of a netloc without brackets. *)
Theorem is_valid_url_ignores_letter_case :
  forall (lib : Library) (cfg : CrawlerConfig)
         (s1 s2 h1 h2 rest : string) (base_domain : option string),
    is_scheme s1 = true -> is_netloc h1 = true ->
    starts_delim rest = true ->
    mem "[" h1 = false -> mem "]" h1 = false ->
    ascii_lower s1 = ascii_lower s2 -> ascii_lower h1 = ascii_lower h2 ->
    is_valid_url cfg (s1 +:+ "://" +:+ h1 +:+ rest) base_domain
    = is_valid_url cfg (s2 +:+ "://" +:+ h2 +:+ rest) base_domain.
Proof.
  intros lib cfg s1 s2 h1 h2 rest base_domain Hs1 Hh1 Hrest Hopen Hclose
    Hs Hh.
  apply ascii_case_lower in Hs. apply ascii_case_lower in Hh.
  assert (Hs2 : is_scheme s2 = true)
    by (rewrite <- is_scheme_lower, <- Hs, is_scheme_lower; exact Hs1).
  assert (Hh2 : is_netloc h2 = true)
    by (rewrite <- is_netloc_lower, <- Hh, is_netloc_lower; exact Hh1).
  assert (Hopen2 : mem "[" h2 = false)
    by (rewrite <- (mem_lower _ _ open_bracket_lower), <- Hh,
          (mem_lower _ _ open_bracket_lower); exact Hopen).
  assert (Hclose2 : mem "]" h2 = false)
    by (rewrite <- (mem_lower _ _ close_bracket_lower), <- Hh,
          (mem_lower _ _ close_bracket_lower); exact Hclose).
  assert (Hn : lower (remove unsafe_url_byte h1)
               = lower (remove unsafe_url_byte h2))
    by (rewrite !lower_remove_unsafe, Hh; reflexivity).
  assert (Ht : truthy (remove unsafe_url_byte h1)
               = truthy (remove unsafe_url_byte h2))
    by (rewrite <- truthy_lower, Hn, truthy_lower; reflexivity).
  unfold is_valid_url.
  rewrite (urlparse_absolute _ _ _ Hs1 Hh1 Hrest).
  rewrite (urlparse_absolute _ _ _ Hs2 Hh2 Hrest).
  rewrite !check_brackets_plain
    by (rewrite mem_remove by reflexivity; assumption).
  cbn [bind ret]. unfold parse_after_netloc. rewrite Hs.
  destruct (split_once "#" (remove unsafe_url_byte rest)) as [u fr].
  destruct (split_once "?" u) as [u' q].
  destruct (if in_list (lower s2) uses_params && mem ";" u'
            then splitparams u' else (u', "")) as [p pa].
  cbn [scheme netloc path]. rewrite Ht, Hn. reflexivity.
Qed.

Lemma is_valid_url_ignores_letter_case_witness :
  is_valid_url (lib := plain_library) sample_config "HTTPS://A.Test/p"
    (Some "a.test")
  = is_valid_url (lib := plain_library) sample_config "https://a.test/p"
      (Some "a.test").
Proof.
  apply (is_valid_url_ignores_letter_case plain_library sample_config
           "HTTPS" "https" "A.Test" "a.test" "/p" (Some "a.test"));
    reflexivity.
Defined.

(** ** The normal form is a fixed point *)

(** No byte that [urlsplit] removes. *)
Definition safe (s : string) : bool :=
  all (fun c => negb (unsafe_url_byte c)) s.

(** A path as it follows a netloc: nothing, or a slash first. *)
Definition slash_or_empty (s : string) : bool :=
  match s with
  | EmptyString => true
  | String c _ => Ascii.eqb c "/"
  end.

(** The path with its parameters, as [urlunparse] joins them. *)
Definition with_params (path params : string) : string :=
  if truthy params then path +:+ ";" +:+ params else path.

(** The query behind a path, as [urlunsplit] joins them. *)
Definition with_query (url query : string) : string :=
  if truthy query then url +:+ "?" +:+ query else url.

Section Substrings.
Implicit Types (a b s t u : string) (c : ascii) (i j n : nat).

Lemma find_split c s i :
  find c s = Some i -> s = take i s +:+ String c (drop (S i) s).
Proof.
  revert i. induction s as [| a s IH]; intros i; simpl; [discriminate |].
  destruct (Ascii.eqb_spec a c) as [-> | Hne].
  - intros [= <-]. reflexivity.
  - destruct (find c s) as [k |]; simpl; [| discriminate].
    intros [= <-]. simpl. f_equal. apply IH. reflexivity.
Qed.

Lemma find_take_mem c s i : find c s = Some i -> mem c (take i s) = false.
Proof.
  revert i. induction s as [| a s IH]; intros i; simpl; [discriminate |].
  destruct (Ascii.eqb a c) eqn:Ha.
  - intros [= <-]. reflexivity.
  - destruct (find c s) as [k |]; simpl; [| discriminate].
    intros [= <-]. simpl. rewrite Ha. apply IH. reflexivity.
Qed.

Lemma str_take_drop n s : take n s +:+ drop n s = s.
Proof.
  revert s. induction n as [| n IH]; intros [| a s]; simpl; try reflexivity.
  now rewrite IH.
Qed.

Lemma all_take p n s : all p s = true -> all p (take n s) = true.
Proof.
  revert s. induction n as [| n IH]; intros [| a s]; simpl; auto.
  intros [Ha Hs]%andb_true_iff. rewrite Ha. simpl. auto.
Qed.

Lemma all_drop p n s : all p s = true -> all p (drop n s) = true.
Proof.
  revert s. induction n as [| n IH]; intros [| a s]; simpl; auto.
  intros [Ha Hs]%andb_true_iff. auto.
Qed.

Lemma mem_take_false c n s : mem c s = false -> mem c (take n s) = false.
Proof.
  revert s. induction n as [| n IH]; intros [| a s]; simpl; auto.
  destruct (Ascii.eqb a c); [discriminate | auto].
Qed.

Lemma all_remove_self p s : all (fun c => negb (p c)) (remove p s) = true.
Proof.
  induction s as [| a s IH]; simpl; [reflexivity |].
  destruct (p a) eqn:Ha; simpl; [exact IH |]. now rewrite Ha.
Qed.

Lemma lower_lower s : lower (lower s) = lower s.
Proof.
  induction s as [| a s IH]; simpl; [reflexivity |].
  now rewrite lower_char_idem, IH.
Qed.

Lemma rfind_None c s : mem c s = false -> rfind c s = None.
Proof.
  induction s as [| a s IH]; simpl; [reflexivity |].
  destruct (Ascii.eqb a c); [discriminate |].
  intros Hs. now rewrite (IH Hs).
Qed.

Lemma rfind_app_absent c a b :
  mem c b = false -> rfind c (a +:+ b) = rfind c a.
Proof.
  intros Hb. induction a as [| x a IH]; simpl; [now apply rfind_None |].
  now rewrite IH.
Qed.

Lemma rfind_Some_le c s j : rfind c s = Some j -> (j < String.length s)%nat.
Proof.
  revert j. induction s as [| a s IH]; intros j; simpl; [discriminate |].
  destruct (rfind c s) as [k |].
  - intros [= <-]. specialize (IH k eq_refl). lia.
  - destruct (Ascii.eqb a c); [| discriminate]. intros [= <-]. lia.
Qed.

(** At the index that [rfind] returns stands [c], for the last time. *)
Lemma rfind_Some_drop c s j :
  rfind c s = Some j ->
  exists t, drop j s = String c t /\ mem c t = false.
Proof.
  revert j. induction s as [| a s IH]; intros j; simpl; [discriminate |].
  destruct (rfind c s) as [k |] eqn:Hk.
  - intros [= <-]. simpl. apply IH. reflexivity.
  - destruct (Ascii.eqb_spec a c) as [-> | Hne]; [| discriminate].
    intros [= <-]. simpl. exists s. split; [reflexivity |].
    destruct (mem c s) eqn:Hm; [| reflexivity].
    exfalso. clear IH. induction s as [| x s IH]; simpl in *;
      [discriminate |].
    destruct (rfind c s) as [k |]; [discriminate |].
    destruct (Ascii.eqb x c); [discriminate |]. apply IH; [reflexivity |].
    exact Hm.
Qed.

Lemma mem_rfind c s : mem c s = true -> exists j, rfind c s = Some j.
Proof.
  induction s as [| a s IH]; simpl; [discriminate |].
  destruct (rfind c s) as [k |]; [eauto |].
  destruct (Ascii.eqb a c); [eauto |]. intros Hs.
  destruct (IH Hs) as [j Hj]. discriminate.
Qed.

Lemma span_netloc_spec t :
  t = (span_netloc t).1 +:+ (span_netloc t).2
  /\ is_netloc (span_netloc t).1 = true
  /\ starts_delim (span_netloc t).2 = true.
Proof.
  unfold is_netloc. induction t as [| c t IH]; simpl; [auto |].
  destruct (netloc_delim c) eqn:Hc; simpl; [auto |].
  destruct (span_netloc t) as [n r]. simpl in *.
  destruct IH as (Ht & Hn & Hr). rewrite Hc, Hn. simpl.
  repeat split; [congruence | exact Hr].
Qed.

End Substrings.

Section Params.
Implicit Types (a b s t u : string) (c : ascii) (i j k n : nat).

Lemma str_length_take n s :
  (n <= String.length s)%nat -> String.length (take n s) = n.
Proof.
  revert s. induction n as [| n IH]; intros [| a s]; simpl; try lia.
  intros Hn. rewrite IH; lia.
Qed.

Lemma drop_take j k s : drop j (take (j + k) s) = take k (drop j s).
Proof.
  revert s. induction j as [| j IH]; intros s; simpl; [reflexivity |].
  destruct s as [| a s]; simpl; [now destruct k | apply IH].
Qed.

(** Where [find_from] finds [c]: at [i], for the first time from [j]. *)
Lemma find_from_split c j s i :
  find_from c j s = Some i ->
  s = take i s +:+ String c (drop (S i) s)
  /\ mem c (drop j (take i s)) = false.
Proof.
  unfold find_from. destruct (Nat.leb_spec j (String.length s)) as [Hj |];
    [| discriminate].
  destruct (find c (drop j s)) as [k |] eqn:Hk; [| discriminate].
  cbn [option_map]. intros [= <-].
  pose proof (find_split _ _ _ Hk) as Hsplit.
  pose proof (find_take_mem _ _ _ Hk) as Hmem.
  rewrite drop_take. split; [| exact Hmem].
  pose proof (str_take_drop j s) as Hs.
  pose proof (str_length_take j s Hj) as Hlen.
  clear Hk Hmem Hj. revert Hs Hlen Hsplit.
  generalize (take j s) as A, (drop j s) as D. intros A D <- <- HD.
  replace (S (String.length A + k)) with (String.length A + S k)%nat by lia.
  rewrite str_take_app_ge, str_drop_app_ge, str_app_assoc, <- HD.
  reflexivity.
Qed.

Lemma splitparams_slash u j :
  mem "/" u = true -> rfind "/" u = Some j ->
  splitparams u
  = match find_from ";" j u with
    | None => (u, "")
    | Some i => (take i u, drop (S i) u)
    end.
Proof. intros Hm Hj. unfold splitparams. rewrite Hm, Hj. reflexivity. Qed.

Lemma splitparams_no_slash u i :
  mem "/" u = false -> find ";" u = Some i ->
  splitparams u = (take i u, drop (S i) u).
Proof. intros Hm Hi. unfold splitparams. rewrite Hm, Hi. reflexivity. Qed.

Lemma with_params_empty pa : with_params pa "" = pa.
Proof. reflexivity. Qed.

Lemma truthy_false s : truthy s = false -> s = "".
Proof. destruct s; [reflexivity | discriminate]. Qed.

(** What [urlunparse] joins, [urlparse] splits in the same way; and the
    joined string is the one that was split, but for a last [;]. *)
Lemma splitparams_resplit u :
  mem ";" u = true ->
  let P := with_params (splitparams u).1 (splitparams u).2 in
  (if mem ";" P then splitparams P else (P, "")) = splitparams u
  /\ (P = u \/ u = P +:+ ";").
Proof.
  intros Hsemi.
  assert (Hjoin : forall i,
             u = take i u +:+ String ";" (drop (S i) u) ->
             truthy (drop (S i) u) = true ->
             with_params (take i u) (drop (S i) u) = u).
  { intros i Hu Ht. unfold with_params. rewrite Ht. symmetry. exact Hu. }
  destruct (mem "/" u) eqn:Hslash.
  - destruct (mem_rfind _ _ Hslash) as [j Hj].
    rewrite (splitparams_slash _ _ Hslash Hj).
    destruct (find_from ";" j u) as [i |] eqn:Hf; cbn [fst snd].
    + destruct (find_from_split _ _ _ _ Hf) as [Hu Hnone].
      destruct (truthy (drop (S i) u)) eqn:Ht.
      * rewrite (Hjoin i Hu Ht), Hsemi, (splitparams_slash _ _ Hslash Hj), Hf.
        auto.
      * apply truthy_false in Ht. rewrite Ht in *. rewrite with_params_empty.
        split; [| right; exact Hu].
        destruct (mem ";" (take i u)) eqn:Hsemi'; [| reflexivity].
        assert (Hslash' : mem "/" (take i u) = true).
        { rewrite Hu, mem_app in Hslash. cbn in Hslash.
          now rewrite orb_false_r in Hslash. }
        assert (Hj' : rfind "/" (take i u) = Some j).
        { rewrite Hu in Hj. now rewrite rfind_app_absent in Hj. }
        rewrite (splitparams_slash _ _ Hslash' Hj').
        unfold find_from. apply find_None in Hnone. rewrite Hnone.
        destruct (_ <=? _)%nat; reflexivity.
    + rewrite with_params_empty, Hsemi, (splitparams_slash _ _ Hslash Hj), Hf.
      auto.
  - destruct (find ";" u) as [i |] eqn:Hi;
      [| apply find_None in Hi; congruence].
    rewrite (splitparams_no_slash _ _ Hslash Hi). cbn [fst snd].
    pose proof (find_split _ _ _ Hi) as Hu.
    destruct (truthy (drop (S i) u)) eqn:Ht.
    + rewrite (Hjoin i Hu Ht), Hsemi, (splitparams_no_slash _ _ Hslash Hi).
      auto.
    + apply truthy_false in Ht. rewrite Ht in *. rewrite with_params_empty.
      rewrite (find_take_mem _ _ _ Hi). auto.
Qed.

End Params.

Section NormalForm.
Context `{lib : Library}.
Implicit Types (a b s t u sc n rest pa pr q : string) (c : ascii).

Lemma safe_app a b : safe (a +:+ b) = safe a && safe b.
Proof. apply all_app. Qed.

Lemma safe_lower s : safe (lower s) = safe s.
Proof.
  apply all_lower. intros c. now rewrite unsafe_url_byte_lower.
Qed.

Lemma remove_safe s : safe s = true -> remove unsafe_url_byte s = s.
Proof. apply remove_none. Qed.

Lemma safe_sanitize url : safe (sanitize url) = true.
Proof. apply all_remove_self. Qed.

(** The two parts that [split_once] returns. *)
Lemma split_once_parts c s :
  mem c (split_once c s).1 = false
  /\ (forall d, mem d s = false ->
                mem d (split_once c s).1 = false
                /\ mem d (split_once c s).2 = false)
  /\ (forall p, all p s = true ->
                all p (split_once c s).1 = true
                /\ all p (split_once c s).2 = true).
Proof.
  unfold split_once. destruct (find c s) as [i |] eqn:Hi; cbn [fst snd].
  - split; [exact (find_take_mem _ _ _ Hi) |]. split.
    + intros d Hd. split; [now apply mem_take_false | now apply mem_drop_false].
    + intros p Hp. split; [now apply all_take | now apply all_drop].
  - apply find_None in Hi. repeat split; auto.
Qed.

Lemma split_once_head c x t :
  (split_once c (String x t)).1
  = if Ascii.eqb x c then "" else String x (split_once c t).1.
Proof.
  unfold split_once. cbn [find]. destruct (Ascii.eqb x c); [reflexivity |].
  destruct (find c t); reflexivity.
Qed.

(** The path of a URL with a netloc is empty or starts with a slash. *)
Lemma path_after_netloc rest :
  starts_delim rest = true ->
  slash_or_empty (split_once "?" (split_once "#" rest).1).1 = true.
Proof.
  destruct rest as [| x t]; [reflexivity |]. cbn [starts_delim].
  unfold netloc_delim. rewrite (split_once_head "#" x t).
  destruct (Ascii.eqb x "#") eqn:Hhash; [reflexivity |].
  rewrite split_once_head.
  destruct (Ascii.eqb x "?") eqn:Hquery; [reflexivity |].
  rewrite !orb_false_r. intros Hslash. exact Hslash.
Qed.

Lemma slash_or_empty_prefix P :
  slash_or_empty (P +:+ ";") = true -> slash_or_empty P = true.
Proof. destruct P; [discriminate | trivial]. Qed.

(** What [urlparse] finds behind the netloc, and that it finds it
    again in what [urlunparse] makes of it. *)
Lemma parse_after_netloc_shape sc n rest :
  starts_delim rest = true -> safe rest = true ->
  let p := parse_after_netloc sc n rest in
  let P := with_params (path p) (params p) in
  scheme p = sc /\ netloc p = n
  /\ slash_or_empty P = true
  /\ mem "#" P = false /\ mem "?" P = false /\ mem "#" (query p) = false
  /\ safe P = true /\ safe (query p) = true
  /\ (if in_list sc uses_params && mem ";" P then splitparams P else (P, ""))
     = (path p, params p).
Proof.
  intros Hrest Hsafe. unfold parse_after_netloc.
  pose proof (path_after_netloc rest Hrest) as Hslash.
  destruct (split_once_parts "#" rest) as (Hh1 & _ & Ha1).
  destruct (Ha1 _ Hsafe) as [Hs1 _]. clear Ha1.
  destruct (split_once "#" rest) as [u1 fr]. cbn [fst snd] in *.
  destruct (split_once_parts "?" u1) as (Hq2 & Hm2 & Ha2).
  destruct (Hm2 "#"%char Hh1) as [Hh2 Hhq]. destruct (Ha2 _ Hs1) as [Hs2 Hsq].
  clear Hm2 Ha2.
  destruct (split_once "?" u1) as [u2 q]. cbn [fst snd] in *.
  destruct (in_list sc uses_params && mem ";" u2) eqn:Hguard.
  - apply andb_true_iff in Hguard as [Huses Hsemi].
    destruct (splitparams_resplit u2 Hsemi) as [Hre Hcase].
    destruct (splitparams u2) as [pa pr]. cbn [fst snd] in *.
    cbn [scheme netloc path params query]. cbv zeta.
    rewrite Huses. cbn [andb].
    set (P := with_params pa pr) in *.
    assert (Hfacts : slash_or_empty P = true /\ mem "#" P = false
                     /\ mem "?" P = false /\ safe P = true).
    { destruct Hcase as [-> | Hu]; [auto |].
      rewrite Hu in Hslash, Hh2, Hq2, Hs2.
      rewrite mem_app in Hh2, Hq2. rewrite safe_app in Hs2.
      apply orb_false_iff in Hh2 as [Hh2 _].
      apply orb_false_iff in Hq2 as [Hq2 _].
      apply andb_true_iff in Hs2 as [Hs2 _].
      auto using slash_or_empty_prefix. }
    destruct Hfacts as (? & ? & ? & ?). repeat split; assumption.
  - cbn [scheme netloc path params query]. cbv zeta.
    rewrite with_params_empty, Hguard. repeat split; assumption.
Qed.

Lemma truthy_app_l a b : truthy a = true -> truthy (a +:+ b) = true.
Proof. destruct a; [discriminate | reflexivity]. Qed.

(** [urlunparse] on a scheme, a netloc, and a path as it follows a
    netloc. *)
Lemma urlunparse_absolute sc n pa pr q :
  truthy sc = true -> truthy n = true ->
  slash_or_empty (with_params pa pr) = true ->
  urlunparse (mkParseResult sc n pa pr q "")
  = sc +:+ "://" +:+ n +:+ with_query (with_params pa pr) q.
Proof.
  intros Hsc Hn Hslash. unfold urlunparse, urlunsplit.
  cbn [scheme netloc path params query fragment].
  fold (with_params pa pr). set (P := with_params pa pr) in *.
  rewrite Hsc, Hn. cbn [orb truthy].
  assert (Hhead : truthy P && negb (String.eqb (take 1 P) "/") = false).
  { destruct P as [| x t]; [reflexivity |]. cbn in Hslash |- *.
    apply Ascii.eqb_eq in Hslash as ->. reflexivity. }
  rewrite Hhead. unfold with_query.
  destruct (truthy q); rewrite ?str_app_assoc; reflexivity.
Qed.

(** [urlparse] behind the netloc, on a path and a query joined. *)
Lemma parse_after_query sc n P q pa pr :
  mem "#" P = false -> mem "?" P = false -> mem "#" q = false ->
  (if in_list sc uses_params && mem ";" P then splitparams P else (P, ""))
  = (pa, pr) ->
  parse_after_netloc sc n (with_query P q) = mkParseResult sc n pa pr q "".
Proof.
  intros HhP HqP Hhq Hsplit. unfold parse_after_netloc, with_query.
  destruct (truthy q) eqn:Hq.
  - rewrite (split_once_absent "#")
      by (rewrite !mem_app, HhP, Hhq; reflexivity).
    change (P +:+ "?" +:+ q) with (P +:+ String "?" q).
    rewrite (split_once_app _ _ _ HqP), Hsplit. reflexivity.
  - apply truthy_false in Hq as ->.
    rewrite (split_once_absent _ _ HhP), (split_once_absent _ _ HqP), Hsplit.
    reflexivity.
Qed.

Lemma take2_slashes r :
  String.eqb (take 2 r) "//" = true ->
  r = String "/" (String "/" (drop 2 r)) /\ (2 <= String.length r)%nat.
Proof.
  intros Heq%String.eqb_eq.
  destruct r as [| x [| y r]]; try discriminate.
  cbn in Heq. injection Heq as -> ->. cbn. split; [reflexivity | lia].
Qed.

Lemma parse_after_netloc_fields sc n rest :
  scheme (parse_after_netloc sc n rest) = sc
  /\ netloc (parse_after_netloc sc n rest) = n.
Proof.
  unfold parse_after_netloc.
  destruct (split_once "#" rest) as [u1 fr].
  destruct (split_once "?" u1) as [u2 q].
  destruct (_ && _); [destruct (splitparams u2) |]; auto.
Qed.

(** A URL in which [urlparse] finds a scheme and a netloc is, once
    sanitized, [scheme://netloc rest]. *)
Lemma urlparse_decompose url p :
  urlparse url = inr p ->
  truthy (scheme p) = true -> truthy (netloc p) = true ->
  exists S rest,
    sanitize url = S +:+ "://" +:+ netloc p +:+ rest
    /\ is_scheme S = true /\ scheme p = lower S
    /\ is_netloc (netloc p) = true /\ starts_delim rest = true
    /\ check_brackets (netloc p) = inr tt
    /\ p = parse_after_netloc (lower S) (netloc p) rest.
Proof.
  unfold urlparse, urlsplit. set (u := sanitize url).
  assert (Hrest : forall sc n rest,
             (let '(url0, fragment) := split_once "#" rest in
              let '(url1, query) := split_once "?" url0 in
              bind (checknetloc n)
                (fun _ => ret (sc, n, url1, query, fragment)))
             = ret (sc, n, (split_once "?" (split_once "#" rest).1).1,
                    (split_once "?" (split_once "#" rest).1).2,
                    (split_once "#" rest).2)).
  { intros sc n rest. destruct (split_once "#" rest) as [u1 fr].
    cbn [fst snd]. destruct (split_once "?" u1). reflexivity. }
  assert (Hparse : forall sc n rest,
             (let '(url0, pr) :=
                if in_list sc uses_params
                   && mem ";" (split_once "?" (split_once "#" rest).1).1
                then splitparams (split_once "?" (split_once "#" rest).1).1
                else ((split_once "?" (split_once "#" rest).1).1, "") in
              ret (mkParseResult sc n url0 pr
                     (split_once "?" (split_once "#" rest).1).2
                     (split_once "#" rest).2))
             = ret (parse_after_netloc sc n rest)).
  { intros sc n rest. unfold parse_after_netloc.
    destruct (split_once "#" rest) as [u1 fr]. cbn [fst snd].
    destruct (split_once "?" u1) as [u2 q]. cbn [fst snd].
    destruct (_ && _); [destruct (splitparams u2) |]; reflexivity. }
  rewrite split_scheme_eq.
  destruct (find ":" u) as [i |] eqn:Hfind.
  - destruct ((0 <? i)%nat && head_is_alpha u && all scheme_char (take i u))
      eqn:Hcond.
    + apply andb_true_iff in Hcond as [[Hpos Hhead]%andb_true_iff Hall].
      unfold split_authority.
      destruct (String.eqb (take 2 (drop (S i) u)) "//") eqn:H2.
      * destruct (take2_slashes _ H2) as [Hr Hlen].
        rewrite (splitnetloc_span _ Hlen).
        destruct (span_netloc_spec (drop 2 (drop (S i) u)))
          as (Hspan & Hnet & Hdelim).
        destruct (span_netloc (drop 2 (drop (S i) u))) as [n rest].
        cbn [fst snd] in *.
        destruct (check_brackets n) as [e | []] eqn:Hbr; [discriminate |].
        cbn [bind ret]. rewrite Hrest. cbn [bind ret].
        rewrite Hparse. intros [= <-].
        destruct (parse_after_netloc_fields (lower (take i u)) n rest)
          as [-> ->].
        intros _ _.
        exists (take i u), rest. repeat split; try assumption.
        -- rewrite (find_split _ _ _ Hfind) at 1. rewrite Hr, Hspan.
           reflexivity.
        -- unfold is_scheme. rewrite Hall, andb_true_r.
           destruct u as [| x t]; [discriminate |].
           destruct i; [discriminate | exact Hhead].
      * cbn [bind ret]. rewrite Hrest. cbn [bind ret].
        rewrite Hparse. intros [= <-]. intros _.
        rewrite (proj2 (parse_after_netloc_fields _ _ _)). discriminate.
    + unfold split_authority.
      destruct (String.eqb (take 2 u) "//");
        [destruct (splitnetloc u 2) as [n rest];
         destruct (check_brackets n) as [e | []]; [discriminate |] |];
        cbn [bind ret]; rewrite Hrest; cbn [bind ret];
        rewrite Hparse; intros [= <-];
        rewrite (proj1 (parse_after_netloc_fields _ _ _)); discriminate.
  - unfold split_authority.
    destruct (String.eqb (take 2 u) "//");
      [destruct (splitnetloc u 2) as [n rest];
       destruct (check_brackets n) as [e | []]; [discriminate |] |];
      cbn [bind ret]; rewrite Hrest; cbn [bind ret];
      rewrite Hparse; intros [= <-];
      rewrite (proj1 (parse_after_netloc_fields _ _ _)); discriminate.
Qed.

End NormalForm.

Section FixedPoint.
Context `{lib : Library}.
Implicit Types (a b s t u sc n rest pa pr q : string) (c : ascii).

Lemma starts_delim_with_query P q :
  slash_or_empty P = true -> starts_delim (with_query P q) = true.
Proof.
  unfold with_query. destruct P as [| x t]; cbn.
  - destruct (truthy q); reflexivity.
  - intros ->%Ascii.eqb_eq. destruct (truthy q); reflexivity.
Qed.

Lemma safe_with_query P q :
  safe P = true -> safe q = true -> safe (with_query P q) = true.
Proof.
  intros HP Hq. unfold with_query. destruct (truthy q); [| exact HP].
  rewrite !safe_app, HP, Hq. reflexivity.
Qed.

(** [urlparse] finds in the normal form what it found in the URL, with
    the netloc in lower case and without the fragment. *)
Lemma urlparse_normal_form url p :
  urlparse url = inr p ->
  truthy (scheme p) = true -> truthy (netloc p) = true ->
  urlparse
    (urlunparse
       (mkParseResult (lower (scheme p)) (lower (netloc p)) (path p)
          (params p) (query p) ""))
  = bind (check_brackets (lower (netloc p)))
      (fun _ =>
         ret (mkParseResult (scheme p) (lower (netloc p)) (path p)
                (params p) (query p) "")).
Proof.
  intros Hp Hsc Hn.
  destruct (urlparse_decompose url p Hp Hsc Hn)
    as (S & rest & Hu & HS & Hscheme & Hnet & Hdelim & _ & Hpa).
  pose proof (safe_sanitize url) as Hsafe.
  rewrite Hu, !safe_app in Hsafe.
  apply andb_true_iff in Hsafe as [_ [_ [Hsn Hsrest]%andb_true_iff]%andb_true_iff].
  pose proof (parse_after_netloc_shape (lower S) (netloc p) rest Hdelim Hsrest)
    as Hshape.
  cbv zeta in Hshape. rewrite <- Hpa in Hshape.
  destruct Hshape as (_ & _ & Hslash & HhP & HqP & Hhq & HsP & Hsq & Hre).
  rewrite urlunparse_absolute
    by (rewrite ?truthy_lower; assumption).
  rewrite urlparse_absolute;
    [| rewrite Hscheme, !is_scheme_lower; exact HS
     | rewrite is_netloc_lower; exact Hnet
     | apply starts_delim_with_query; exact Hslash].
  rewrite !remove_safe
    by (rewrite ?safe_lower; auto using safe_with_query).
  destruct (check_brackets (lower (netloc p))) as [e | []]; [reflexivity |].
  cbn [bind ret]. rewrite Hscheme, !lower_lower.
  rewrite (parse_after_query _ _ _ _ _ _ HhP HqP Hhq Hre). reflexivity.
Qed.

Lemma mem_sanitize c url :
  unsafe_url_byte c = false -> mem c url = false ->
  mem c (sanitize url) = false.
Proof.
  intros Hc Hm. unfold sanitize. rewrite (mem_remove _ _ _ Hc).
  now apply mem_lstrip_false.
Qed.

(** A character that is not in the URL is not in its netloc. *)
Lemma mem_netloc c url p :
  urlparse url = inr p -> truthy (scheme p) = true ->
  unsafe_url_byte c = false -> mem c url = false ->
  mem c (netloc p) = false.
Proof.
  intros Hp Hsc Hc Hm.
  destruct (netloc p) as [| x n] eqn:Hn; [reflexivity |]. rewrite <- Hn.
  destruct (urlparse_decompose url p Hp Hsc)
    as (S & rest & Hu & _); [now rewrite Hn |].
  pose proof (mem_sanitize c url Hc Hm) as Hs.
  rewrite Hu, !mem_app in Hs.
  apply orb_false_iff in Hs as [_ [_ [Hs _]%orb_false_iff]%orb_false_iff].
  exact Hs.
Qed.

(** The normal form of a valid URL without brackets is its own normal
    form, and valid. *)
Lemma valid_normal_form (cfg : CrawlerConfig) url
    (base_domain : option string) :
  mem "[" url = false -> mem "]" url = false ->
  is_valid_url cfg url base_domain = true ->
  exists normalized : string,
    normalize_url url = inr normalized
    /\ normalize_url normalized = inr normalized
    /\ is_valid_url cfg normalized base_domain = true.
Proof.
  intros Hopen Hclose Hvalid.
  unfold is_valid_url in Hvalid.
  destruct (urlparse url) as [e | p] eqn:Hp; [discriminate |].
  destruct (truthy (scheme p)) eqn:Hsc; [| discriminate].
  destruct (truthy (netloc p)) eqn:Hn; [| discriminate].
  cbn [negb orb] in Hvalid.
  assert (Hbr : check_brackets (lower (netloc p)) = ret tt).
  { apply check_brackets_plain.
    - rewrite (mem_lower _ _ open_bracket_lower).
      apply (mem_netloc _ url); auto.
    - rewrite (mem_lower _ _ close_bracket_lower).
      apply (mem_netloc _ url); auto. }
  pose proof (urlparse_normal_form url p Hp Hsc Hn) as Hre.
  rewrite Hbr in Hre. cbn [bind ret] in Hre.
  eexists. split; [| split].
  - unfold normalize_url. rewrite Hp. reflexivity.
  - unfold normalize_url. rewrite Hre. cbn [bind ret].
    cbn [scheme netloc path params query]. rewrite lower_lower. reflexivity.
  - unfold is_valid_url. rewrite Hre. unfold ret.
    cbn [scheme netloc path]. rewrite truthy_lower, Hsc, Hn, lower_lower.
    cbn [negb orb]. exact Hvalid.
Qed.

End FixedPoint.




(** Nor does C6 as stated hold of the letter case of a host in
    brackets, with a library that, as CPython's does, accepts
    [[v1.abc]] and refuses [[V1.abc]]: one spelling is normalized,
    the other raises. *)
Lemma normalize_url_bracketed_host_case `{lib : Library} (e : exn) :
  check_bracketed_netloc "[v1.abc]" = ret tt ->
  check_bracketed_netloc "[V1.abc]" = raise e ->
  normalize_url "http://[v1.abc]/" = inr "http://[v1.abc]/"
  /\ normalize_url "http://[V1.abc]/" = raise e.
Proof.
  intros Hlower Hupper. split.
  - rewrite (normalize_url_absolute "http" "[v1.abc]" "/" eq_refl eq_refl
               eq_refl).
    change (remove unsafe_url_byte "[v1.abc]") with "[v1.abc]".
    unfold check_brackets. cbn [mem Ascii.eqb Bool.eqb andb orb negb].
    rewrite Hlower. reflexivity.
  - rewrite (normalize_url_absolute "http" "[V1.abc]" "/" eq_refl eq_refl
               eq_refl).
    change (remove unsafe_url_byte "[V1.abc]") with "[V1.abc]".
    unfold check_brackets. cbn [mem Ascii.eqb Bool.eqb andb orb negb].
    rewrite Hupper. reflexivity.
Qed.


(** X11.  A valid URL without brackets has a normal form, in which
    [urlparse] finds again the scheme, the path, the parameters and
    the query of the URL, the netloc in lower case, and no fragment.
    The normal form is its own normal form, and it is valid for the
    same [base_domain]: the test [is_valid_url(normalized_url)] of
    [crawl] accepts what [is_valid_url(url)] accepts. *)
Theorem valid_url_normal_form :
  forall (lib : Library) (cfg : CrawlerConfig) (url : string)
         (base_domain : option string),
    mem "[" url = false -> mem "]" url = false ->
    is_valid_url cfg url base_domain = true ->
    exists (parsed : ParseResult) (normalized : string),
      urlparse url = inr parsed
      /\ normalize_url url = inr normalized
      /\ urlparse normalized
         = inr (mkParseResult (scheme parsed) (lower (netloc parsed))
                  (path parsed) (params parsed) (query parsed) "")
      /\ normalize_url normalized = inr normalized
      /\ is_valid_url cfg normalized base_domain = true.
Proof.
  intros lib cfg url base_domain Hopen Hclose Hvalid.
  destruct (valid_normal_form cfg url base_domain Hopen Hclose Hvalid)
    as (normalized & Hn & Hfix & Hv).
  unfold is_valid_url in Hvalid.
  destruct (urlparse url) as [e | parsed] eqn:Hp; [discriminate |].
  destruct (truthy (scheme parsed)) eqn:Hsc; [| discriminate].
  destruct (truthy (netloc parsed)) eqn:Hnet; [| discriminate].
  exists parsed, normalized. repeat split; try assumption.
  pose proof (urlparse_normal_form url parsed Hp Hsc Hnet) as Hre.
  rewrite check_brackets_plain in Hre.
  - unfold normalize_url in Hn. rewrite Hp in Hn. cbn [bind ret] in Hn.
    injection Hn as <-. exact Hre.
  - rewrite (mem_lower _ _ open_bracket_lower).
    apply (mem_netloc _ url); auto.
  - rewrite (mem_lower _ _ close_bracket_lower).
    apply (mem_netloc _ url); auto.
Qed.

Lemma valid_url_normal_form_witness :
  exists (parsed : ParseResult) (normalized : string),
    urlparse (lib := plain_library) "HTTP://A.Test/p;x?q=1#top" = inr parsed
    /\ normalize_url (lib := plain_library) "HTTP://A.Test/p;x?q=1#top"
       = inr normalized
    /\ urlparse (lib := plain_library) normalized
       = inr (mkParseResult (scheme parsed) (lower (netloc parsed))
                (path parsed) (params parsed) (query parsed) "")
    /\ normalize_url (lib := plain_library) normalized = inr normalized
    /\ is_valid_url (lib := plain_library) sample_config normalized
         (Some "a.test") = true.
Proof.
  apply (valid_url_normal_form plain_library sample_config
           "HTTP://A.Test/p;x?q=1#top" (Some "a.test"));
    reflexivity.
Defined.

(** ** The end of a crawl *)

(** Every task ever queued is still on the queue, or in the hands of
    a worker that has not yet looked at it, or its URL is visited. *)
Definition accounted `{lib : Library} (s : System) : Prop :=
  forall task, task ∈ Queue.history (url_queue (crawler s)) ->
    task ∈ Queue.items (url_queue (crawler s))
    \/ (exists w, workers s !! w = Some (Dequeued task.1 task.2))
    \/ task.1 ∈ visited_urls (crawler s).

(** There are workers, and once all have left the queue is empty or
    the page budget is reached. *)
Definition drained `{lib : Library} (cfg : CrawlerConfig) (s : System)
  : Prop :=
  workers s <> []
  /\ (Forall (fun pc => pc = Exited) (workers s) ->
      Queue.items (url_queue (crawler s)) = []
      \/ (0 < max_pages cfg)%Z
         /\ (max_pages cfg <= total_crawled (stats (crawler s)))%Z).

Section Completion.
Context `{lib : Library}.
Implicit Types (cfg : CrawlerConfig) (self : t) (s : System) (ev : Event).

Lemma get_items {A} (q q' : Queue.t A) (x : A) :
  Queue.get q = Some (x, q') -> Queue.items q = x :: Queue.items q'.
Proof.
  unfold Queue.get. destruct (Queue.items q); [discriminate |].
  intros [= <- <-]. reflexivity.
Qed.

Lemma transition_accounted cfg s ev s' :
  transition cfg s ev s' -> accounted s -> accounted s'.
Proof.
  intros Htr Hacc.
  assert (Hkeep : forall w pc task,
             (exists w', workers s !! w' = Some (Dequeued task.1 task.2)) ->
             (forall pc', workers s !! w = Some pc' ->
                          pc' <> Dequeued task.1 task.2) ->
             exists w', <[w := pc]> (workers s) !! w'
                        = Some (Dequeued task.1 task.2)).
  { intros w pc task [w' Hw'] Hne. exists w'.
    rewrite list_lookup_insert_ne; [exact Hw' |].
    intros <-. exact (Hne _ Hw' eq_refl). }
  destruct Htr as [w url depth q Hw Hget | w Hw Hitems | w url depth Hw Hin
         | w url depth Hw Hnotin
         | w url depth robots page now self' result Hw Heff
         | w driver result Hw]; intros task; cbn [crawler workers].
  - cbn. rewrite (get_history _ _ _ Hget). intros Hin.
    destruct (Hacc task Hin) as [Hi | [Hd | Hv]]; [| | auto].
    + rewrite (get_items _ _ _ Hget) in Hi.
      apply elem_of_cons in Hi as [-> | Hi]; [| auto].
      right. left. exists w. cbn.
      apply list_lookup_insert_eq. eapply lookup_lt_Some; exact Hw.
    + right. left. apply Hkeep; [exact Hd |].
      intros pc' Hpc'. rewrite Hw in Hpc'. injection Hpc' as <-. discriminate.
  - intros Hin. destruct (Hacc task Hin) as [Hi | [Hd | Hv]]; [auto | | auto].
    right. left. apply Hkeep; [exact Hd |].
    intros pc' Hpc'. rewrite Hw in Hpc'. injection Hpc' as <-. discriminate.
  - intros Hin'. destruct (Hacc task Hin') as [Hi | [[w' Hd] | Hv]];
      [auto | | auto].
    destruct (decide (w' = w)) as [-> | Hne].
    + rewrite Hw in Hd. injection Hd as <- _. auto.
    + right. left. exists w'. rewrite list_lookup_insert_ne; auto.
  - cbn. intros Hin'. destruct (Hacc task Hin') as [Hi | [[w' Hd] | Hv]];
      [auto | | right; right; set_solver].
    destruct (decide (w' = w)) as [-> | Hne].
    + rewrite Hw in Hd. injection Hd as <- _. right. right. set_solver.
    + right. left. exists w'. rewrite list_lookup_insert_ne; auto.
  - assert (Hstay : forall pc,
               (exists w', workers s !! w' = Some (Dequeued task.1 task.2)) ->
               exists w', <[w := pc]> (workers s) !! w'
                          = Some (Dequeued task.1 task.2)).
    { intros pc Hd. apply Hkeep; [exact Hd |].
      intros pc' Hpc'. rewrite Hw in Hpc'. injection Hpc' as <-.
      discriminate. }
    destruct Heff as [| tasks self' result Hq Hlinks].
    + cbn. intros Hin. destruct (Hacc task Hin) as [Hi | [Hd | Hv]]; auto.
    + destruct Hq as [Hv _ _ _ Hi Hh]. rewrite Hv, Hi, Hh.
      intros [Hin | Hin]%elem_of_app.
      * destruct (Hacc task Hin) as [Hi' | [Hd | Hv']]; auto.
        left. apply elem_of_app. auto.
      * left. apply elem_of_app. auto.
  - pose proof (worker_count_spec cfg (crawler s) result) as Hc.
    cbn zeta in Hc. destruct Hc as (Hv & _ & Hq & _).
    rewrite Hv, Hq. intros Hin.
    destruct (Hacc task Hin) as [Hi | [Hd | Hv']]; [auto | | auto].
    right. left. apply Hkeep; [exact Hd |].
    intros pc' Hpc'. rewrite Hw in Hpc'. injection Hpc' as <-. discriminate.
Qed.

Lemma insert_not_all_exited (l : list Worker) (w : nat) (old pc : Worker) :
  l !! w = Some old -> pc <> Exited ->
  ~ Forall (fun pc => pc = Exited) (<[w := pc]> l).
Proof.
  intros Hw Hpc Hall. rewrite Forall_forall in Hall.
  apply Hpc, Hall. apply list_elem_of_lookup. exists w.
  apply list_lookup_insert_eq. eapply lookup_lt_Some; exact Hw.
Qed.

Lemma insert_not_nil (l : list Worker) (w : nat) (pc : Worker) :
  l <> [] -> <[w := pc]> l <> [].
Proof.
  intros Hl Hnil. apply Hl. apply (f_equal length) in Hnil.
  rewrite length_insert in Hnil. now destruct l.
Qed.

Lemma transition_drained cfg s ev s' :
  transition cfg s ev s' -> drained cfg s -> drained cfg s'.
Proof.
  intros Htr [Hne Hdr].
  destruct Htr as [w url depth q Hw Hget | w Hw Hitems | w url depth Hw Hin
         | w url depth Hw Hnotin
         | w url depth robots page now self' result Hw Heff
         | w driver result Hw]; (split; [apply insert_not_nil, Hne |]);
    cbn [crawler workers]; intros Hall;
    try (exfalso; revert Hall;
         apply (insert_not_all_exited _ _ _ _ Hw); discriminate).
  - left. exact Hitems.
  - exfalso. revert Hall. apply (insert_not_all_exited _ _ _ _ Hw).
    destruct result; discriminate.
  - right. apply worker_count_ctl.
    destruct (worker_count cfg (crawler s) result).2; [| reflexivity].
    exfalso. revert Hall. apply (insert_not_all_exited _ _ _ _ Hw).
    discriminate.
Qed.

Lemma steps_accounted_drained cfg s events :
  accounted s -> drained cfg s ->
  accounted (fold_left (step cfg) events s)
  /\ drained cfg (fold_left (step cfg) events s).
Proof.
  revert s. induction events as [| ev events IH]; intros s Ha Hd;
    cbn [fold_left]; [auto |].
  destruct (step_transition cfg s ev) as [-> | Htr]; [auto |].
  apply IH;
    [eapply transition_accounted | eapply transition_drained]; eassumption.
Qed.

End Completion.

(** X12.  With at least one worker, when every worker has left its
    loop, every URL ever queued is visited or still on the queue; the
    queue is empty unless the page budget is reached; and
    [total_crawled] is the number of visited URLs.  Without a page
    budget, every URL ever queued has been visited. *)
Theorem finished_crawl_is_complete_or_on_budget :
  forall (lib : Library) (cfg : CrawlerConfig) (now : Z)
         (seed_urls : list string) (events : list Event) (s : System),
    (0 < max_workers cfg)%Z ->
    run cfg now seed_urls events = inr s ->
    Forall (fun pc => pc = Exited) (workers s) ->
    (forall task, task ∈ Queue.history (url_queue (crawler s)) ->
                  task ∈ Queue.items (url_queue (crawler s))
                  \/ task.1 ∈ visited_urls (crawler s))
    /\ (Queue.items (url_queue (crawler s)) = []
        \/ (0 < max_pages cfg)%Z
           /\ (max_pages cfg <= total_crawled (stats (crawler s)))%Z)
    /\ total_crawled (stats (crawler s))
       = Z.of_nat (size (visited_urls (crawler s)))
    /\ ((max_pages cfg <= 0)%Z ->
        forall task, task ∈ Queue.history (url_queue (crawler s)) ->
                     task.1 ∈ visited_urls (crawler s)).
Proof.
  intros lib cfg now seed_urls events s Hworkers Hrun Hall.
  assert (Hbal : balanced s).
  { apply (run_ind cfg balanced now seed_urls events s);
      [| intros s1 ev HI; apply step_balanced, HI | exact Hrun].
    intros s0 (tasks & Hq & _ & Hw)%crawl_spec. unfold balanced.
    destruct Hq as [Hv Hs _ _ _ _].
    rewrite Hv, Hs, Hw, in_flight_replicate. cbn.
    rewrite size_empty. reflexivity. }
  assert (Hend : accounted s /\ drained cfg s).
  { unfold run in Hrun.
    destruct (crawl cfg now seed_urls) as [e | s0] eqn:Hcrawl;
      cbn [bind] in Hrun; [discriminate |].
    injection Hrun as <-.
    apply crawl_spec in Hcrawl as (tasks & Hq & _ & Hw).
    destruct Hq as [_ _ _ _ Hi Hh].
    apply steps_accounted_drained.
    - intros task. rewrite Hi, Hh. auto.
    - unfold drained. rewrite Hw.
      destruct (Z.to_nat (max_workers cfg)) eqn:Hn; [lia |].
      split; [discriminate |]. cbn. intros Hex. inversion Hex. discriminate. }
  destruct Hend as [Hacc [_ Hdr]]. specialize (Hdr Hall).
  assert (Hheld : forall task,
             task ∈ Queue.history (url_queue (crawler s)) ->
             task ∈ Queue.items (url_queue (crawler s))
             \/ task.1 ∈ visited_urls (crawler s)).
  { intros task Hin. destruct (Hacc task Hin) as [Hi | [[w Hw] | Hv]];
      [auto | | auto].
    rewrite Forall_forall in Hall.
    assert (Hex : Dequeued task.1 task.2 = Exited)
      by (apply Hall; eapply list_elem_of_lookup_2; exact Hw).
    discriminate. }
  split; [exact Hheld |]. split; [exact Hdr |]. split.
  - unfold balanced in Hbal. rewrite Hbal.
    assert (H0 : in_flight (workers s) = 0%nat).
    { clear Hbal Hdr Hacc Hheld. unfold in_flight.
      induction Hall as [| pc l Hpc _ IH]; [reflexivity |].
      subst pc. exact IH. }
    rewrite H0. lia.
  - intros Hpages task Hin. destruct Hdr as [Hnil | [Hpos _]]; [| lia].
    destruct (Hheld task Hin) as [Hi | Hv]; [| exact Hv].
    rewrite Hnil in Hi. inversion Hi.
Qed.

(** One worker: the seed is fetched and stored, then the worker finds
    the queue empty. *)
Definition sample_finished : list Event :=
  sample_timeout ++ [EvStore 0 (inr tt); EvGetTimeout 0].

Lemma finished_crawl_is_complete_or_on_budget_witness :
  let cfg := mkConfig 1 0 1 true in
  let s :=
    state_of (run (lib := plain_library) cfg 0%Z ["https://a.test/"]
                sample_finished) in
  (forall task, task ∈ Queue.history (url_queue (crawler s)) ->
                task ∈ Queue.items (url_queue (crawler s))
                \/ task.1 ∈ visited_urls (crawler s))
  /\ (Queue.items (url_queue (crawler s)) = []
      \/ (0 < max_pages cfg)%Z
         /\ (max_pages cfg <= total_crawled (stats (crawler s)))%Z)
  /\ total_crawled (stats (crawler s))
     = Z.of_nat (size (visited_urls (crawler s)))
  /\ ((max_pages cfg <= 0)%Z ->
      forall task, task ∈ Queue.history (url_queue (crawler s)) ->
                   task.1 ∈ visited_urls (crawler s)).
Proof.
  cbv zeta.
  apply (finished_crawl_is_complete_or_on_budget plain_library
           (mkConfig 1 0 1 true) 0%Z ["https://a.test/"] sample_finished
           (state_of (run (lib := plain_library) (mkConfig 1 0 1 true) 0%Z
                        ["https://a.test/"] sample_finished))).
  - vm_compute. reflexivity.
  - apply returned_state. vm_compute. reflexivity.
  - vm_compute. repeat constructor.
Defined.

(** ** The seeds *)

(** A URL without brackets that [is_valid_url] accepts. *)
Definition plain_valid `{lib : Library} (cfg : CrawlerConfig) (url : string)
  : Prop :=
  mem "[" url = false /\ mem "]" url = false
  /\ is_valid_url cfg url None = true.

(** The task that the loop over the seeds queues for a seed. *)
Definition task_of_seed `{lib : Library} (url : string) (task : string * Z)
  : Prop :=
  normalize_url url = inr task.1 /\ task.2 = 0%Z.

(** X13.  When every seed is a valid URL without brackets, the loop
    of lines 316-320 over the seeds does not raise and puts each seed
    on the queue once, in the order given, as its normal form at depth
    0, behind what the queue held. *)
Theorem seed_loop_queues_valid_seeds :
  forall (lib : Library) (cfg : CrawlerConfig) (self : t)
         (seed_urls : list string),
    Forall (plain_valid cfg) seed_urls ->
    exists (self' : t) (tasks : list (string * Z)),
      admit_seeds cfg self seed_urls = inr self'
      /\ Queue.items (url_queue self')
         = Queue.items (url_queue self) ++ tasks
      /\ Queue.history (url_queue self')
         = Queue.history (url_queue self) ++ tasks
      /\ Forall2 task_of_seed seed_urls tasks.
Proof.
  intros lib cfg self seed_urls Hall. revert self.
  induction Hall as [| url seed_urls (Hopen & Hclose & Hvalid) _ IH];
    intros self.
  - exists self, []. rewrite !app_nil_r. repeat split. constructor.
  - destruct (valid_normal_form cfg url None Hopen Hclose Hvalid)
      as (n & Hn & _ & Hvn).
    cbn [admit_seeds]. unfold admit_seed at 1. rewrite Hn. cbn [bind].
    rewrite Hvn. cbn [bind ret].
    destruct (IH (set_url_queue (Queue.put (n, 0%Z) (url_queue self))
                    (set_queued_urls ({[n]} ∪ queued_urls self) self)))
      as (self' & tasks & Hseeds & Hi & Hh & Htasks).
    exists self', ((n, 0%Z) :: tasks). split; [exact Hseeds |].
    split; [| split].
    + rewrite Hi. cbn. rewrite <- app_assoc. reflexivity.
    + rewrite Hh. cbn. rewrite <- app_assoc. reflexivity.
    + constructor; [split; [exact Hn | reflexivity] | exact Htasks].
Qed.

Lemma seed_loop_queues_valid_seeds_witness :
  exists (self' : t) (tasks : list (string * Z)),
    admit_seeds (lib := plain_library) sample_config
      (new (lib := plain_library) 0%Z)
      ["HTTP://A.Test/"; "https://b.test/x#y"] = inr self'
    /\ Queue.items (url_queue self')
       = Queue.items (url_queue (new (lib := plain_library) 0%Z)) ++ tasks
    /\ Queue.history (url_queue self')
       = Queue.history (url_queue (new (lib := plain_library) 0%Z)) ++ tasks
    /\ Forall2 (task_of_seed (lib := plain_library))
         ["HTTP://A.Test/"; "https://b.test/x#y"] tasks.
Proof.
  apply (seed_loop_queues_valid_seeds plain_library sample_config
           (new (lib := plain_library) 0%Z)
           ["HTTP://A.Test/"; "https://b.test/x#y"]).
  repeat constructor.
Defined.

(** ** [extract_links] *)

(** [c.isspace()] on code points below 256 *)
Definition is_space (c : ascii) : bool :=
  let n := nat_of_ascii c in
  ((9 <=? n) && (n <=? 13) || (28 <=? n) && (n <=? 32)
   || (n =? 133) || (n =? 160))%nat.

(** [s.rstrip(chars)], the set [chars] given by its membership test *)
Fixpoint rstrip (p : ascii -> bool) (s : string) : string :=
  match s with
  | EmptyString => EmptyString
  | String a s' =>
      match rstrip p s' with
      | EmptyString => if p a then EmptyString else String a EmptyString
      | r => String a r
      end
  end.

(** [s.strip()] *)
Definition strip (s : string) : string :=
  rstrip is_space (lstrip is_space s).

(** What [BeautifulSoup(html, 'html.parser')] finds: the values of
    [href] of the [a] tags and of the [link] tags that have one, in
    document order. *)
Record Soup : Type := mkSoup {
  a_hrefs : list string;       (* [soup.find_all('a', href=True)] *)
  link_hrefs : list string     (* [soup.find_all('link', href=True)] *)
}.

Section ExtractLinks.
Context `{lib : Library}.

(** Lines 156-161 and 165-170: the body of either loop, as what it
    appends to [links], or the exception it raises. *)
Definition extract_link (cfg : CrawlerConfig) (base_url href : string)
  : Exc (option string) :=
  let href := strip href in
  if truthy href then
    bind (urljoin base_url href) (fun absolute_url =>
    if is_valid_url cfg absolute_url None
    then bind (normalize_url absolute_url) (fun link => ret (Some link))
    else ret None)
  else ret None.

(** One loop: [links] as the loop leaves it, and the exception that
    ended it, if one did. *)
Fixpoint extract_from (cfg : CrawlerConfig) (base_url : string)
    (hrefs links : list string) : list string * Exc unit :=
  match hrefs with
  | [] => (links, ret tt)
  | href :: hrefs =>
      match extract_link cfg base_url href with
      | inl e => (links, raise e)
      | inr None => extract_from cfg base_url hrefs links
      | inr (Some link) => extract_from cfg base_url hrefs (links ++ [link])
      end
  end.

(** Lines 150-171: the list [links] when line 173 is reached; [soup]
    is what the call of [BeautifulSoup] returned or raised. *)
Definition gathered_links (cfg : CrawlerConfig) (soup : Exc Soup)
    (base_url : string) : list string :=
  match soup with
  | inl _ => []
  | inr soup =>
      match extract_from cfg base_url (a_hrefs soup) [] with
      | (links, inl _) => links
      | (links, inr _) =>
          (extract_from cfg base_url (link_hrefs soup) links).1
      end
  end.

(** [extract_links]: the list [list(set(links))] holds the elements of
    this set, each once, in an order that the source does not fix. *)
Definition extract_links (cfg : CrawlerConfig) (soup : Exc Soup)
    (base_url : string) : gset string :=
  list_to_set (gathered_links cfg soup base_url).

(** Where a gathered link comes from. *)
Definition link_of (cfg : CrawlerConfig) (base_url : string)
    (hrefs : list string) (link : string) : Prop :=
  exists href absolute_url,
    href ∈ hrefs
    /\ strip href <> ""
    /\ urljoin base_url (strip href) = inr absolute_url
    /\ is_valid_url cfg absolute_url None = true
    /\ normalize_url absolute_url = inr link.

Lemma extract_link_Some cfg base_url href link :
  extract_link cfg base_url href = inr (Some link) ->
  link_of cfg base_url [href] link.
Proof.
  unfold extract_link. destruct (strip href) as [| c h] eqn:Hstrip;
    cbn [truthy]; [discriminate |].
  destruct (urljoin base_url (String c h)) as [e | absolute_url] eqn:Hjoin;
    cbn [bind]; [discriminate |].
  destruct (is_valid_url cfg absolute_url None) eqn:Hvalid;
    [| discriminate].
  destruct (normalize_url absolute_url) as [e | n] eqn:Hn; cbn [bind ret];
    [discriminate |].
  intros [= <-]. exists href, absolute_url. rewrite Hstrip.
  repeat split; auto. apply list_elem_of_singleton. reflexivity.
Qed.

Lemma link_of_mono cfg base_url hrefs hrefs' link :
  (forall href, href ∈ hrefs -> href ∈ hrefs') ->
  link_of cfg base_url hrefs link -> link_of cfg base_url hrefs' link.
Proof.
  intros Hsub (href & abs & Hin & H). exists href, abs. auto.
Qed.

Lemma extract_from_links cfg base_url hrefs links link :
  link ∈ (extract_from cfg base_url hrefs links).1 ->
  link ∈ links \/ link_of cfg base_url hrefs link.
Proof.
  revert links. induction hrefs as [| href hrefs IH]; intros links;
    cbn [extract_from]; [auto |].
  destruct (extract_link cfg base_url href) as [e | [l |]] eqn:Hlink;
    cbn [fst]; [auto | |].
  - intros [[Hin | Hin]%elem_of_app | Hof]%IH; [auto | |].
    + apply list_elem_of_singleton in Hin as ->. right.
      eapply link_of_mono; [| apply extract_link_Some; exact Hlink].
      intros h ->%list_elem_of_singleton. left.
    + right. eapply link_of_mono; [| exact Hof]. intros h Hh. now right.
  - intros [Hin | Hof]%IH; [auto |].
    right. eapply link_of_mono; [| exact Hof]. intros h Hh. now right.
Qed.

(** A loop that an exception ends leaves [links] as the hrefs before
    the one that raised made it. *)
Lemma extract_from_raises cfg base_url before href after links e :
  Forall (fun h => returned (extract_link cfg base_url h) = true) before ->
  extract_link cfg base_url href = inl e ->
  extract_from cfg base_url (before ++ href :: after) links
  = ((extract_from cfg base_url before links).1, inl e).
Proof.
  intros Hbefore Hraise. revert links.
  induction Hbefore as [| h before Hh _ IH]; intros links;
    cbn [app extract_from].
  - rewrite Hraise. reflexivity.
  - destruct (extract_link cfg base_url h) as [e' | [l |]];
      [discriminate | apply IH ..].
Qed.

Lemma extract_from_returns cfg base_url hrefs links :
  Forall (fun h => returned (extract_link cfg base_url h) = true) hrefs ->
  (extract_from cfg base_url hrefs links).2 = ret tt.
Proof.
  intros Hall. revert links.
  induction Hall as [| h hrefs Hh _ IH]; intros links; cbn [extract_from];
    [reflexivity |].
  destruct (extract_link cfg base_url h) as [e' | [l |]];
    [discriminate | apply IH ..].
Qed.

(** The body of the loops raises when [urljoin] does, and only then. *)
Lemma extract_link_raises cfg base_url href e :
  extract_link cfg base_url href = inl e
  <-> strip href <> "" /\ urljoin base_url (strip href) = inl e.
Proof.
  unfold extract_link. destruct (strip href) as [| c h]; cbn [truthy].
  - split; [discriminate | intros [[] _]; reflexivity].
  - destruct (urljoin base_url (String c h)) as [e' | absolute_url];
      cbn [bind].
    + split; [intros [= ->]; split; [discriminate | reflexivity] |].
      intros [_ [= ->]]. reflexivity.
    + split; [| intros [_ [=]]].
      unfold is_valid_url, normalize_url.
      destruct (urlparse absolute_url) as [e' | p]; [discriminate |].
      cbn [bind ret].
      match goal with
      | |- (if ?b then _ else _) = _ -> _ => destruct b; discriminate
      end.
Qed.

End ExtractLinks.

(** X14.  Every link that [extract_links] returns is the normal form
    of a valid URL that [urljoin] made of the page's URL and the
    stripped, non-empty [href] of an [a] or [link] tag.  When that URL
    has no bracket, the link is its own normal form and is valid. *)
Theorem extracted_links_are_normal_forms :
  forall (lib : Library) (cfg : CrawlerConfig) (soup : Exc Soup)
         (base_url link : string),
    link ∈ extract_links cfg soup base_url ->
    exists (found : Soup) (href absolute_url : string),
      soup = inr found
      /\ href ∈ a_hrefs found ++ link_hrefs found
      /\ strip href <> ""
      /\ urljoin base_url (strip href) = inr absolute_url
      /\ is_valid_url cfg absolute_url None = true
      /\ normalize_url absolute_url = inr link
      /\ (mem "[" absolute_url = false -> mem "]" absolute_url = false ->
          normalize_url link = inr link
          /\ is_valid_url cfg link None = true).
Proof.
  intros lib cfg soup base_url link Hin.
  unfold extract_links in Hin. apply elem_of_list_to_set in Hin.
  destruct soup as [e | found]; cbn [gathered_links] in Hin;
    [inversion Hin |].
  assert (Hof : link_of cfg base_url (a_hrefs found ++ link_hrefs found) link).
  { pose proof (extract_from_links cfg base_url (a_hrefs found) [] link)
      as Ha.
    destruct (extract_from cfg base_url (a_hrefs found) []) as [links r].
    cbn [fst] in Ha.
    assert (Hlinks : link ∈ links ->
                     link_of cfg base_url (a_hrefs found ++ link_hrefs found)
                       link).
    { intros [Hnil | Hof]%Ha; [inversion Hnil |].
      eapply link_of_mono; [| exact Hof].
      intros h Hh. apply elem_of_app. auto. }
    destruct r as [e | []]; [auto |].
    apply extract_from_links in Hin as [Hin | Hof]; [auto |].
    eapply link_of_mono; [| exact Hof].
    intros h Hh. apply elem_of_app. auto. }
  destruct Hof as (href & absolute_url & Hhref & Hstrip & Hjoin & Hvalid & Hn).
  exists found, href, absolute_url.
  split; [reflexivity |]. do 5 (split; [assumption |]).
  intros Hopen Hclose.
  destruct (valid_normal_form cfg absolute_url None Hopen Hclose Hvalid)
    as (n & Hn' & Hfix & Hv).
  assert (Heq : n = link) by congruence. subst n. auto.
Qed.

Lemma extracted_links_are_normal_forms_witness :
  exists (found : Soup) (href absolute_url : string),
    (inr (mkSoup [" /x "] ["/style.css"]) : Exc Soup) = inr found
    /\ href ∈ a_hrefs found ++ link_hrefs found
    /\ strip href <> ""
    /\ urljoin (Library := plain_library) "https://A.test" (strip href)
       = inr absolute_url
    /\ is_valid_url (lib := plain_library) sample_config absolute_url None
       = true
    /\ normalize_url (lib := plain_library) absolute_url
       = inr "https://a.test/x"
    /\ (mem "[" absolute_url = false -> mem "]" absolute_url = false ->
        normalize_url (lib := plain_library) "https://a.test/x"
        = inr "https://a.test/x"
        /\ is_valid_url (lib := plain_library) sample_config
             "https://a.test/x" None = true).
Proof.
  apply (extracted_links_are_normal_forms plain_library sample_config
           (inr (mkSoup [" /x "] ["/style.css"])) "https://A.test"
           "https://a.test/x").
  apply (bool_decide_unpack _). vm_compute. exact I.
Defined.

(** A library whose [urljoin] raises, as CPython's does, on a URL with
    an opening bracket that no closing bracket follows. *)
Definition bracket_library : Library := {|
  check_bracketed_netloc := fun _ => ret tt;
  urljoin := fun base url =>
    if mem "[" url && negb (mem "]" url)
    then raise (ValueError "Invalid IPv6 URL")
    else ret (base +:+ url);
  RobotFileParser := string;
  RobotFileParser_new := "";
  RobotFileParser_set_url := fun url _ => (url, ret tt);
  RobotFileParser_can_fetch := fun _ _ _ => ret false
|}.

(** X15.  When [urljoin] raises on the [href] of an [a] tag, the
    exception ends the extraction: [extract_links] returns what the
    tags before it gave, and nothing of the [a] tags behind it nor of
    any [link] tag. *)
Theorem extract_links_stops_at_raise :
  forall (lib : Library) (cfg : CrawlerConfig) (base_url : string)
         (before after links : list string) (href : string) (e : exn),
    Forall (fun h => returned (extract_link cfg base_url h) = true) before ->
    strip href <> "" ->
    urljoin base_url (strip href) = inl e ->
    extract_links cfg (inr (mkSoup (before ++ href :: after) links)) base_url
    = extract_links cfg (inr (mkSoup before [])) base_url.
Proof.
  intros lib cfg base_url before after links href e Hbefore Hstrip Hjoin.
  unfold extract_links, gathered_links. cbn [a_hrefs link_hrefs].
  rewrite (extract_from_raises cfg base_url before href after [] e Hbefore)
    by (apply extract_link_raises; auto).
  pose proof (extract_from_returns cfg base_url before [] Hbefore) as Hret.
  destruct (extract_from cfg base_url before []) as [gathered r].
  cbn [fst snd] in *. rewrite Hret. reflexivity.
Qed.

Lemma extract_links_stops_at_raise_witness :
  extract_links (lib := bracket_library) sample_config
    (inr (mkSoup ["/x"; "http://["; "/y"] ["/z"])) "https://a.test"
  = extract_links (lib := bracket_library) sample_config
      (inr (mkSoup ["/x"] [])) "https://a.test".
Proof.
  apply (extract_links_stops_at_raise bracket_library sample_config
           "https://a.test" ["/x"] ["/y"] ["/z"] "http://["
           (ValueError "Invalid IPv6 URL")).
  - repeat constructor.
  - discriminate.
  - reflexivity.
Defined.

(** *** The two loops *)

(** What the hrefs add to [links] when none of them raises. *)
Definition links_from `{lib : Library} (cfg : CrawlerConfig)
    (base_url : string) (hrefs : list string) : list string :=
  omap (fun href =>
          match extract_link cfg base_url href with
          | inr (Some link) => Some link
          | _ => None
          end) hrefs.

Section TwoLoops.
Context `{lib : Library}.

Lemma extract_from_app cfg base_url hrefs1 hrefs2 links :
  extract_from cfg base_url (hrefs1 ++ hrefs2) links
  = match extract_from cfg base_url hrefs1 links with
    | (links', inl e) => (links', inl e)
    | (links', inr _) => extract_from cfg base_url hrefs2 links'
    end.
Proof.
  revert links. induction hrefs1 as [| href hrefs1 IH]; intros links;
    cbn [app extract_from]; [reflexivity |].
  destruct (extract_link cfg base_url href) as [e | [link |]];
    [reflexivity | apply IH ..].
Qed.

Lemma links_from_cons cfg base_url href hrefs :
  links_from cfg base_url (href :: hrefs)
  = match extract_link cfg base_url href with
    | inr (Some link) => link :: links_from cfg base_url hrefs
    | _ => links_from cfg base_url hrefs
    end.
Proof.
  unfold links_from. simpl.
  destruct (extract_link cfg base_url href) as [e | [link |]]; reflexivity.
Qed.

Lemma extract_from_links_from cfg base_url hrefs links :
  Forall (fun h => returned (extract_link cfg base_url h) = true) hrefs ->
  extract_from cfg base_url hrefs links
  = (links ++ links_from cfg base_url hrefs, ret tt).
Proof.
  intros Hall. revert links.
  induction Hall as [| h hrefs Hh _ IH]; intros links.
  - cbn. now rewrite app_nil_r.
  - rewrite links_from_cons. cbn [extract_from].
    destruct (extract_link cfg base_url h) as [e | [link |]];
      [discriminate | |].
    + rewrite IH, <- app_assoc. reflexivity.
    + apply IH.
Qed.

End TwoLoops.

(** X16.  [extract_links] treats the [link] tags as it treats the [a]
    tags: it returns what it would return if their hrefs followed
    those of the [a] tags in one loop; and when no href makes the loop
    raise, the result is the same with the two kinds of tags
    exchanged. *)
Theorem link_tags_extracted_like_anchors :
  forall (lib : Library) (cfg : CrawlerConfig) (base_url : string)
         (anchors links : list string),
    extract_links cfg (inr (mkSoup anchors links)) base_url
    = extract_links cfg (inr (mkSoup (anchors ++ links) [])) base_url
    /\ (Forall (fun h => returned (extract_link cfg base_url h) = true)
          (anchors ++ links) ->
        extract_links cfg (inr (mkSoup anchors links)) base_url
        = extract_links cfg (inr (mkSoup links anchors)) base_url).
Proof.
  intros lib cfg base_url anchors links. split.
  - unfold extract_links, gathered_links. cbn [a_hrefs link_hrefs].
    rewrite extract_from_app.
    destruct (extract_from cfg base_url anchors []) as [gathered [e | []]];
      [reflexivity |].
    destruct (extract_from cfg base_url links gathered) as [all [e | []]];
      reflexivity.
  - intros [Ha Hl]%Forall_app.
    unfold extract_links, gathered_links. cbn [a_hrefs link_hrefs].
    rewrite !extract_from_links_from by assumption. cbn [app fst].
    unfold ret. rewrite !list_to_set_app_L. apply (comm_L (∪)).
Qed.

Lemma link_tags_extracted_like_anchors_witness :
  extract_links (lib := plain_library) sample_config
    (inr (mkSoup ["/x"] ["/style.css"])) "https://a.test"
  = extract_links (lib := plain_library) sample_config
      (inr (mkSoup ["/style.css"] ["/x"])) "https://a.test".
Proof.
  apply (proj2 (link_tags_extracted_like_anchors plain_library sample_config
                  "https://a.test" ["/x"] ["/style.css"])).
  repeat constructor.
Defined.

(** ** What is stored *)

(** A record as [fetch_url] builds it: without error, or with status
    code 0 and nothing of a page. *)
Definition plain_or_failed (r : CrawlResult) : Prop :=
  error r = None
  \/ status_code r = 0%Z /\ title r = "" /\ content_length r = 0%Z
     /\ links r = [].

(** The URL that a worker is fetching, or whose record it is storing. *)
Definition flight_url (pc : Worker) : option string :=
  match pc with
  | InFetch u _ => Some u
  | InStore r => Some (WebCrawler.url r)
  | _ => None
  end.

Definition in_flight_at `{lib : Library} (s : System) (u : string) : Prop :=
  exists w pc, workers s !! w = Some pc /\ flight_url pc = Some u.

(** No two workers are busy with the same URL; the URLs they are busy
    with are visited; the records to store are as [fetch_url] builds
    them. *)
Record flights `{lib : Library} (s : System) : Prop := {
  fl_apart :
    forall w1 w2 pc1 pc2 u,
      workers s !! w1 = Some pc1 -> workers s !! w2 = Some pc2 ->
      flight_url pc1 = Some u -> flight_url pc2 = Some u -> w1 = w2;
  fl_visited :
    forall u, in_flight_at s u -> u ∈ visited_urls (crawler s);
  fl_records :
    forall w r, workers s !! w = Some (InStore r) -> plain_or_failed r
}.

(** The record whose storing an event ends: its worker awaits
    [store_page], at line 275. *)
Definition stored_by `{lib : Library} (s : System) (ev : Event)
  : option CrawlResult :=
  match ev with
  | EvStore w _ =>
      match workers s !! w with
      | Some (InStore r) => Some r
      | _ => None
      end
  | _ => None
  end.

(** The records handed to [store_page] while the events run, in
    order. *)
Fixpoint stores `{lib : Library} (cfg : CrawlerConfig) (s : System)
    (events : list Event) : list CrawlResult :=
  match events with
  | [] => []
  | ev :: events =>
      match stored_by s ev with
      | Some r => r :: stores cfg (step cfg s ev) events
      | None => stores cfg (step cfg s ev) events
      end
  end.

Section Stored.
Context `{lib : Library}.
Implicit Types (cfg : CrawlerConfig) (self : t) (s : System) (ev : Event).

Lemma fetch_page_record cfg self url depth page now self' r :
  fetch_page cfg self url depth page now = (self', inr r) ->
  WebCrawler.url r = url /\ error r = None.
Proof.
  unfold fetch_page. destruct page as [e | response]; [discriminate |].
  destruct (negb _); [intros [= _ <-]; auto |].
  destruct (text response) as [e | html]; [discriminate |].
  destruct (depth <? max_depth cfg)%Z;
    [destruct (base_domain_of cfg url); [discriminate |] |];
    intros [= _ <-]; auto.
Qed.

(** The record that [fetch_url] returns is that of the URL, and has
    an error only with status code 0. *)
Lemma fetch_url_record cfg self url depth robots page now r :
  (fetch_url cfg self url depth robots page now).2 = Some r ->
  WebCrawler.url r = url /\ plain_or_failed r.
Proof.
  rewrite fetch_url_gate. unfold fetch_url_gated.
  destruct (negb _); [discriminate |].
  destruct (fetch_page cfg self url depth page now) as [self' [e | r']]
    eqn:Hpage; cbn [snd]; intros [= <-].
  - unfold plain_or_failed. destruct e; cbn; auto 6.
  - apply fetch_page_record in Hpage as [Hurl Herr].
    split; [exact Hurl | left; exact Herr].
Qed.

Lemma fetch_url_visited cfg self url depth robots page now :
  visited_urls (fetch_url cfg self url depth robots page now).1
  = visited_urls self.
Proof.
  destruct (fetch_url_effect cfg self url depth robots page now)
    as [| tasks self' result Hq _]; [reflexivity | apply Hq].
Qed.

(** One worker goes on: the others are as they were, and what the
    worker is busy with is what it was busy with, or newly visited. *)
Lemma flights_insert s w old new self' :
  flights s -> workers s !! w = Some old ->
  visited_urls (crawler s) ⊆ visited_urls self' ->
  (forall u, flight_url new = Some u ->
             flight_url old = Some u
             \/ (u ∉ visited_urls (crawler s)) /\ u ∈ visited_urls self') ->
  (forall r, new = InStore r -> plain_or_failed r) ->
  flights (mkSystem self' (<[w := new]> (workers s)))
  /\ forall u,
       in_flight_at (mkSystem self' (<[w := new]> (workers s))) u
       \/ u ∉ visited_urls self' ->
       in_flight_at s u \/ u ∉ visited_urls (crawler s).
Proof.
  intros [Hapart Hvis Hrec] Hw Hsub Hnew Hshape.
  assert (Hlookup : forall w' pc,
             <[w := new]> (workers s) !! w' = Some pc ->
             w' = w /\ pc = new \/ w' <> w /\ workers s !! w' = Some pc).
  { intros w' pc Hl. apply list_lookup_insert_Some in Hl.
    destruct Hl as [(<- & <- & _) | (Hne & Hl)]; auto. }
  assert (Hfresh : forall u w' pc,
             flight_url new = Some u -> w' <> w ->
             workers s !! w' = Some pc -> flight_url pc = Some u -> False).
  { intros u w' pc Hu Hne Hl Hf.
    destruct (Hnew u Hu) as [Hold | [Hnot _]].
    - apply Hne. exact (Hapart _ _ _ _ _ Hl Hw Hf Hold).
    - apply Hnot, Hvis. exists w', pc. auto. }
  split; [split |]; cbn [crawler workers].
  - intros w1 w2 pc1 pc2 u H1 H2 Hf1 Hf2.
    destruct (Hlookup _ _ H1) as [[-> ->] | [Hne1 Hl1]];
      destruct (Hlookup _ _ H2) as [[-> ->] | [Hne2 Hl2]];
      [reflexivity | | | exact (Hapart _ _ _ _ _ Hl1 Hl2 Hf1 Hf2)].
    + exfalso. exact (Hfresh _ _ _ Hf1 Hne2 Hl2 Hf2).
    + exfalso. exact (Hfresh _ _ _ Hf2 Hne1 Hl1 Hf1).
  - intros u (w' & pc & Hl & Hf). cbn [workers] in Hl.
    destruct (Hlookup _ _ Hl) as [[-> ->] | [Hne Hl']].
    + destruct (Hnew u Hf) as [Hold | [_ Hin]]; [| exact Hin].
      apply Hsub, Hvis. exists w, old. auto.
    + apply Hsub, Hvis. exists w', pc. auto.
  - intros w' r Hl. destruct (Hlookup _ _ Hl) as [[-> Hpc] | [Hne Hl']].
    + apply Hshape. symmetry. exact Hpc.
    + exact (Hrec _ _ Hl').
  - intros u [(w' & pc & Hl & Hf) | Hnot].
    + cbn [workers] in Hl.
      destruct (Hlookup _ _ Hl) as [[-> ->] | [Hne Hl']].
      * destruct (Hnew u Hf) as [Hold | [Hnot _]]; [| auto].
        left. exists w, old. auto.
      * left. exists w', pc. auto.
    + right. intros Hin. apply Hnot, Hsub, Hin.
Qed.

(** What an event does to the flights. *)
Lemma step_flights cfg s ev :
  flights s ->
  flights (step cfg s ev)
  /\ forall u,
       in_flight_at (step cfg s ev) u
       \/ u ∉ visited_urls (crawler (step cfg s ev)) ->
       in_flight_at s u \/ u ∉ visited_urls (crawler s).
Proof.
  intros Hfl.
  destruct ev as [w | w | w | w robots page now | w driver]; cbn [step].
  - destruct (workers s !! w) as [[| | | |] |] eqn:Hw; auto.
    destruct (Queue.get _) as [[[url depth] q] |]; [| auto].
    apply (flights_insert s w AtGet); auto; discriminate.
  - destruct (workers s !! w) as [[| | | |] |] eqn:Hw; auto.
    destruct (Queue.items _); [| auto].
    apply (flights_insert s w AtGet); auto; discriminate.
  - destruct (workers s !! w) as [[| url depth | | |] |] eqn:Hw; auto.
    unfold worker_resume. case_bool_decide as Hin.
    + apply (flights_insert s w (Dequeued url depth)); auto; discriminate.
    + apply (flights_insert s w (Dequeued url depth));
        [exact Hfl | exact Hw | cbn; set_solver | | discriminate].
      intros u [= <-]. right. split; [exact Hin | cbn; set_solver].
  - destruct (workers s !! w) as [[| | url depth | |] |] eqn:Hw; auto.
    pose proof (fetch_url_record cfg (crawler s) url depth robots page now)
      as Hrec.
    pose proof (fetch_url_visited cfg (crawler s) url depth robots page now)
      as Hvis.
    destruct (fetch_url cfg (crawler s) url depth robots page now)
      as [self' [r |]]; cbn [fst snd] in *.
    + destruct (Hrec r eq_refl) as [Hurl Hshape].
      apply (flights_insert s w (InFetch url depth) (InStore r) self');
        [exact Hfl | exact Hw | now rewrite Hvis | |].
      * intros u [= <-]. left. cbn. now rewrite Hurl.
      * intros r' [= <-]. exact Hshape.
    + cbn. apply (flights_insert s w (InFetch url depth) AtGet self');
        [exact Hfl | exact Hw | now rewrite Hvis | discriminate
        | discriminate].
  - destruct (workers s !! w) as [[| | | r |] |] eqn:Hw; auto.
    unfold worker_finish. rewrite store_page_returns. cbn [ret].
    pose proof (worker_count_spec cfg (crawler s) r) as Hc.
    destruct (worker_count cfg (crawler s) r) as [self' ctl].
    cbn in Hc. destruct Hc as (Hv & _).
    apply (flights_insert s w (InStore r) (after_turn (worker_except (inr ctl)))
             self');
      [exact Hfl | exact Hw | now rewrite Hv | |];
      destruct ctl; discriminate.
Qed.

(** The records still to store are those of URLs in flight, or of
    URLs not yet visited; no URL has two of them. *)
Lemma stores_apart cfg s events :
  flights s ->
  NoDup (WebCrawler.url <$> stores cfg s events)
  /\ forall r, r ∈ stores cfg s events ->
       plain_or_failed r
       /\ (in_flight_at s (WebCrawler.url r)
           \/ WebCrawler.url r ∉ visited_urls (crawler s)).
Proof.
  revert s. induction events as [| ev events IH]; intros s Hfl;
    cbn [stores fmap list_fmap].
  - split; [constructor | intros r Hr; inversion Hr].
  - destruct (step_flights cfg s ev Hfl) as [Hfl' Hback].
    destruct (IH _ Hfl') as [Hnd Hrest].
    assert (Hold : forall r, r ∈ stores cfg (step cfg s ev) events ->
               plain_or_failed r
               /\ (in_flight_at s (WebCrawler.url r)
                   \/ WebCrawler.url r ∉ visited_urls (crawler s))).
    { intros r Hr. destruct (Hrest r Hr) as [Hshape Hwhere]. auto. }
    destruct (stored_by s ev) as [r0 |] eqn:Hstored; [| auto].
    destruct ev as [| | | | w driver]; try discriminate.
    cbn [stored_by] in Hstored.
    destruct (workers s !! w) as [[| | | r |] |] eqn:Hw; try discriminate.
    injection Hstored as ->.
    assert (Hflying : in_flight_at s (WebCrawler.url r0))
      by (exists w, (InStore r0); auto).
    split.
    + cbn [fmap list_fmap]. constructor; [| exact Hnd].
      intros (r & Hurl & Hr)%list_elem_of_fmap.
      destruct (Hrest r Hr) as [_ [(w' & pc & Hl & Hf) | Hnot]].
      * revert Hl. cbn [step]. rewrite Hw.
        unfold worker_finish. rewrite store_page_returns. cbn [ret].
        destruct (worker_count cfg (crawler s) r0) as [self' ctl].
        cbn [workers]. intros Hl.
        apply list_lookup_insert_Some in Hl.
        destruct Hl as [(<- & <- & _) | (Hne & Hl)];
          [destruct ctl; discriminate |].
        apply Hne. rewrite <- Hurl in Hf.
        exact (fl_apart s Hfl _ _ _ _ _ Hw Hl eq_refl Hf).
      * apply Hnot. rewrite step_visited. cbn [first_visit].
        rewrite <- Hurl. exact (fl_visited s Hfl _ Hflying).
    + intros r [-> | Hr]%elem_of_cons; [| auto].
      split; [exact (fl_records s Hfl _ _ Hw) | auto].
Qed.

End Stored.

(** X17.  From any state of a run on, no URL has two records handed
    to [store_page], and a record handed to it has an error only with
    status code 0, no title and no links: within one crawl the insert
    of [store_page] never meets a row of the same URL that this crawl
    wrote. *)
Theorem one_record_stored_per_url :
  forall (lib : Library) (cfg : CrawlerConfig) (now : Z)
         (seed_urls : list string) (before events : list Event) (s : System),
    run cfg now seed_urls before = inr s ->
    NoDup (WebCrawler.url <$> stores cfg s events)
    /\ Forall plain_or_failed (stores cfg s events).
Proof.
  intros lib cfg now seed_urls before events s Hrun.
  assert (Hfl : flights s).
  { apply (run_ind cfg flights now seed_urls before s);
      [| intros s1 ev _ Hfl; apply step_flights, Hfl | exact Hrun].
    intros s0 (tasks & _ & _ & Hw)%crawl_spec.
    assert (Hidle : forall w pc u,
               workers s0 !! w = Some pc -> flight_url pc = Some u -> False).
    { intros w pc u Hl Hf. rewrite Hw in Hl.
      apply lookup_replicate in Hl as [-> _]. discriminate. }
    split.
    - intros w1 w2 pc1 pc2 u H1 _ Hf1 _. destruct (Hidle _ _ _ H1 Hf1).
    - intros u (w & pc & Hl & Hf). destruct (Hidle _ _ _ Hl Hf).
    - intros w r Hl. destruct (Hidle w (InStore r) _ Hl eq_refl). }
  destruct (stores_apart cfg s events Hfl) as [Hnd Hrest].
  split; [exact Hnd |]. apply Forall_forall. intros r Hr.
  apply (Hrest r Hr).
Qed.

Lemma one_record_stored_per_url_witness :
  let s :=
    state_of (run (lib := plain_library) sample_config 0%Z ["https://a.test/"]
                sample_timeout) in
  NoDup (WebCrawler.url
           <$> stores (lib := plain_library) sample_config s
                 [EvStore 0 (inr tt)])
  /\ Forall plain_or_failed
       (stores (lib := plain_library) sample_config s [EvStore 0 (inr tt)]).
Proof.
  cbv zeta.
  apply (one_record_stored_per_url plain_library sample_config 0%Z
           ["https://a.test/"] sample_timeout [EvStore 0 (inr tt)]
           (state_of (run (lib := plain_library) sample_config 0%Z
                        ["https://a.test/"] sample_timeout))).
  apply returned_state. vm_compute. reflexivity.
Defined.
